(** * fw24 entity layer: a shallow embedding of [BaseEntityService]

    The development follows the entity service of the framework
    ([BaseEntityService], [entityAttributeToIOSchemaAttribute],
    [makeEntityAccessPatternsSchema]): the access-pattern resolver, the
    IO-schema builder, identifier extraction, relation hydration and
    the search handling of [list]/[query].  JavaScript values are embedded as a JSON-like
    inductive type; objects and [Map]s are insertion-ordered association
    lists; effects (log lines, calls to collaborators, exceptions) are
    threaded through a small trace-and-exception monad. *)

From Stdlib Require Import List String Ascii ZArith Bool Lia.
From Stdlib Require Import Decimal DecimalString DecimalZ.
Import ListNotations.
Local Open Scope string_scope.
Local Open Scope list_scope.

Set Implicit Arguments.

(* ================================================================== *)
(** ** JavaScript values *)
(* ================================================================== *)

(** Numbers are restricted to the integers (no NaN, infinities or
    fractions); strings are sequences of code units below 256. *)
#[local] Unset Elimination Schemes.
Inductive value : Type :=
| VUndef
| VNull
| VBool (b : bool)
| VNum (n : Z)
| VStr (s : string)
| VArr (items : list value)
| VObj (props : list (string * value)).
#[local] Set Elimination Schemes.

(** A plain object: own enumerable properties in insertion order.  Keys
    are attribute names, never canonical array indices, so insertion
    order is enumeration order. *)
Definition record := list (string * value).

(** [!!v] *)
Definition truthy (v : value) : bool :=
  match v with
  | VUndef | VNull => false
  | VBool b => b
  | VNum n => negb (n =? 0)%Z
  | VStr s => negb (s =? "")
  | VArr _ | VObj _ => true
  end.

(** [Array.isArray] *)
Definition isArray (v : value) : bool :=
  match v with VArr _ => true | _ => false end.

(** [typeof v === 'object'] (true of [null] as well) *)
Definition typeof_object (v : value) : bool :=
  match v with VNull | VArr _ | VObj _ => true | _ => false end.

(** [a === b] between a value held by a root record and a value held by
    a fetched record: primitives compare by content, objects and arrays
    by reference, and the two sides never share a reference. *)
Definition strict_equals (a b : value) : bool :=
  match a, b with
  | VUndef, VUndef => true
  | VNull, VNull => true
  | VBool x, VBool y => Bool.eqb x y
  | VNum x, VNum y => (x =? y)%Z
  | VStr x, VStr y => (x =? y)
  | _, _ => false
  end.

(* ------------------------------------------------------------------ *)
(** *** Insertion-ordered maps: JS objects and [Map] with string keys *)

Section Assoc.
Variable V : Type.

(** [m.has(k)], [o.hasOwnProperty(k)] *)
Fixpoint assoc_has (k : string) (m : list (string * V)) : bool :=
  match m with
  | [] => false
  | (k', _) :: m' => if k' =? k then true else assoc_has k m'
  end.

(** [m.get(k)] *)
Fixpoint assoc_get (k : string) (m : list (string * V)) : option V :=
  match m with
  | [] => None
  | (k', v) :: m' => if k' =? k then Some v else assoc_get k m'
  end.

(** [m.set(k, v)], [o[k] = v]: an existing key keeps its position. *)
Fixpoint assoc_set (k : string) (v : V) (m : list (string * V))
  : list (string * V) :=
  match m with
  | [] => [(k, v)]
  | (k', v') :: m' =>
      if k' =? k then (k', v) :: m' else (k', v') :: assoc_set k v m'
  end.

(** [Array.from(m.keys())], [Object.keys(o)] *)
Definition assoc_keys (m : list (string * V)) : list string := map fst m.
End Assoc.

Definition hasOwnProperty (o : record) (k : string) : bool := assoc_has k o.

(** [o[k]] on a plain object *)
Definition prop (o : record) (k : string) : value :=
  match assoc_get k o with Some v => v | None => VUndef end.

(** [v[k]] on any value that is not [null]/[undefined] *)
Definition member (v : value) (k : string) : value :=
  match v with VObj o => prop o k | _ => VUndef end.

Definition Object_keys (o : record) : list string := assoc_keys o.

(** [arr.includes(k)] for an array and a string [k] *)
Definition includes (items : list value) (k : string) : bool :=
  existsb (fun v => strict_equals v (VStr k)) items.

(* ------------------------------------------------------------------ *)
(** *** [Set] of strings *)

Definition mem_string (x : string) (l : list string) : bool :=
  existsb (String.eqb x) l.

(** [s.add(x)] *)
Definition Set_add (s : list string) (x : string) : list string :=
  if mem_string x s then s else s ++ [x].

(** [Array.from(new Set(l))]: first occurrences, in order. *)
Definition Set_from (l : list string) : list string :=
  fold_left Set_add l [].

(* ------------------------------------------------------------------ *)
(** *** [String.prototype.split(sep)] for a one-character separator,
        and [trim] *)

Fixpoint split_on (p : ascii -> bool) (acc : string) (s : string)
  : list string :=
  match s with
  | EmptyString => [acc]
  | String c s' =>
      if p c then acc :: split_on p "" s'
      else split_on p (acc ++ String c "") s'
  end.

(** [s.split(',')] *)
Definition split_comma (s : string) : list string :=
  split_on (fun c => Ascii.eqb c ",") "" s.

(** [s.split('.')] *)
Definition split_dot (s : string) : list string :=
  split_on (fun c => Ascii.eqb c ".") "" s.

(** [.filter(s => !!s)] on strings *)
Definition nonempty (s : string) : bool := negb (s =? "").


(* ================================================================== *)
(** ** [JSON.stringify] and [JSON.parse] *)
(* ================================================================== *)

Module JSON.
#[local] Open Scope string_scope.

Definition dquote : ascii := ascii_of_nat 34.
Definition backslash : ascii := ascii_of_nat 92.

Definition hex_digit (n : N) : ascii :=
  if (n <? 10)%N then ascii_of_N (48 + n) else ascii_of_N (87 + n).

(** One code unit inside a quoted string: the quote, the backslash
    and the control characters are escaped. *)
Definition escape_char (c : ascii) : string :=
  let n := N_of_ascii c in
  if (n =? 34)%N then String backslash (String dquote "")
  else if (n =? 92)%N then String backslash (String backslash "")
  else if (n =? 8)%N then String backslash "b"
  else if (n =? 12)%N then String backslash "f"
  else if (n =? 10)%N then String backslash "n"
  else if (n =? 13)%N then String backslash "r"
  else if (n =? 9)%N then String backslash "t"
  else if (n <? 32)%N then
    String backslash
      ("u00" ++ String (hex_digit (n / 16))
                  (String (hex_digit (n mod 16)) ""))
  else String c "".

Fixpoint escape (s : string) : string :=
  match s with
  | EmptyString => ""
  | String c s' => escape_char c ++ escape s'
  end.

Definition quote (s : string) : string :=
  String dquote (escape s ++ String dquote "").

Definition number_to_string (n : Z) : string :=
  NilZero.string_of_int (Z.to_int n).

Fixpoint join (sep : string) (l : list string) : string :=
  match l with
  | [] => ""
  | [x] => x
  | x :: l' => x ++ sep ++ join sep l'
  end.

(** [JSON.stringify(v)]; [None] is the result [undefined].  An
    [undefined] array element is written [null], an [undefined]
    property is left out. *)
Fixpoint stringify (v : value) : option string :=
  match v with
  | VUndef => None
  | VNull => Some "null"
  | VBool true => Some "true"
  | VBool false => Some "false"
  | VNum n => Some (number_to_string n)
  | VStr s => Some (quote s)
  | VArr items =>
      Some ("[" ++ join ","
              (map (fun x => match stringify x with
                             | Some t => t
                             | None => "null"
                             end) items) ++ "]")
  | VObj props =>
      Some ("{" ++ join ","
              (flat_map (fun kv => match stringify (snd kv) with
                                   | Some t => [quote (fst kv) ++ ":" ++ t]
                                   | None => []
                                   end) props) ++ "}")
  end.

(** [JSON.stringify(o)] for a plain object [o]: always a string. *)
Definition stringify_record (o : record) : string :=
  match stringify (VObj o) with Some t => t | None => "" end.

(* ---------------------------------------------------------------- *)
(** *** The parser, on the compact texts (no white space) that
        [stringify] emits *)

Definition is_digit (c : ascii) : bool :=
  let n := N_of_ascii c in ((48 <=? n) && (n <=? 57))%N.

Fixpoint span_digits (s : string) : string * string :=
  match s with
  | EmptyString => ("", "")
  | String c s' =>
      if is_digit c
      then let (d, r) := span_digits s' in (String c d, r)
      else ("", s)
  end.

(** No leading zero on a number of several digits. *)
Definition digits_ok (d : string) : bool :=
  match d with
  | EmptyString => false
  | String c EmptyString => true
  | String c _ => negb (Ascii.eqb c "0")
  end.

Definition parse_number (s : string) : option (Z * string) :=
  match s with
  | EmptyString => None
  | String c s' =>
      if Ascii.eqb c "-" then
        let (d, r) := span_digits s' in
        if digits_ok d then
          match NilZero.uint_of_string d with
          | Some u => Some (Z.opp (Z.of_uint u), r)
          | None => None
          end
        else None
      else
        let (d, r) := span_digits s in
        if digits_ok d then
          match NilZero.uint_of_string d with
          | Some u => Some (Z.of_uint u, r)
          | None => None
          end
        else None
  end.

Definition hex_value (c : ascii) : option N :=
  let n := N_of_ascii c in
  if ((48 <=? n) && (n <=? 57))%N then Some (n - 48)%N
  else if ((97 <=? n) && (n <=? 102))%N then Some (n - 87)%N
  else if ((65 <=? n) && (n <=? 70))%N then Some (n - 55)%N
  else None.

(** [\uXXXX] for a code unit below 256 *)
Definition hex4 (a b c d : ascii) : option ascii :=
  match hex_value a, hex_value b, hex_value c, hex_value d with
  | Some 0%N, Some 0%N, Some x, Some y => Some (ascii_of_N (16 * x + y))
  | _, _, _, _ => None
  end.

Definition unescape (e : ascii) : option ascii :=
  let n := N_of_ascii e in
  if (n =? 34)%N then Some dquote
  else if (n =? 92)%N then Some backslash
  else if (n =? 47)%N then Some "/"%char
  else if (n =? 98)%N then Some (ascii_of_nat 8)
  else if (n =? 102)%N then Some (ascii_of_nat 12)
  else if (n =? 110)%N then Some (ascii_of_nat 10)
  else if (n =? 114)%N then Some (ascii_of_nat 13)
  else if (n =? 116)%N then Some (ascii_of_nat 9)
  else None.

Definition cons_char (c : ascii) (r : option (string * string))
  : option (string * string) :=
  match r with
  | Some (t, rest) => Some (String c t, rest)
  | None => None
  end.

(** The characters of a string literal after its opening quote, up to
    and including the closing quote. *)
Fixpoint parse_string_body (s : string) : option (string * string) :=
  match s with
  | EmptyString => None
  | String c s1 =>
      if Ascii.eqb c dquote then Some ("", s1)
      else if Ascii.eqb c backslash then
        match s1 with
        | EmptyString => None
        | String e s2 =>
            if Ascii.eqb e "u" then
              match s2 with
              | String h1 (String h2 (String h3 (String h4 s3))) =>
                  match hex4 h1 h2 h3 h4 with
                  | Some ch => cons_char ch (parse_string_body s3)
                  | None => None
                  end
              | _ => None
              end
            else
              match unescape e with
              | Some ch => cons_char ch (parse_string_body s2)
              | None => None
              end
        end
      else if (N_of_ascii c <? 32)%N then None
      else cons_char c (parse_string_body s1)
  end.

Fixpoint strip_prefix (p s : string) : option string :=
  match p, s with
  | EmptyString, _ => Some s
  | String a p', String b s' =>
      if Ascii.eqb a b then strip_prefix p' s' else None
  | String _ _, EmptyString => None
  end.

(** Duplicate keys of an object text: the last value is kept, at the
    position of the first. *)
Definition object_of_members (ps : list (string * value)) : record :=
  fold_left (fun o kv => assoc_set (fst kv) (snd kv) o) ps [].

Fixpoint parse_value (fuel : nat) (s : string) : option (value * string) :=
  match fuel with
  | O => None
  | S fuel' =>
      match s with
      | EmptyString => None
      | String c s1 =>
          if Ascii.eqb c "{" then
            match s1 with
            | String c1 s2 =>
                if Ascii.eqb c1 "}" then Some (VObj [], s2)
                else
                  match parse_members fuel' s1 with
                  | Some (ps, r) => Some (VObj (object_of_members ps), r)
                  | None => None
                  end
            | EmptyString => None
            end
          else if Ascii.eqb c "[" then
            match s1 with
            | String c1 s2 =>
                if Ascii.eqb c1 "]" then Some (VArr [], s2)
                else
                  match parse_elements fuel' s1 with
                  | Some (vs, r) => Some (VArr vs, r)
                  | None => None
                  end
            | EmptyString => None
            end
          else if Ascii.eqb c dquote then
            match parse_string_body s1 with
            | Some (t, r) => Some (VStr t, r)
            | None => None
            end
          else
            match strip_prefix "null" s with
            | Some r => Some (VNull, r)
            | None =>
                match strip_prefix "true" s with
                | Some r => Some (VBool true, r)
                | None =>
                    match strip_prefix "false" s with
                    | Some r => Some (VBool false, r)
                    | None =>
                        match parse_number s with
                        | Some (n, r) => Some (VNum n, r)
                        | None => None
                        end
                    end
                end
            end
      end
  end

with parse_elements (fuel : nat) (s : string)
  : option (list value * string) :=
  match fuel with
  | O => None
  | S fuel' =>
      match parse_value fuel' s with
      | Some (v, String c r) =>
          if Ascii.eqb c "," then
            match parse_elements fuel' r with
            | Some (vs, r') => Some (v :: vs, r')
            | None => None
            end
          else if Ascii.eqb c "]" then Some ([v], r)
          else None
      | _ => None
      end
  end

with parse_members (fuel : nat) (s : string)
  : option (list (string * value) * string) :=
  match fuel with
  | O => None
  | S fuel' =>
      match s with
      | EmptyString => None
      | String q s1 =>
          if Ascii.eqb q dquote then
            match parse_string_body s1 with
            | Some (k, String colon s2) =>
                if Ascii.eqb colon ":" then
                  match parse_value fuel' s2 with
                  | Some (v, String c r) =>
                      if Ascii.eqb c "," then
                        match parse_members fuel' r with
                        | Some (ps, r') => Some ((k, v) :: ps, r')
                        | None => None
                        end
                      else if Ascii.eqb c "}" then Some ([(k, v)], r)
                      else None
                  | _ => None
                  end
                else None
            | _ => None
            end
          else None
      end
  end.

(** [JSON.parse(s)]; [None] stands for the [SyntaxError]. *)
Definition parse (s : string) : option value :=
  match parse_value (S (String.length s)) s with
  | Some (v, EmptyString) => Some v
  | _ => None
  end.

End JSON.

(* ================================================================== *)
(** ** The schema model ([EntitySchema], [EntityAttribute]) *)
(* ================================================================== *)

(** [RelationIdentifier]: a path into the raw relation value and the
    attribute of the related entity it maps to. *)
Record RelationIdentifier : Type := {
  source : string;
  target : string
}.

(** [relation.identifiers]: one mapping or an array of mappings. *)
Inductive RelationIdentifiers : Type :=
| OneIdentifier (i : RelationIdentifier)
| ManyIdentifiers (l : list RelationIdentifier).

(** [relation]: [rel_entity] is [relation.entity.model.entity], the
    name of the target schema, when [relation.entity] is given. *)
Record Relation : Type := {
  rel_entity : option string;
  rel_type : option string;
  rel_identifiers : option RelationIdentifiers
}.

(** An optional flag is [None] when the attribute has no such own
    property.  The function-valued members ([get], [set], [watch]) are
    dropped by every function below and are left out. *)
#[local] Unset Elimination Schemes.
Inductive EntityAttribute : Type := mkAttribute {
  att_type : option string;
  att_name : option string;
  att_required : option bool;
  att_validations : option (list string);
  att_default : option value;
  att_hidden : option bool;
  att_isIdentifier : option bool;
  att_isVisible : option bool;
  att_isEditable : option bool;
  att_isListable : option bool;
  att_isCreatable : option bool;
  att_isFilterable : option bool;
  att_isSearchable : option bool;
  att_relation : option Relation;
  att_addNewOption : option value;
  att_properties : list (string * EntityAttribute);
  att_items : option EntityAttribute
}.
#[local] Set Elimination Schemes.

(** [{}] as an attribute: what [{...undefined}] spreads to. *)
Definition empty_attribute : EntityAttribute :=
  mkAttribute None None None None None None None None None None None None
    None None None [] None.

(** [{...att, required: true}] *)
Definition with_required_true (att : EntityAttribute) : EntityAttribute :=
  mkAttribute (att_type att) (att_name att) (Some true)
    (att_validations att) (att_default att) (att_hidden att)
    (att_isIdentifier att) (att_isVisible att) (att_isEditable att)
    (att_isListable att) (att_isCreatable att) (att_isFilterable att)
    (att_isSearchable att) (att_relation att) (att_addNewOption att)
    (att_properties att) (att_items att).

Record IndexKey : Type := { composite : list string }.

(** [indexes[indexName]]: [pk] is mandatory, [sk] optional. *)
Record Index : Type := {
  pk : IndexKey;
  sk : option IndexKey
}.

(** [attributes] and [indexes] are objects: their keys are pairwise
    distinct and enumerate in declaration order. *)
Record EntitySchema : Type := {
  model_entity : string;
  attributes : list (string * EntityAttribute);
  indexes : list (string * Index)
}.

(** [!!flag] for an optional boolean member *)
Definition flag_truthy (f : option bool) : bool :=
  match f with Some b => b | None => false end.

(** [!att.hasOwnProperty(flag) || att[flag]] *)
Definition flag_default_true (f : option bool) : bool :=
  match f with Some b => b | None => true end.

(* ================================================================== *)
(** ** The IO schema of an attribute *)
(* ================================================================== *)

Record IORelation : Type := {
  iorel_entity : string;
  iorel_type : option string;
  iorel_identifiers : option RelationIdentifiers
}.

(** The value of [entityAttributeToIOSchemaAttribute].  [required] is
    destructured away and is not a member of the result; [hidden] and
    [isIdentifier] travel with the rest of the metadata. *)
#[local] Unset Elimination Schemes.
Inductive IOSchemaAttribute : Type := mkIOSchemaAttribute {
  io_id : string;
  io_name : string;
  io_type : option string;
  io_relation : option IORelation;
  io_defaultValue : option value;
  io_validations : list string;
  io_hidden : option bool;
  io_isIdentifier : option bool;
  io_isVisible : bool;
  io_isEditable : bool;
  io_isListable : bool;
  io_isCreatable : bool;
  io_isFilterable : bool;
  io_isSearchable : bool;
  io_addNewOption : option value;
  io_properties : option (list IOSchemaAttribute);
  io_items : option (EntityAttribute * list IOSchemaAttribute)
}.
#[local] Set Elimination Schemes.

(** [Map<attribute name, TIOSchemaAttribute>] *)
Definition TIOSchemaAttributesMap := list (string * IOSchemaAttribute).

(** [att.required] as [extractEntityIdentifiers] reads it off an IO
    schema attribute: the member does not exist. *)
Definition io_required (a : IOSchemaAttribute) : option bool := None.

Definition is_type (t : option string) (s : string) : bool :=
  match t with Some t' => t' =? s | None => false end.

Section IOSchema.

(** [toHumanReadableName] of [../utils] *)
Variable toHumanReadableName : string -> string.

Definition relationMeta (r : option Relation) : option IORelation :=
  match r with
  | Some rel =>
      match rel_entity rel with
      | Some e => Some {| iorel_entity := e;
                          iorel_type := rel_type rel;
                          iorel_identifiers := rel_identifiers rel |}
      | None => None
      end
  | None => None
  end.

(** The function is followed on attributes of the declared type: a
    [map] attribute declares [properties] and a [list] attribute
    declares [items].  (On an attribute outside the type, a list
    without items or a map without properties, the source throws a
    [TypeError]; the embedding says nothing of them.) *)
Fixpoint entityAttributeToIOSchemaAttribute
  (attId : string) (att : EntityAttribute) : IOSchemaAttribute :=
  {| io_id := attId;
     io_name := match att_name att with
                | Some n => if nonempty n then n
                            else toHumanReadableName attId
                | None => toHumanReadableName attId
                end;
     io_type := att_type att;
     io_relation := relationMeta (att_relation att);
     io_defaultValue := att_default att;
     io_validations :=
       match att_validations att with
       | Some _ => ["required"]
       | None => if flag_truthy (att_required att)
                 then ["required"] else []
       end;
     io_hidden := att_hidden att;
     io_isIdentifier := att_isIdentifier att;
     io_isVisible := flag_default_true (att_isVisible att);
     io_isEditable := flag_default_true (att_isEditable att);
     io_isListable := flag_default_true (att_isListable att);
     io_isCreatable := flag_default_true (att_isCreatable att);
     io_isFilterable := flag_default_true (att_isFilterable att);
     io_isSearchable := flag_default_true (att_isSearchable att);
     io_addNewOption :=
       match att_addNewOption att with
       | Some v => if truthy v then Some v else None
       | None => None
       end;
     io_properties :=
       if is_type (att_type att) "map" then
         Some (map (fun kv =>
                      entityAttributeToIOSchemaAttribute (fst kv) (snd kv))
                 (att_properties att))
       else None;
     io_items :=
       if is_type (att_type att) "list" then
         match att_items att with
         | Some it =>
             if is_type (att_type it) "map" then
               Some (it,
                     map (fun kv =>
                            entityAttributeToIOSchemaAttribute
                              (fst kv) (snd kv))
                       (att_properties it))
             else None
         | None => None
         end
       else None |}.

(* ================================================================ *)
(** ** Access patterns *)
(* ================================================================ *)

(** [schema.attributes[name]], spread: [{...att}] *)
Definition schema_attribute (schema : EntitySchema) (a : string)
  : EntityAttribute :=
  match assoc_get a (attributes schema) with
  | Some att => att
  | None => empty_attribute
  end.

(** The body shared by the two inner loops: [indexAttributes.set(a,
    {...entityAttributeToIOSchemaAttribute(a, {...att, required:
    true})})]. *)
Definition set_index_attribute (schema : EntitySchema)
  (m : TIOSchemaAttributesMap) (a : string) : TIOSchemaAttributesMap :=
  assoc_set a
    (entityAttributeToIOSchemaAttribute a
       (with_required_true (schema_attribute schema a))) m.

(** [sk?.composite ?? []] *)
Definition sk_composite (idx : Index) : list string :=
  match sk idx with Some k => composite k | None => [] end.

(** One turn of the outer loop: the attributes of one index. *)
Definition indexAttributes (schema : EntitySchema) (idx : Index)
  : TIOSchemaAttributesMap :=
  let afterPk :=
    fold_left (set_index_attribute schema) (composite (pk idx)) [] in
  fold_left (set_index_attribute schema) (sk_composite idx) afterPk.

(** The map of access patterns; a value [None] is [undefined]. *)
Definition AccessPatterns := list (string * option TIOSchemaAttributesMap).

(** [accessPatterns.values().next().value] *)
Definition first_value (ap : AccessPatterns)
  : option TIOSchemaAttributesMap :=
  match ap with
  | [] => None
  | (_, v) :: _ => v
  end.

Definition makeEntityAccessPatternsSchema (schema : EntitySchema)
  : AccessPatterns :=
  let accessPatterns :=
    fold_left
      (fun ap ix =>
         assoc_set (fst ix) (Some (indexAttributes schema (snd ix))) ap)
      (indexes schema) [] in
  if negb (assoc_has "primary" accessPatterns)
  then assoc_set "primary" (first_value accessPatterns) accessPatterns
  else accessPatterns.

(** [accessPatterns.get(name)]: [None] also when the key is absent. *)
Definition accessPattern_get (name : string) (ap : AccessPatterns)
  : option TIOSchemaAttributesMap :=
  match assoc_get name ap with
  | Some v => v
  | None => None
  end.

(* ================================================================ *)
(** ** Default IO schemas of the operations *)
(* ================================================================ *)

Record IOSchemaAttributes : Type := {
  create_attributes : TIOSchemaAttributesMap;
  update_attributes : TIOSchemaAttributesMap;
  detail_attributes : TIOSchemaAttributesMap;
  list_attributes : TIOSchemaAttributesMap
}.

(** The body of the loop over [schema.attributes]. *)
Definition ops_attribute_step (acc : IOSchemaAttributes)
  (entry : string * EntityAttribute) : IOSchemaAttributes :=
  let attName := fst entry in
  let formattedAtt := entityAttributeToIOSchemaAttribute attName (snd entry) in
  if flag_truthy (io_hidden formattedAtt) then acc
  else
    {| detail_attributes :=
         if io_isVisible formattedAtt
         then assoc_set attName formattedAtt (detail_attributes acc)
         else detail_attributes acc;
       list_attributes :=
         if io_isListable formattedAtt
         then assoc_set attName formattedAtt (list_attributes acc)
         else list_attributes acc;
       create_attributes :=
         if io_isCreatable formattedAtt
         then assoc_set attName formattedAtt (create_attributes acc)
         else create_attributes acc;
       update_attributes :=
         if io_isEditable formattedAtt
         then assoc_set attName formattedAtt (update_attributes acc)
         else update_attributes acc |}.

Record OpsDefaultIOSchema : Type := {
  get_by : option TIOSchemaAttributesMap;
  get_output : TIOSchemaAttributesMap;
  delete_by : option TIOSchemaAttributesMap;
  create_input : TIOSchemaAttributesMap;
  create_output : TIOSchemaAttributesMap * TIOSchemaAttributesMap;
  update_by : option TIOSchemaAttributesMap;
  update_input : TIOSchemaAttributesMap;
  update_output : TIOSchemaAttributesMap;
  list_output : TIOSchemaAttributesMap
}.

Definition makeOpsDefaultIOSchema (schema : EntitySchema)
  : OpsDefaultIOSchema :=
  let maps :=
    fold_left ops_attribute_step (attributes schema)
      {| create_attributes := []; update_attributes := [];
         detail_attributes := []; list_attributes := [] |} in
  let accessPatterns := makeEntityAccessPatternsSchema schema in
  let defaultAccessPattern := accessPattern_get "primary" accessPatterns in
  {| get_by := defaultAccessPattern;
     get_output := detail_attributes maps;
     delete_by := defaultAccessPattern;
     create_input := create_attributes maps;
     create_output := (detail_attributes maps, list_attributes maps);
     update_by := defaultAccessPattern;
     update_input := update_attributes maps;
     update_output := detail_attributes maps;
     list_output := list_attributes maps |}.

(** The cache of [getOpsDefaultIOSchema] holds the value of a pure
    function of the schema. *)
Definition getOpsDefaultIOSchema (schema : EntitySchema)
  : OpsDefaultIOSchema := makeOpsDefaultIOSchema schema.

Definition getDefaultSerializationAttributeNames (schema : EntitySchema)
  : list string := assoc_keys (get_output (getOpsDefaultIOSchema schema)).

Definition getListingAttributeNames (schema : EntitySchema)
  : list string := assoc_keys (list_output (getOpsDefaultIOSchema schema)).

End IOSchema.

(** The first attribute, in declaration order, marked [isIdentifier]. *)
Definition getEntityPrimaryIdPropertyName (schema : EntitySchema)
  : option string :=
  match find (fun e => flag_truthy (att_isIdentifier (snd e)))
          (attributes schema) with
  | Some e => Some (fst e)
  | None => None
  end.

Definition getSearchableAttributeNames (schema : EntitySchema)
  : list string :=
  map fst
    (filter (fun e =>
               let att := snd e in
               negb (flag_truthy (att_hidden att))
               && negb (flag_truthy (att_isIdentifier att))
               && is_type (att_type att) "string"
               && flag_default_true (att_isSearchable att))
       (attributes schema)).

(* ================================================================== *)
(** ** Queries, effects and collaborators *)
(* ================================================================== *)

(** [EntitySelections]: an array of dot-separated attribute paths or a
    nested mapping. *)
Inductive EntitySelections : Type :=
| PathList (paths : list string)
| SelectionTree (tree : record).

(** [query.search] and [query.searchAttributes]: a string or an array
    of strings. *)
Inductive StringOrList : Type :=
| AsString (s : string)
| AsList (l : list string).

(** [EntityQuery]; an absent member is [None].  Filter criteria are
    plain objects. *)
Record EntityQuery : Type := {
  q_attributes : option EntitySelections;
  q_search : option StringOrList;
  q_searchAttributes : option StringOrList;
  q_filters : option value;
  q_pagination : value
}.

Inductive exn : Type :=
| Error (message : string)
| TypeError (message : string)
| SyntaxError (message : string).

(** What an execution leaves behind besides its result: the warnings
    written to the logger and the calls made to collaborators ([info]
    and [debug] lines are not traced). *)
Inductive Event : Type :=
| Warn (message : string)
| GetCall (entityName : string) (identifiers : list record)
    (selections : value)
| ListEntityCall (query : EntityQuery)
| QueryEntityCall (query : EntityQuery).

(** A computation: its trace, then the exception thrown or the value
    returned. *)
Definition M (A : Type) : Type := (list Event * (exn + A))%type.

Definition ret {A : Type} (a : A) : M A := ([], inr a).

Definition throw {A : Type} (e : exn) : M A := ([], inl e).

Definition emit (ev : Event) : M unit := ([ev], inr tt).

Definition bind {A B : Type} (m : M A) (f : A -> M B) : M B :=
  match m with
  | (t, inl e) => (t, inl e)
  | (t, inr a) => let (t', r) := f a in (t ++ t', r)
  end.

Declare Scope monad_scope.
Delimit Scope monad_scope with monad.
Notation "x <- m ;; k" := (bind m (fun x => k))
  (at level 61, m at next level, right associativity) : monad_scope.
Notation "m ;;; k" := (bind m (fun _ => k))
  (at level 61, right associativity) : monad_scope.
Local Open Scope monad_scope.

Definition trace {A : Type} (m : M A) : list Event := fst m.
Definition outcome {A : Type} (m : M A) : exn + A := snd m.

(** A collaborator's answer enters the computation as it is. *)
Definition lift {A : Type} (r : exn + A) : M A := ([], r).

(** A loop with an accumulator whose body may throw or log. *)
Fixpoint foldM {A B : Type} (f : A -> B -> M A) (l : list B) (a : A)
  : M A :=
  match l with
  | [] => ret a
  | x :: l' => a' <- f a x ;; foldM f l' a'
  end.

(** [l.map(f)] for a body that may throw or log. *)
Fixpoint mapM {A B : Type} (f : A -> M B) (l : list A) : M (list B) :=
  match l with
  | [] => ret []
  | x :: l' => y <- f x ;; ys <- mapM f l' ;; ret (y :: ys)
  end.

(** Modelled from the spec: [isObject] of [../utils] is not among the
    sources.  The spec uses it to tell a nested mapping (a selection
    node carrying relation metadata, a raw relation value with
    members) from a boolean leaf, a plain identifier and a sequence:
    it holds of plain objects only. *)
Definition isObject (v : value) : bool :=
  match v with VObj _ => true | _ => false end.

(** Modelled from the spec: [getValueByPath] of [../utils] is not among
    the sources.  The spec resolves a source value by path lookup into
    the raw relation value, nested paths included: the dot-separated
    segments are followed from the value, and a missing member gives
    [undefined]. *)
Definition getValueByPath (v : value) (path : string) : value :=
  fold_left member (split_dot path) v.

(** Modelled from the spec: [pickKeys] of [../utils] is not among the
    sources.  The spec serializes a record by intersecting it with the
    top-level keys of the selection: the members of the record named by
    the keys, in the order of the keys. *)
Definition pickKeys (r : record) (keys : list string) : record :=
  fold_left
    (fun acc k => if hasOwnProperty r k then assoc_set k (prop r k) acc
                  else acc)
    keys [].

(** Modelled from the spec: [isEmpty] of [../utils] is not among the
    sources; on the search attributes it holds of the empty set. *)
Definition isEmpty (a : StringOrList) : bool :=
  match a with
  | AsString s => s =? ""
  | AsList l => match l with [] => true | _ => false end
  end.

(** A related entity's service, as the hydrator sees it: its schema and
    the resolved value of its [get] on a batch of identifiers and a
    selection ([undefined] is [None]), or the exception it rejects
    with. *)
Record RelatedService : Type := {
  rs_schema : EntitySchema;
  rs_get : list record -> value -> exn + option (list record)
}.

(* ================================================================== *)
(** ** [extractEntityIdentifiers] *)
(* ================================================================== *)

Record ExtractEntityIdentifiersContext : Type := {
  forAccessPattern : option string
}.

(** [!context.forAccessPattern || name == context.forAccessPattern] *)
Definition pattern_selected (context : ExtractEntityIdentifiersContext)
  (accessPatternName : string) : bool :=
  match forAccessPattern context with
  | None => true
  | Some p => if nonempty p then accessPatternName =? p else true
  end.

(** [context.forAccessPattern ?? '--primary--'] *)
Definition pattern_label (context : ExtractEntityIdentifiersContext)
  : string :=
  match forAccessPattern context with
  | Some p => p
  | None => "--primary--"
  end.

(** [v.hasOwnProperty(k)]: [None] when the receiver is [null] or
    [undefined] (a [TypeError]).  Attribute names are neither array
    indices nor [length], so only plain objects own them. *)
Definition own_property (v : value) (k : string) : option bool :=
  match v with
  | VUndef | VNull => None
  | VObj o => Some (hasOwnProperty o k)
  | _ => Some false
  end.

Section Extract.

Variable toHumanReadableName : string -> string.

(** The two nested loops filling [identifierAttributes].  The set
    holds a fresh object per entry, so nothing is merged. *)
Definition identifierAttributes (schema : EntitySchema)
  (context : ExtractEntityIdentifiersContext)
  : M (list (string * bool)) :=
  foldM
    (fun acc entry =>
       if pattern_selected context (fst entry) then
         match snd entry with
         | Some accessPatternAttributes =>
             ret (acc ++
                    map (fun e =>
                           (io_id (snd e),
                            match io_required (snd e) with
                            | Some true => true
                            | _ => false
                            end))
                      accessPatternAttributes)
         | None =>
             throw (TypeError "accessPatternAttributes is not iterable")
         end
       else ret acc)
    (makeEntityAccessPatternsSchema toHumanReadableName schema) [].

(** The body of [inputs.map]: the identifiers of one input. *)
Definition extract_identifiers_of
  (primaryAttName : option string)
  (context : ExtractEntityIdentifiersContext)
  (attrs : list (string * bool)) (input : value) : M value :=
  identifiers <-
    foldM
      (fun (identifiers : record) (a : string * bool) =>
         let attName := fst a in
         match own_property input attName with
         | None =>
             throw (TypeError "Cannot read properties of null or undefined")
         | Some true =>
             ret (assoc_set attName (member input attName) identifiers)
         | Some false =>
             if match primaryAttName with
                | Some p => attName =? p
                | None => false
                end
                && match own_property input "id" with
                   | Some b => b
                   | None => false
                   end
             then ret (assoc_set attName (member input "id") identifiers)
             else if snd a then
               emit (Warn ("required attribute: " ++ attName
                           ++ " for access-pattern: "
                           ++ pattern_label context
                           ++ " is not found in input:")%string) ;;;
               ret identifiers
             else ret identifiers
         end)
      attrs [] ;;
  ret (VObj identifiers).

Definition extractEntityIdentifiers (schema : EntitySchema)
  (input : value) (context : ExtractEntityIdentifiersContext) : M value :=
  if negb (truthy input) || negb (typeof_object input) then
    throw (Error "Input is required and must be an object containing entity-identifiers or an array of objects containing entity-identifiers")
  else
    let isBatchInput := isArray input in
    let inputs := match input with VArr l => l | _ => [input] end in
    attrs <- identifierAttributes schema context ;;
    let primaryAttName := getEntityPrimaryIdPropertyName schema in
    identifiersBatch <-
      mapM (extract_identifiers_of primaryAttName context attrs) inputs ;;
    ret (if isBatchInput then VArr identifiersBatch
         else nth 0 identifiersBatch VUndef).

End Extract.

(* ================================================================== *)
(** ** Relation hydration *)
(* ================================================================== *)

(** A property key made of a possibly [undefined] name. *)
Definition property_key (name : option string) : string :=
  match name with Some s => s | None => "undefined" end.

(** [relationMetadata.identifiers || {source: p, target: p}], then
    wrapped in an array unless it is one. *)
Definition identifierMappings_of (relation : Relation)
  (relationPrimaryIdentifierName : option string)
  : list RelationIdentifier :=
  match rel_identifiers relation with
  | Some (ManyIdentifiers l) => l
  | Some (OneIdentifier i) => [i]
  | None =>
      [{| source := property_key relationPrimaryIdentifierName;
          target := property_key relationPrimaryIdentifierName |}]
  end.

(** The inner [map] callback: the identifiers of one raw relation
    value, [None] when the callback returns nothing. *)
Definition identifiers_of_data (identifierMappings : list RelationIdentifier)
  (identifiersData : value) : option record :=
  if negb (truthy identifiersData) then None
  else
    Some
      (fold_left
         (fun (acc : record) identifierMapping =>
            let identifierVal :=
              if isObject identifiersData && truthy identifiersData
              then getValueByPath identifiersData (source identifierMapping)
              else identifiersData in
            if truthy identifierVal
            then assoc_set (target identifierMapping) identifierVal acc
            else acc)
         identifierMappings []).

(** [.map(...).filter(identifiers => !!identifiers)] *)
Fixpoint defined_identifiers (l : list (option record)) : list record :=
  match l with
  | [] => []
  | Some r :: l' => r :: defined_identifiers l'
  | None :: l' => defined_identifiers l'
  end.

(** The [flatMap] callback: the identifiers batch of one root record. *)
Definition identifiersBatch_of (identifierMappings : list RelationIdentifier)
  (relatedAttributeName : string) (entityData : record) : list record :=
  let raw := prop entityData relatedAttributeName in
  let isToManyRelation := isArray raw in
  let identifiersDataBatch :=
    match raw with VArr l => l | _ => [raw] end in
  defined_identifiers
    (map (identifiers_of_data identifierMappings) identifiersDataBatch).

(** [JSON.parse(i)] on the text of an object *)
Definition parse_identifiers (i : string) : M record :=
  match JSON.parse i with
  | Some (VObj o) => ret o
  | _ => throw (SyntaxError "Unexpected token in JSON")
  end.

(** [Array.from(new Set(batch.map(i => JSON.stringify(i)))).map(i =>
    JSON.parse(i))] *)
Definition uniqueRelationIdentifiersBatch_of (batch : list record)
  : M (list record) :=
  mapM parse_identifiers (Set_from (map JSON.stringify_record batch)).

(** The [forEach] callback folding one identifier key into
    [options.attributes]. *)
Definition fold_identifier_key (options : record) (key : string) : record :=
  match prop options "attributes" with
  | VArr items =>
      if negb (includes items key)
      then assoc_set "attributes" (VArr (items ++ [VStr key])) options
      else options
  | VObj selection =>
      if negb (hasOwnProperty selection key)
      then assoc_set "attributes"
             (VObj (assoc_set key (VBool true) selection)) options
      else options
  | _ => options
  end.

(** The predicate of [find]: every identifier is an own member of the
    related record with a strictly equal value. *)
Definition identifiers_match (identifiers : record)
  (relatedEntityData : record) : bool :=
  forallb
    (fun e =>
       hasOwnProperty relatedEntityData (fst e)
       && strict_equals (prop relatedEntityData (fst e)) (snd e))
    identifiers.

(** [relatedEntities?.find(...)] *)
Definition find_related (relatedEntities : option (list record))
  (identifiers : record) : value :=
  match relatedEntities with
  | None => VUndef
  | Some l =>
      match find (identifiers_match identifiers) l with
      | Some r => VObj r
      | None => VUndef
      end
  end.

(** The callback of the final [forEach]: one root record receives its
    related records. *)
Definition merge_related (relatedAttributeName : string)
  (relatedEntities : option (list record))
  (sourceEntityData : record) (identifiersBatch : list record) : record :=
  let relatedRecords := map (find_related relatedEntities) identifiersBatch in
  let isToManyRelation := isArray (prop sourceEntityData relatedAttributeName) in
  if negb isToManyRelation && (0 <? List.length relatedRecords)%nat
  then assoc_set relatedAttributeName (nth 0 relatedRecords VUndef)
         sourceEntityData
  else assoc_set relatedAttributeName (VArr relatedRecords) sourceEntityData.

Section Hydration.

(** [defaultMetaContainer.getEntityServiceByEntityName] *)
Variable getEntityServiceByEntityName : string -> option RelatedService.

Definition lookup_service (relatedEntityName : value)
  : option RelatedService :=
  match relatedEntityName with
  | VStr n => getEntityServiceByEntityName n
  | _ => None
  end.

Definition entity_name_text (relatedEntityName : value) : string :=
  match relatedEntityName with VStr n => n | _ => "undefined" end.

(** [this.schema.attributes[name]?.relation] *)
Definition relation_metadata (schema : EntitySchema)
  (relatedAttributeName : string) : option Relation :=
  match assoc_get relatedAttributeName (attributes schema) with
  | Some att => att_relation att
  | None => None
  end.

(** The root records are distinct objects, so the dictionary keyed by
    them has one entry per root, in order; the mutated roots and the
    mutated [options] are returned.  (Were one object listed twice,
    both positions would still end with the content computed here.) *)
Definition hydrateSingleRelation (schema : EntitySchema)
  (rootEntityRecords : list record) (relatedAttributeName : string)
  (options : record) : M (list record * record) :=
  let relatedEntityName := prop options "entityName" in
  match lookup_service relatedEntityName with
  | None =>
      throw (Error ("No service found in the 'defaultMetaContainer' for relationship: "
                    ++ relatedAttributeName ++ "("
                    ++ entity_name_text relatedEntityName
                    ++ "); please make sure service or factory has been registered in the 'defaultMetaContainer'")%string)
  | Some relatedEntityService =>
      match relation_metadata schema relatedAttributeName with
      | None =>
          emit (Warn ("No metadata found for relationship: "
                      ++ relatedAttributeName)%string) ;;;
          ret (rootEntityRecords, options)
      | Some relationMetadata =>
          let relationPrimaryIdentifierName :=
            getEntityPrimaryIdPropertyName (rs_schema relatedEntityService) in
          let identifierMappings :=
            identifierMappings_of relationMetadata
              relationPrimaryIdentifierName in
          let identifiersToSourceEntityDictionary :=
            map (fun entityData =>
                   (entityData,
                    identifiersBatch_of identifierMappings
                      relatedAttributeName entityData))
              rootEntityRecords in
          let relationIdentifiersBatch :=
            flat_map snd identifiersToSourceEntityDictionary in
          uniqueRelationIdentifiersBatch <-
            uniqueRelationIdentifiersBatch_of relationIdentifiersBatch ;;
          match uniqueRelationIdentifiersBatch with
          | [] =>
              throw (TypeError "Cannot convert undefined or null to object")
          | first :: _ =>
              let options' :=
                fold_left fold_identifier_key (Object_keys first) options in
              let selections := prop options' "attributes" in
              emit (GetCall (entity_name_text relatedEntityName)
                      uniqueRelationIdentifiersBatch selections) ;;;
              relatedEntities <-
                lift (rs_get relatedEntityService
                        uniqueRelationIdentifiersBatch selections) ;;
              ret (map (fun entry =>
                          merge_related relatedAttributeName relatedEntities
                            (fst entry) (snd entry))
                     identifiersToSourceEntityDictionary,
                   options')
          end
      end
  end.

(** [Promise.all] awaits the hydrations that [relations.map] has
    started: what they have logged and fetched, the first exception
    thrown before a fetch, the first rejection of a fetch, and the root
    records and the options as the completed hydrations leave them. *)
Record Hydrations : Type := {
  hy_events : list Event;
  hy_thrown : option exn;
  hy_rejected : option exn;
  hy_records : list record;
  hy_options : list (string * record)
}.

(** The first of two rejections. *)
Definition first_of (a b : option exn) : option exn :=
  match a with
  | Some _ => a
  | None => b
  end.

(** A fetch was issued. *)
Definition fetching (t : list Event) : bool :=
  existsb (fun ev => match ev with GetCall _ _ _ => true | _ => false end) t.

(** One hydration is started.  It runs up to the [await] of its fetch
    before [map] starts the next one, so its warning or its fetch is
    issued whatever becomes of the hydrations before it.  An exception
    thrown before the fetch is a rejection at once; one that follows
    the fetch is the rejection of the fetch. *)
Definition start_hydration (schema : EntitySchema) (started : Hydrations)
  (relation : string * record) : Hydrations :=
  let run :=
    hydrateSingleRelation schema (hy_records started) (fst relation)
      (snd relation) in
  match outcome run with
  | inr r =>
      {| hy_events := hy_events started ++ trace run;
         hy_thrown := hy_thrown started;
         hy_rejected := hy_rejected started;
         hy_records := fst r;
         hy_options := hy_options started ++ [(fst relation, snd r)] |}
  | inl e =>
      {| hy_events := hy_events started ++ trace run;
         hy_thrown :=
           if fetching (trace run) then hy_thrown started
           else first_of (hy_thrown started) (Some e);
         hy_rejected :=
           if fetching (trace run)
           then first_of (hy_rejected started) (Some e)
           else hy_rejected started;
         hy_records := hy_records started;
         hy_options := hy_options started |}
  end.

(** [await Promise.all(relations.map(async ([name, options]) => await
    this.hydrateSingleRelation(rootEntityRecords, name, options)))]:
    every hydration is started, in order, and [Promise.all] rejects
    with the first rejection.  A hydration that throws before its
    fetch rejects before any fetch settles, and the fetches are taken
    to settle in the order in which they were issued.  The relations
    are the entries of one object, so each hydration reads and writes
    the attribute of its own name: it finds in the root records what
    it would find before the others assigned theirs. *)
Definition hydrateRecords (schema : EntitySchema)
  (relations : list (string * record)) (rootEntityRecords : list record)
  : M (list record * list (string * record)) :=
  let awaited :=
    fold_left (start_hydration schema) relations
      {| hy_events := [];
         hy_thrown := None;
         hy_rejected := None;
         hy_records := rootEntityRecords;
         hy_options := [] |} in
  (hy_events awaited,
   match first_of (hy_thrown awaited) (hy_rejected awaited) with
   | Some e => inl e
   | None => inr (hy_records awaited, hy_options awaited)
   end).

End Hydration.

(* ================================================================== *)
(** ** [list] and [query] *)
(* ================================================================== *)

(** White space removed by [trim], among the code units below 256: tab,
    line feed, vertical tab, form feed, carriage return, space and
    no-break space. *)
Definition is_space (c : ascii) : bool :=
  let n := N_of_ascii c in
  ((n =? 32) || ((9 <=? n) && (n <=? 13)) || (n =? 160))%N.

Fixpoint trim_left (s : string) : string :=
  match s with
  | EmptyString => ""
  | String c s' => if is_space c then trim_left s' else s
  end.

Fixpoint trim_right (s : string) : string :=
  match s with
  | EmptyString => ""
  | String c s' =>
      let t := trim_right s' in
      if is_space c && (t =? "") then "" else String c t
  end.

Definition trim (s : string) : string := trim_right (trim_left s).

(** The characters of [delimitersRegex], [/(?:&| |,|\+)+/]. *)
Definition is_delimiter (c : ascii) : bool :=
  Ascii.eqb c "&" || Ascii.eqb c " " || Ascii.eqb c "," || Ascii.eqb c "+".

(** [s.split(delimitersRegex)]: the pieces between the maximal runs of
    delimiters. *)
Fixpoint split_runs (in_run : bool) (acc : string) (s : string)
  : list string :=
  match s with
  | EmptyString => [acc]
  | String c s' =>
      if is_delimiter c then
        if in_run then split_runs true "" s'
        else acc :: split_runs true "" s'
      else split_runs false (acc ++ String c "")%string s'
  end.

(** [search.trim().split(delimitersRegex).filter(s => !!s)] *)
Definition search_terms (search : string) : list string :=
  filter nonempty (split_runs false "" (trim search)).

(** [!!x] for a string or an array of strings *)
Definition present (x : option StringOrList) : bool :=
  match x with
  | None => false
  | Some (AsString s) => nonempty s
  | Some (AsList _) => true
  end.

Definition with_attributes (a : option EntitySelections) (q : EntityQuery)
  : EntityQuery :=
  {| q_attributes := a; q_search := q_search q;
     q_searchAttributes := q_searchAttributes q;
     q_filters := q_filters q; q_pagination := q_pagination q |}.

Definition with_search (s : option StringOrList) (q : EntityQuery)
  : EntityQuery :=
  {| q_attributes := q_attributes q; q_search := s;
     q_searchAttributes := q_searchAttributes q;
     q_filters := q_filters q; q_pagination := q_pagination q |}.

Definition with_searchAttributes (a : option StringOrList) (q : EntityQuery)
  : EntityQuery :=
  {| q_attributes := q_attributes q; q_search := q_search q;
     q_searchAttributes := a;
     q_filters := q_filters q; q_pagination := q_pagination q |}.

Definition with_filters (f : option value) (q : EntityQuery) : EntityQuery :=
  {| q_attributes := q_attributes q; q_search := q_search q;
     q_searchAttributes := q_searchAttributes q;
     q_filters := f; q_pagination := q_pagination q |}.

(** What [listEntity]/[queryEntity] resolve to: the records and the
    remaining members (cursor and the like). *)
Record EntityList : Type := {
  el_data : list record;
  el_rest : record
}.

(** [{...entities, query}] *)
Record ListResult : Type := {
  data : list record;
  rest : record;
  query : EntityQuery
}.

(** The entries of a selection whose options are an object, with the
    options. *)
Definition relationalAttributes (tree : record) : list (string * record) :=
  flat_map (fun e => match snd e with
                     | VObj options => [(fst e, options)]
                     | _ => []
                     end) tree.

(** The options are members of the selection, so what hydration does
    to them shows in the selection. *)
Definition selection_after_hydration (tree : record)
  (relations : list (string * record)) : record :=
  fold_left (fun t r => assoc_set (fst r) (VObj (snd r)) t) relations tree.

Section Service.

Variable toHumanReadableName : string -> string.
Variable getEntityServiceByEntityName : string -> option RelatedService.

(** [parseEntityAttributePaths] and
    [inferRelationshipsForEntitySelections] of [./query] *)
Variable parseEntityAttributePaths : list string -> record.
Variable inferRelationshipsForEntitySelections :
  EntitySchema -> record -> record.

(** [makeFilterGroupForSearchKeywords] and
    [addFilterGroupToEntityFilterCriteria] of [./query] *)
Variable makeFilterGroupForSearchKeywords :
  list string -> StringOrList -> value.
Variable addFilterGroupToEntityFilterCriteria :
  value -> option value -> value.

(** [listEntity] and [queryEntity] of [./crud-service], for this
    entity *)
Variable listEntity : EntityQuery -> exn + EntityList.
Variable queryEntity : EntityQuery -> exn + EntityList.

(** What a mapping that the caller of [query] supplied as
    [query.attributes] shows when [query] returns.  [query] never
    assigns the member, but [inferRelationshipsForEntitySelections] is
    handed the caller's mapping and is not among the sources: the
    selection it returns may share the caller's objects, into which
    hydration writes the identifier keys.  The first argument is the
    caller's mapping, the second the inferred selection after
    hydration. *)
Variable selection_seen_by_caller : record -> record -> record.

Definition serializeRecord (r : record) (attributes : EntitySelections)
  : record :=
  let keys :=
    match attributes with
    | PathList paths => Object_keys (parseEntityAttributePaths paths)
    | SelectionTree tree => Object_keys tree
    end in
  pickKeys r keys.

Definition serializeRecords (records : list record)
  (attributes : EntitySelections) : list record :=
  map (fun r => serializeRecord r attributes) records.

(** [query.search] after the first [if] of the search block *)
Definition split_search (search : StringOrList) : list string :=
  match search with
  | AsString s => search_terms s
  | AsList l => l
  end.

(** The search block of [list]. *)
Definition list_search (schema : EntitySchema) (q : EntityQuery)
  : EntityQuery :=
  if present (q_search q) then
    match q_search q with
    | Some search =>
        let terms := split_search search in
        let q := with_search (Some (AsList terms)) q in
        if (0 <? List.length terms)%nat then
          let q :=
            match q_searchAttributes q with
            | Some (AsString s) =>
                with_searchAttributes
                  (Some (AsList (filter nonempty (split_comma s)))) q
            | _ => q
            end in
          let searchAttributes :=
            match q_searchAttributes q with
            | Some a =>
                if negb (present (Some a)) || isEmpty a
                then AsList (getSearchableAttributeNames schema)
                else a
            | None => AsList (getSearchableAttributeNames schema)
            end in
          let q := with_searchAttributes (Some searchAttributes) q in
          let searchFilterGroup :=
            makeFilterGroupForSearchKeywords terms searchAttributes in
          with_filters
            (Some (addFilterGroupToEntityFilterCriteria searchFilterGroup
                     (q_filters q))) q
        else q
    | None => q
    end
  else q.

(** The search block of [query]. *)
Definition query_search (schema : EntitySchema) (q : EntityQuery)
  : EntityQuery :=
  if present (q_search q) then
    match q_search q with
    | Some search =>
        let terms := split_search search in
        let q := with_search (Some (AsList terms)) q in
        if (0 <? List.length terms)%nat then
          let searchAttributes :=
            match q_searchAttributes q with
            | Some a =>
                if present (Some a) then a
                else AsList (getSearchableAttributeNames schema)
            | None => AsList (getSearchableAttributeNames schema)
            end in
          let q := with_searchAttributes (Some searchAttributes) q in
          let searchFilterGroup :=
            makeFilterGroupForSearchKeywords terms searchAttributes in
          with_filters
            (Some (addFilterGroupToEntityFilterCriteria searchFilterGroup
                     (q_filters q))) q
        else q
    | None => q
    end
  else q.

(** The hydration step shared by [list] and [query]. *)
Definition hydrate_selected (schema : EntitySchema) (tree : record)
  (records : list record) : M (list record * record) :=
  let relations := relationalAttributes tree in
  if (0 <? List.length relations)%nat then
    h <- hydrateRecords getEntityServiceByEntityName schema relations
           records ;;
    ret (fst h, selection_after_hydration tree (snd h))
  else ret (records, tree).

(** [list] ([svc_list] here, [list] being the type of sequences) *)
Definition svc_list (schema : EntitySchema) (q : EntityQuery)
  : M ListResult :=
  let attributes :=
    match q_attributes q with
    | Some a => a
    | None => PathList (getListingAttributeNames toHumanReadableName schema)
    end in
  let tree :=
    match attributes with
    | PathList paths =>
        inferRelationshipsForEntitySelections schema
          (parseEntityAttributePaths paths)
    | SelectionTree t => t
    end in
  let q := with_attributes (Some (SelectionTree tree)) q in
  let q := list_search schema q in
  emit (ListEntityCall q) ;;;
  entities <- lift (listEntity q) ;;
  let records := serializeRecords (el_data entities) (SelectionTree tree) in
  h <- hydrate_selected schema tree records ;;
  ret {| data := fst h;
         rest := el_rest entities;
         query := with_attributes (Some (SelectionTree (snd h))) q |}.

(** [query] ([svc_query] here).  It never assigns [query.attributes]:
    the resolved selection is a local.  Missing attributes stay
    missing and an array of paths stays as it is (the selection parsed
    from it is a new object); a mapping shows what hydration did to the
    objects it shares with the inferred selection. *)
Definition svc_query (schema : EntitySchema) (q : EntityQuery)
  : M ListResult :=
  let selectAttributes :=
    match q_attributes q with
    | Some a => a
    | None => PathList (getListingAttributeNames toHumanReadableName schema)
    end in
  let tree :=
    match selectAttributes with
    | PathList paths =>
        inferRelationshipsForEntitySelections schema
          (parseEntityAttributePaths paths)
    | SelectionTree t => inferRelationshipsForEntitySelections schema t
    end in
  let q := query_search schema q in
  emit (QueryEntityCall q) ;;;
  entities <- lift (queryEntity q) ;;
  let records := serializeRecords (el_data entities) (SelectionTree tree) in
  h <- hydrate_selected schema tree records ;;
  ret {| data := fst h;
         rest := el_rest entities;
         query :=
           match q_attributes q with
           | Some (SelectionTree t) =>
               with_attributes
                 (Some (SelectionTree (selection_seen_by_caller t (snd h)))) q
           | _ => q
           end |}.

End Service.

(* ================================================================== *)
(** ** Auxiliary definitions used by the statements *)
(* ================================================================== *)

(** One derived attribute set of [makeOpsDefaultIOSchema] taken on its
    own: the loop body restricted to the set guarded by [selected]. *)
Definition select_step (toHumanReadableName : string -> string)
  (selected : IOSchemaAttribute -> bool) (m : TIOSchemaAttributesMap)
  (entry : string * EntityAttribute) : TIOSchemaAttributesMap :=
  let formattedAtt :=
    entityAttributeToIOSchemaAttribute toHumanReadableName
      (fst entry) (snd entry) in
  if flag_truthy (io_hidden formattedAtt) then m
  else if selected formattedAtt then assoc_set (fst entry) formattedAtt m
  else m.

(** The IO schema of an index attribute: [required: true] forced. *)
Definition forced_attribute (toHumanReadableName : string -> string)
  (schema : EntitySchema) (a : string) : IOSchemaAttribute :=
  entityAttributeToIOSchemaAttribute toHumanReadableName a
    (with_required_true (schema_attribute schema a)).




(** The number of fetches in a trace. *)
Fixpoint count_get_calls (t : list Event) : nat :=
  match t with
  | [] => 0
  | GetCall _ _ _ :: t' => S (count_get_calls t')
  | _ :: t' => count_get_calls t'
  end.

(** The events of the hydration of one relation entry: at most one
    fetch, and none but of the entity that the entry names. *)
Definition fetches_its_entity (relation : string * record)
  (events : list Event) : Prop :=
  (count_get_calls events <= 1)%nat
  /\ forall entityName identifiers selections,
       In (GetCall entityName identifiers selections) events ->
       entityName = entity_name_text (prop (snd relation) "entityName").

(** The hydrations run one after the other, each on the records the
    one before it leaves, up to the first that throws. *)
Definition hydrate_in_turn (reg : string -> option RelatedService)
  (schema : EntitySchema) (relations : list (string * record))
  (rootEntityRecords : list record)
  : M (list record * list (string * record)) :=
  foldM
    (fun st relation =>
       bind (hydrateSingleRelation reg schema (fst st) (fst relation)
               (snd relation))
         (fun r => ret (fst r, snd st ++ [(fst relation, snd r)])))
    relations (rootEntityRecords, []).

(** *** Schemas of the worked examples *)

Definition string_attribute : EntityAttribute :=
  mkAttribute (Some "string") None None None None None None None None None
    None None None None None [] None.

Definition identifier_attribute : EntityAttribute :=
  mkAttribute (Some "string") None (Some true) None None None (Some true)
    None None None None None None None None [] None.

Definition hidden_attribute : EntityAttribute :=
  mkAttribute (Some "string") None None None None (Some true) None
    (Some true) (Some true) (Some true) (Some true) None None None None []
    None.

Definition unlisted_attribute : EntityAttribute :=
  mkAttribute (Some "number") None None None None None None None None
    (Some false) None None (Some false) None None [] None.

(** [Customer]: identifier [id], one index, named [primary]. *)
Definition CustomerSchema : EntitySchema :=
  {| model_entity := "Customer";
     attributes := [("id", identifier_attribute);
                    ("name", string_attribute)];
     indexes := [("primary", {| pk := {| composite := ["id"] |};
                                sk := Some {| composite := [] |} |})] |}.

(** The relation [customer] of [Order], mapping [customerId] of the raw
    relation value to [id] of [Customer]. *)
Definition customer_relation : Relation :=
  {| rel_entity := Some "Customer";
     rel_type := Some "many-to-one";
     rel_identifiers :=
       Some (OneIdentifier {| source := "customerId"; target := "id" |}) |}.

Definition customer_attribute : EntityAttribute :=
  mkAttribute (Some "map") None None None None None None None None None
    None None None (Some customer_relation) None
    [("customerId", string_attribute)] None.

(** [Order]: no index is named [primary]; the first is [byTenant]. *)
Definition OrderSchema : EntitySchema :=
  {| model_entity := "Order";
     attributes := [("id", identifier_attribute);
                    ("tenantId", string_attribute);
                    ("secret", hidden_attribute);
                    ("weight", unlisted_attribute);
                    ("customer", customer_attribute)];
     indexes := [("byTenant", {| pk := {| composite := ["tenantId"] |};
                                 sk := Some {| composite := ["id"] |} |});
                 ("byId", {| pk := {| composite := ["id"] |};
                             sk := None |})] |}.

(** A schema whose primary identifier attribute is [entityId]. *)
Definition EntityIdSchema : EntitySchema :=
  {| model_entity := "Thing";
     attributes := [("entityId", identifier_attribute);
                    ("name", string_attribute)];
     indexes := [("primary", {| pk := {| composite := ["entityId"] |};
                                sk := Some {| composite := [] |} |})] |}.

(** The same entity with [name] declared first. *)
Definition LabelledSchema : EntitySchema :=
  {| model_entity := "Thing";
     attributes := [("name", string_attribute);
                    ("entityId", identifier_attribute)];
     indexes := [("primary", {| pk := {| composite := ["entityId"] |};
                                sk := None |})] |}.

(** The same entity with [name] as the sort key of its index. *)
Definition NameKeySchema : EntitySchema :=
  {| model_entity := "Thing";
     attributes := [("entityId", identifier_attribute);
                    ("name", string_attribute)];
     indexes := [("primary", {| pk := {| composite := ["entityId"] |};
                                sk := Some {| composite := ["name"] |} |})] |}.

Definition humanize (s : string) : string := s.

(** *** The identifier rule in the words of the spec *)

(** The resolved identifier set: the attribute names of the access
    patterns, of the one named by the context or of all of them. *)
Definition resolved_identifier_names (toHumanReadableName : string -> string)
  (schema : EntitySchema) (context : ExtractEntityIdentifiersContext)
  : list string :=
  flat_map
    (fun entry =>
       if pattern_selected context (fst entry) then
         match snd entry with
         | Some accessPatternAttributes => assoc_keys accessPatternAttributes
         | None => []
         end
       else [])
    (makeEntityAccessPatternsSchema toHumanReadableName schema).

(** The schema's primary identifier attribute: the first attribute, in
    declaration order, that is marked [isIdentifier]. *)
Definition primary_identifier (schema : EntitySchema) (attName : string)
  : Prop :=
  exists before att after,
    attributes schema = before ++ (attName, att) :: after
    /\ flag_truthy (att_isIdentifier att) = true
    /\ forall e, In e before -> flag_truthy (att_isIdentifier (snd e)) = false.

(** What is copied for one identifier name: the input's own member of
    that name; failing that, for the schema's identifier attribute, the
    input's [id]; otherwise nothing. *)
Definition copy_rule (primaryAttName : option string) (input : record)
  (attName : string) : option value :=
  if hasOwnProperty input attName then Some (prop input attName)
  else if match primaryAttName with
          | Some p => attName =? p
          | None => false
          end && hasOwnProperty input "id"
       then Some (prop input "id")
       else None.

Definition copied (primaryAttName : option string) (input : record)
  (attName : string) : record :=
  match copy_rule primaryAttName input attName with
  | Some v => [(attName, v)]
  | None => []
  end.

(** One turn of the inner loop of the extraction on a record, for an
    attribute that is not flagged required. *)
Definition copy_step (primaryAttName : option string) (input : record)
  (identifiers : record) (a : string * bool) : record :=
  match copy_rule primaryAttName input (fst a) with
  | Some v => assoc_set (fst a) v identifiers
  | None => identifiers
  end.

(** The identifiers of one input record, name by name. *)
Definition spec_identifiers (toHumanReadableName : string -> string)
  (schema : EntitySchema) (context : ExtractEntityIdentifiersContext)
  (input : record) : record :=
  flat_map (copied (getEntityPrimaryIdPropertyName schema) input)
    (Set_from (resolved_identifier_names toHumanReadableName schema context)).

(** An input that passes the guard of [extractEntityIdentifiers]. *)
Definition object_shaped (input : value) : bool :=
  truthy input && typeof_object input.

(** An input of the declared type: a record or an array of records. *)
Definition well_typed_input (input : value) : Prop :=
  (exists o, input = VObj o) \/ (exists os, input = VArr (map VObj os)).

Definition no_context : ExtractEntityIdentifiersContext :=
  {| forAccessPattern := None |}.

(** *** Hydration: the collected batch and its deduplication *)

(** The identifier mappings collected from all the root records, in
    order, duplicates included. *)
Definition relationIdentifiersBatch_of
  (identifierMappings : list RelationIdentifier)
  (relatedAttributeName : string) (rootEntityRecords : list record)
  : list record :=
  flat_map (identifiersBatch_of identifierMappings relatedAttributeName)
    rootEntityRecords.

(** The identifier mappings of a relation served by a service. *)
Definition relation_mappings (relationMetadata : Relation)
  (relatedEntityService : RelatedService) : list RelationIdentifier :=
  identifierMappings_of relationMetadata
    (getEntityPrimaryIdPropertyName (rs_schema relatedEntityService)).

(** The batch a hydration collects before deduplication. *)
Definition hydration_batch (relationMetadata : Relation)
  (relatedEntityService : RelatedService) (relatedAttributeName : string)
  (rootEntityRecords : list record) : list record :=
  relationIdentifiersBatch_of
    (relation_mappings relationMetadata relatedEntityService)
    relatedAttributeName rootEntityRecords.

(** An identifier mapping that [JSON.parse] reads back from its
    [JSON.stringify] text: its values are JSON values. *)
Definition round_trips (i : record) : Prop :=
  JSON.parse (JSON.stringify_record i) = Some (VObj i).

(** The object a text parses to. *)
Definition parsed_record (s : string) : record :=
  match JSON.parse s with
  | Some (VObj o) => o
  | _ => []
  end.

(** The batch after deduplication on the serialized form. *)
Definition unique_identifiers (batch : list record) : list record :=
  map parsed_record (Set_from (map JSON.stringify_record batch)).

(** [options] after the identifier keys of the first entry of the
    batch are folded into [options.attributes]. *)
Definition options_with_identifier_keys (options : record)
  (unique : list record) : record :=
  match unique with
  | [] => options
  | first :: _ => fold_left fold_identifier_key (Object_keys first) options
  end.

(** *** The assignment of related records *)

(** A fetched record matches an identifier mapping: it owns every
    identifier attribute, with a strictly equal value. *)
Definition matches (identifiers relatedEntityData : record) : Prop :=
  forall t v,
    In (t, v) identifiers ->
    hasOwnProperty relatedEntityData t = true
    /\ strict_equals (prop relatedEntityData t) v = true.

(** What a root record receives for one identifier mapping: the first
    fetched record that matches it; [undefined] when none does, or
    when the fetch resolved to nothing. *)
Definition received (relatedEntities : option (list record))
  (identifiers : record) (v : value) : Prop :=
  match relatedEntities with
  | None => v = VUndef
  | Some fetched =>
      (exists before e after,
          fetched = before ++ e :: after
          /\ matches identifiers e
          /\ (forall e', In e' before -> ~ matches identifiers e')
          /\ v = VObj e)
      \/ ((forall e, In e fetched -> ~ matches identifiers e) /\ v = VUndef)
  end.

(** The value an identifier mapping reads from a raw relation value:
    the value at its source path when the raw value is an object, the
    raw value itself otherwise. *)
Definition identifier_value (raw : value) (m : RelationIdentifier) : value :=
  match raw with
  | VObj _ => getValueByPath raw (source m)
  | _ => raw
  end.

(** The identifiers read from a raw relation value: an object with a
    member under the target of every mapping that reads a truthy
    value, and under no other name; the member is a value read by a
    mapping of that target. *)
Definition identifiers_read (mappings : list RelationIdentifier)
  (raw : value) (identifiers : record) : Prop :=
  NoDup (assoc_keys identifiers)
  /\ (forall t,
        In t (assoc_keys identifiers)
        <-> exists m, In m mappings /\ target m = t
                      /\ truthy (identifier_value raw m) = true)
  /\ (forall t v,
        assoc_get t identifiers = Some v ->
        exists m, In m mappings /\ target m = t
                  /\ v = identifier_value raw m /\ truthy v = true).

(** What hydration leaves in a root record: every other attribute as it
    was and, on the relation attribute, for a sequence the sequence of
    what is received for the identifiers of each of its non-empty
    entries, for a single non-empty value what is received for its
    identifiers, and for an empty value the empty sequence. *)
Definition related_assigned (mappings : list RelationIdentifier)
  (relatedAttributeName : string) (relatedEntities : option (list record))
  (r r' : record) : Prop :=
  (forall k, k <> relatedAttributeName -> assoc_get k r' = assoc_get k r)
  /\ match prop r relatedAttributeName with
     | VArr items =>
         exists related,
           prop r' relatedAttributeName = VArr related
           /\ Forall2
                (fun item v =>
                   exists identifiers,
                     identifiers_read mappings item identifiers
                     /\ received relatedEntities identifiers v)
                (filter truthy items) related
     | raw =>
         if truthy raw then
           exists identifiers,
             identifiers_read mappings raw identifiers
             /\ received relatedEntities identifiers
                  (prop r' relatedAttributeName)
         else prop r' relatedAttributeName = VArr []
     end.

(** *** The Order/Customer scenario *)

Definition customers : list record :=
  [ [("id", VStr "c1"); ("name", VStr "Ann")];
    [("id", VStr "c2"); ("name", VStr "Bob")] ].

(** The [Customer] service answers a batch with the customers that
    some identifier of the batch matches. *)
Definition CustomerService : RelatedService :=
  {| rs_schema := CustomerSchema;
     rs_get := fun identifiers _ =>
       inr (Some (filter (fun c =>
                            existsb (fun i => identifiers_match i c)
                              identifiers)
                    customers)) |}.

Definition registry (entityName : string) : option RelatedService :=
  if entityName =? "Customer" then Some CustomerService else None.

Definition customer_options : record :=
  [("entityName", VStr "Customer"); ("attributes", VArr [VStr "name"])].

(** The root records as the spec lists them: the identifier sits on the
    root, and the relation attribute [customer] is absent. *)
Definition roots_of_spec : list record :=
  [ [("id", VNum 1); ("customerId", VStr "c1")];
    [("id", VNum 2); ("customerId", VStr "c1")];
    [("id", VNum 3); ("customerId", VStr "c2")] ].

(** The same orders with the identifier held by the relation attribute,
    where the hydrator reads it. *)
Definition roots_with_relation : list record :=
  [ [("id", VNum 1); ("customer", VObj [("customerId", VStr "c1")])];
    [("id", VNum 2); ("customer", VObj [("customerId", VStr "c1")])];
    [("id", VNum 3); ("customer", VObj [("customerId", VStr "c2")])] ].

(** Orders whose customer is a plain identifier, a sequence with an
    unknown customer, and missing. *)
Definition roots_of_other_shapes : list record :=
  [ [("id", VNum 4); ("customer", VStr "c2")];
    [("id", VNum 5);
     ("customer", VArr [VObj [("customerId", VStr "c1")];
                        VObj [("customerId", VStr "zz")]])];
    [("id", VNum 6)] ].

(** Orders none of which has a customer. *)
Definition roots_without_customer : list record :=
  [ [("id", VNum 1); ("customer", VNull)];
    [("id", VNum 2)] ].

Definition Ann : value := VObj [("id", VStr "c1"); ("name", VStr "Ann")].
Definition Bob : value := VObj [("id", VStr "c2"); ("name", VStr "Bob")].

(** *** Queries of the worked examples *)

(** [{search: "red", searchAttributes: "title,description"}] *)
Definition red_query : EntityQuery :=
  {| q_attributes := None;
     q_search := Some (AsString "red");
     q_searchAttributes := Some (AsString "title,description");
     q_filters := None;
     q_pagination := VUndef |}.

(** [{search: "red", searchAttributes: []}] *)
Definition red_query_no_attributes : EntityQuery :=
  {| q_attributes := None;
     q_search := Some (AsString "red");
     q_searchAttributes := Some (AsList []);
     q_filters := None;
     q_pagination := VUndef |}.

(** [{}] *)
Definition empty_query : EntityQuery :=
  {| q_attributes := None;
     q_search := None;
     q_searchAttributes := None;
     q_filters := None;
     q_pagination := VUndef |}.

(** The search attributes the spec asks for, from what the caller
    supplied: a comma-separated text is split into its names, and
    nothing, or an empty set, gives the searchable attributes of the
    schema. *)
Definition spec_search_attributes (schema : EntitySchema)
  (supplied : option StringOrList) : list string :=
  match supplied with
  | Some (AsString s) =>
      match filter nonempty (split_comma s) with
      | [] => getSearchableAttributeNames schema
      | l => l
      end
  | Some (AsList []) => getSearchableAttributeNames schema
  | Some (AsList l) => l
  | None => getSearchableAttributeNames schema
  end.

(** A selection parser for the examples: every path a leaf. *)
Definition leaves (paths : list string) : record :=
  fold_left (fun t p => assoc_set p (VBool true) t) paths [].

(** A persistence layer without records. *)
Definition no_records (q : EntityQuery) : exn + EntityList :=
  inr {| el_data := []; el_rest := [] |}.

(** A persistence layer holding the customers. *)
Definition customers_store (q : EntityQuery) : exn + EntityList :=
  inr {| el_data := [ [("id", VStr "c1"); ("name", VStr "Ann");
                       ("password", VStr "x")];
                      [("id", VStr "c2"); ("name", VStr "Bob")] ];
         el_rest := [("cursor", VNull)] |}.

(** A persistence layer holding the three orders. *)
Definition orders_store (q : EntityQuery) : exn + EntityList :=
  inr {| el_data := roots_with_relation; el_rest := [] |}.

(** A relation inference for the examples: a selected [customer] is
    given the options of the relation. *)
Definition infer_customer (schema : EntitySchema) (selections : record)
  : record :=
  if assoc_has "customer" selections
  then assoc_set "customer" (VObj customer_options) selections
  else selections.

(** *** JSON values *)

(** The text [JSON.stringify] writes for a value inside an array
    ([null] for [undefined]). *)
Definition json_text (v : value) : string :=
  match JSON.stringify v with
  | Some t => t
  | None => "null"
  end.

(** The text of one member of an object. *)
Definition member_text (kv : string * value) : string :=
  (JSON.quote (fst kv) ++ ":" ++ json_text (snd kv))%string.

Fixpoint distinct (l : list string) : bool :=
  match l with
  | [] => true
  | x :: l' => negb (mem_string x l') && distinct l'
  end.

(** A JSON value: no [undefined] inside, and the keys of every object
    pairwise distinct. *)
Fixpoint is_json (v : value) : bool :=
  match v with
  | VUndef => false
  | VNull | VBool _ | VNum _ | VStr _ => true
  | VArr items => forallb is_json items
  | VObj props =>
      distinct (map fst props)
      && forallb (fun kv => is_json (snd kv)) props
  end.

(** The number of nodes of a value, and of the entries of a sequence. *)
Fixpoint value_size (v : value) : nat :=
  match v with
  | VArr items => S (list_sum (map (fun x => S (value_size x)) items))
  | VObj props =>
      S (list_sum (map (fun kv => S (value_size (snd kv))) props))
  | _ => 1
  end.

Definition elements_size (l : list value) : nat :=
  list_sum (map (fun x => S (value_size x)) l).

Definition members_size (o : list (string * value)) : nat :=
  list_sum (map (fun kv => S (value_size (snd kv))) o).

(** A text after which a number literal ends. *)
Definition delimited (rest : string) : Prop :=
  match rest with
  | EmptyString => True
  | String c _ => JSON.is_digit c = false
  end.

(** A text that starts a number literal. *)
Definition starts_number (s : string) : bool :=
  match s with
  | EmptyString => false
  | String c _ => JSON.is_digit c || Ascii.eqb c "-"
  end.

(** A relation value the hydrator can serialize faithfully: a JSON
    value, or nothing. *)
Definition json_or_absent (v : value) : Prop :=
  is_json v = true \/ v = VUndef.

(* ================================================================== *)
(** ** The rest of the entity service: [getFilterableAttributeNames]
       and [get] *)
(* ================================================================== *)


(** The attributes offered for filtering: not hidden, of type string or
    number, and not flagged [isFilterable: false]. *)
Definition getFilterableAttributeNames (schema : EntitySchema)
  : list string :=
  map fst
    (filter (fun e =>
               let att := snd e in
               negb (flag_truthy (att_hidden att))
               && (is_type (att_type att) "string"
                   || is_type (att_type att) "number")
               && flag_default_true (att_isFilterable att))
       (attributes schema)).

(** [x == null] *)
Definition nullish (v : value) : bool :=
  match v with VUndef | VNull => true | _ => false end.

(** [identifier.source?.split?.('.')?.[0]] for one entry of
    [options.identifiers]; [None] is [undefined].  Reading [source] off
    [null] or [undefined] throws; a source that is a string gives its
    first dot-separated segment; a source that is an object with a
    member [split] (which is not a function) throws when it is called;
    every other source has no [split]. *)
Definition top_key_of (identifier : value) : M (option string) :=
  if nullish identifier then
    throw (TypeError "Cannot read properties of undefined (reading 'source')")
  else
    match member identifier "source" with
    | VStr s => ret (Some (nth 0 (split_dot s) ""))
    | VObj o =>
        if nullish (prop o "split") then ret None
        else throw (TypeError "identifier.source?.split is not a function")
    | _ => ret None
    end.

(** [.filter(key => !!key)] *)
Definition defined_keys (keys : list (option string)) : list string :=
  flat_map (fun k => match k with
                     | Some s => if nonempty s then [s] else []
                     | None => []
                     end) keys.

(** [Array.isArray(x) ? x : [x]] *)
Definition as_array (x : value) : list value :=
  match x with
  | VArr l => l
  | _ => [x]
  end.

(** The top-level keys of the sources of [options.identifiers]: one
    mapping or an array of mappings. *)
Definition identifier_top_keys (identifiers : value) : M (list string) :=
  keys <- mapM top_key_of (as_array identifiers) ;;
  ret (defined_keys keys).

(** The [reduce] of [get] over the entries of the selection: every
    attribute name, followed by the top-level keys its relation
    identifiers are read from. *)
Definition requiredSelectAttributes (formattedSelections : record)
  : M (list string) :=
  foldM
    (fun acc entry =>
       let attName := fst entry in
       let options := snd entry in
       let acc := acc ++ [attName] in
       if isObject options && truthy (member options "identifiers") then
         topKeys <- identifier_top_keys (member options "identifiers") ;;
         ret (acc ++ topKeys)
       else ret acc)
    formattedSelections [].

(** What [getEntity] resolves to, when it resolves to something: the
    record found, if any.  The embedding follows [get] on the
    identifiers of one entity, where [data] is one record. *)
Record EntityResponse : Type := {
  er_data : option record
}.

Section Get.

Variable toHumanReadableName : string -> string.
Variable getEntityServiceByEntityName : string -> option RelatedService.
Variable parseEntityAttributePaths : list string -> record.
Variable inferRelationshipsForEntitySelections :
  EntitySchema -> record -> record.

(** [getEntity] of [./crud-service], for this entity: the identifiers
    and the attributes asked for. *)
Variable getEntity : value -> list string -> exn + option EntityResponse.

(** [formattedSelections] of [get], once it is a mapping. *)
Definition get_selection (schema : EntitySchema)
  (selections : option EntitySelections) : record :=
  let formattedSelections :=
    match selections with
    | Some s => s
    | None =>
        PathList (getDefaultSerializationAttributeNames toHumanReadableName
                    schema)
    end in
  match formattedSelections with
  | PathList paths =>
      inferRelationshipsForEntitySelections schema
        (parseEntityAttributePaths paths)
  | SelectionTree t => t
  end.

(** [get]; the result [None] is [undefined].  The record is returned as
    fetched and hydrated: it is not cut to the selection. *)
Definition svc_get (schema : EntitySchema) (identifiers : value)
  (selections : option EntitySelections) : M (option record) :=
  let formattedSelections := get_selection schema selections in
  required <- requiredSelectAttributes formattedSelections ;;
  let uniqueSelectionAttributes := Set_from required in
  entity <- lift (getEntity identifiers uniqueSelectionAttributes) ;;
  match entity with
  | Some {| er_data := Some entityData |} =>
      let relationalAttributes := relationalAttributes formattedSelections in
      if (0 <? List.length relationalAttributes)%nat then
        h <- hydrateRecords getEntityServiceByEntityName schema
               relationalAttributes [entityData] ;;
        ret (Some (nth 0 (fst h) entityData))
      else ret (Some entityData)
  | _ => ret None
  end.

End Get.

(** [p] holds of every code unit of [s]. *)
Fixpoint string_forallb (p : ascii -> bool) (s : string) : bool :=
  match s with
  | EmptyString => true
  | String c s' => p c && string_forallb p s'
  end.

(** *** Further worked examples *)

(** A [Customer] service whose [get] rejects. *)
Definition UnavailableCustomerService : RelatedService :=
  {| rs_schema := CustomerSchema;
     rs_get := fun _ _ => inl (Error "Customer table is unavailable") |}.

Definition unavailable_registry (entityName : string)
  : option RelatedService :=
  if entityName =? "Customer" then Some UnavailableCustomerService else None.

(** The options of a relation to an entity without service. *)
Definition ghost_options : record :=
  [("entityName", VStr "Ghost"); ("attributes", VArr [VStr "name"])].

(** A schema without indexes. *)
Definition NoIndexSchema : EntitySchema :=
  {| model_entity := "Note";
     attributes := [("id", identifier_attribute);
                    ("text", string_attribute)];
     indexes := [] |}.

(** [{search: "&, +"}] *)
Definition blank_query : EntityQuery :=
  {| q_attributes := None;
     q_search := Some (AsString "&, +");
     q_searchAttributes := None;
     q_filters := None;
     q_pagination := VUndef |}.

(** The selection [{id: true, customer: {entityName: "Customer",
    attributes: ["name"], identifiers: {source: "customer.customerId",
    target: "id"}}}]. *)
Definition order_selection : record :=
  [("id", VBool true);
   ("customer",
    VObj [("entityName", VStr "Customer");
          ("attributes", VArr [VStr "name"]);
          ("identifiers",
           VObj [("source", VStr "customer.customerId");
                 ("target", VStr "id")])])].

(** A persistence layer holding one order, and one holding none. *)
Definition one_order (identifiers : value) (attributes : list string)
  : exn + option EntityResponse :=
  inr (Some {| er_data :=
                 Some [("id", VNum 1);
                       ("customer", VObj [("customerId", VStr "c1")]);
                       ("internalNote", VStr "n")] |}).

Definition no_order (identifiers : value) (attributes : list string)
  : exn + option EntityResponse :=
  inr None.

(** [key] is selected by [options.attributes]: listed by the array, or
    an own member of the mapping. *)
Definition selects (attributes : value) (key : string) : bool :=
  match attributes with
  | VArr items => includes items key
  | VObj selection => hasOwnProperty selection key
  | _ => false
  end.

(** The validations of an IO schema attribute, of its nested
    properties and of the properties of its items, at every depth, are
    [[]] or [["required"]]. *)
Fixpoint required_or_nothing (a : IOSchemaAttribute) : bool :=
  let all :=
    fix all (l : list IOSchemaAttribute) : bool :=
      match l with
      | [] => true
      | x :: rest => required_or_nothing x && all rest
      end in
  match io_validations a with
  | [] => true
  | [v] => v =? "required"
  | _ => false
  end
  && match io_properties a with Some l => all l | None => true end
  && match io_items a with Some (_, l) => all l | None => true end.

(* ================================================================== *)
(** ** String utilities: [toHumanReadableName], [camelCase],
       [pascalCase], [toSlug] *)
(* ================================================================== *)

(** The utilities are followed on ASCII text.  There [toUpperCase] and
    [toLowerCase] exchange the twenty-six letters and nothing else,
    [normalize('NFD')] changes nothing and no combining mark occurs.
    The character classes below are the ones of JavaScript regular
    expressions, on code units below 256. *)
Definition ascii_text (s : string) : bool :=
  string_forallb (fun c => (N_of_ascii c <? 128)%N) s.

(** [[A-Z]] *)
Definition is_upper (c : ascii) : bool :=
  let n := N_of_ascii c in ((65 <=? n) && (n <=? 90))%N.

(** [[a-z]] *)
Definition is_lower (c : ascii) : bool :=
  let n := N_of_ascii c in ((97 <=? n) && (n <=? 122))%N.

(** [[0-9]] *)
Definition is_decimal (c : ascii) : bool :=
  let n := N_of_ascii c in ((48 <=? n) && (n <=? 57))%N.

(** [\w]: [[A-Za-z0-9_]] *)
Definition is_word (c : ascii) : bool :=
  is_upper c || is_lower c || is_decimal c || Ascii.eqb c "_".

(** [\s]: tab, line feed, vertical tab, form feed, carriage return,
    space and no-break space *)
Definition is_whitespace (c : ascii) : bool :=
  let n := N_of_ascii c in
  ((n =? 32) || ((9 <=? n) && (n <=? 13)) || (n =? 160))%N.

Definition upper_char (c : ascii) : ascii :=
  if is_lower c then ascii_of_N (N_of_ascii c - 32) else c.

Definition lower_char (c : ascii) : ascii :=
  if is_upper c then ascii_of_N (N_of_ascii c + 32) else c.

Fixpoint string_map (f : ascii -> ascii) (s : string) : string :=
  match s with
  | EmptyString => ""
  | String c s' => String (f c) (string_map f s')
  end.

Fixpoint string_filter (p : ascii -> bool) (s : string) : string :=
  match s with
  | EmptyString => ""
  | String c s' => if p c then String c (string_filter p s')
                   else string_filter p s'
  end.

(** [s.toUpperCase()], [s.toLowerCase()] *)
Definition toUpperCase (s : string) : string := string_map upper_char s.
Definition toLowerCase (s : string) : string := string_map lower_char s.

(** [s.charAt(0)]: the empty text when [s] is empty *)
Definition charAt0 (s : string) : string :=
  match s with
  | EmptyString => ""
  | String c _ => String c ""
  end.

(** [s.slice(1)] *)
Definition slice1 (s : string) : string :=
  match s with
  | EmptyString => ""
  | String _ s' => s'
  end.

(** [s.replace(/([A-Z])/g, " $1")]: a space before every capital *)
Fixpoint space_capitals (s : string) : string :=
  match s with
  | EmptyString => ""
  | String c s' =>
      if is_upper c then String " " (String c (space_capitals s'))
      else String c (space_capitals s')
  end.

Definition toHumanReadableName (input : string) : string :=
  (toUpperCase (charAt0 input) ++ space_capitals (slice1 input))%string.

(** [camelCase]: [input.replace(/(?:^\w|[A-Z]|\b\w|\s+)/g, f)], read
    from left to right.  [first] tells that the code unit is at index
    0, [prev] is the code unit before it in [input].

    A maximal run of white space is one match of [\s+]; [+match] is
    then 0 and the run is replaced by the empty text, so each of its
    code units is dropped.  Every other match is one code unit [c]: a
    word character at index 0 ([^\w]), a capital ([[A-Z]]), or a word
    character that no word character precedes ([\b\w]).  [+c === 0]
    holds of the digit 0 only, which is dropped; otherwise [c] is
    lower-cased at index 0 and upper-cased elsewhere.  A code unit
    that no alternative matches is copied. *)
Fixpoint camelCase_from (first : bool) (prev : option ascii) (s : string)
  : string :=
  match s with
  | EmptyString => ""
  | String c s' =>
      let rest := camelCase_from false (Some c) s' in
      let at_boundary :=
        match prev with
        | Some p => negb (is_word p)
        | None => true
        end in
      if is_whitespace c then rest
      else if (first && is_word c) || is_upper c || (at_boundary && is_word c)
      then
        if Ascii.eqb c "0" then rest
        else String (if first then lower_char c else upper_char c) rest
      else String c rest
  end.

Definition camelCase (input : string) : string :=
  camelCase_from true None input.

Definition pascalCase (input : string) : string :=
  let input := camelCase input in
  (toUpperCase (charAt0 input) ++ slice1 input)%string.

(** [s.replace(/\s+/g, '-')]: one dash for every maximal run of white
    space; [in_run] tells that the code unit before is white space. *)
Fixpoint spaces_to_dashes (in_run : bool) (s : string) : string :=
  match s with
  | EmptyString => ""
  | String c s' =>
      if is_whitespace c then
        if in_run then spaces_to_dashes true s'
        else String "-" (spaces_to_dashes true s')
      else String c (spaces_to_dashes false s')
  end.

(** [s.replace(/&/g, '-and-')] *)
Fixpoint ampersands_to_and (s : string) : string :=
  match s with
  | EmptyString => ""
  | String c s' =>
      if Ascii.eqb c "&" then ("-and-" ++ ampersands_to_and s')%string
      else String c (ampersands_to_and s')
  end.

(** [[\w\-]] *)
Definition is_slug_input (c : ascii) : bool := is_word c || Ascii.eqb c "-".

(** [s.replace(/[^\w\-]+/g, '')] *)
Definition remove_non_words (s : string) : string :=
  string_filter is_slug_input s.

(** [s.replace(/\-\-+/g, '-')]: one dash for every run of two dashes or
    more (and a single dash stays); [in_run] tells that the code unit
    before is a dash. *)
Fixpoint collapse_dashes (in_run : bool) (s : string) : string :=
  match s with
  | EmptyString => ""
  | String c s' =>
      if Ascii.eqb c "-" then
        if in_run then collapse_dashes true s'
        else String "-" (collapse_dashes true s')
      else String c (collapse_dashes false s')
  end.

(** [s.replace(/^-+/, '')] *)
Fixpoint trim_start_dashes (s : string) : string :=
  match s with
  | EmptyString => ""
  | String c s' => if Ascii.eqb c "-" then trim_start_dashes s' else s
  end.

(** [s.replace(/-+$/, '')] *)
Fixpoint trim_end_dashes (s : string) : string :=
  match s with
  | EmptyString => ""
  | String c s' =>
      let t := trim_end_dashes s' in
      if Ascii.eqb c "-" && (t =? "") then "" else String c t
  end.

(** [toSlug]; on ASCII text the removal of diacritics changes
    nothing. *)
Definition toSlug (str : string) : string :=
  if str =? "" then ""
  else
    trim_end_dashes
      (trim_start_dashes
         (collapse_dashes false
            (remove_non_words
               (ampersands_to_and
                  (spaces_to_dashes false
                     (toLowerCase str)))))).

(** *** The shape of a slug *)

(** [[a-z0-9_-]] *)
Definition is_slug_char (c : ascii) : bool :=
  is_lower c || is_decimal c || Ascii.eqb c "_" || Ascii.eqb c "-".

(** No two dashes in a row. *)
Fixpoint no_double_dash (s : string) : bool :=
  match s with
  | EmptyString => true
  | String c s' =>
      match s' with
      | String d _ =>
          negb (Ascii.eqb c "-" && Ascii.eqb d "-") && no_double_dash s'
      | EmptyString => true
      end
  end.

Definition starts_with_dash (s : string) : bool :=
  match s with
  | String c _ => Ascii.eqb c "-"
  | EmptyString => false
  end.

Fixpoint ends_with_dash (s : string) : bool :=
  match s with
  | EmptyString => false
  | String c EmptyString => Ascii.eqb c "-"
  | String _ s' => ends_with_dash s'
  end.

(** A slug: lower-case letters, digits, underscores and single dashes,
    with no dash at either end. *)
Definition is_slug (s : string) : bool :=
  string_forallb is_slug_char s
  && no_double_dash s
  && negb (starts_with_dash s)
  && negb (ends_with_dash s).

(** An identifier: word characters, the first of them a letter. *)
Definition is_identifier (s : string) : bool :=
  match s with
  | EmptyString => false
  | String c _ => (is_upper c || is_lower c) && string_forallb is_word s
  end.

(** The number of capitals. *)
Fixpoint count_capitals (s : string) : nat :=
  match s with
  | EmptyString => 0
  | String c s' => (if is_upper c then 1 else 0) + count_capitals s'
  end.

(** An attribute without any metadata but its type. *)
Definition plain_attribute (type : string) : EntityAttribute :=
  mkAttribute (Some type) None None None None None None None None None
    None None None None None [] None.

(** An attribute that declares a display name. *)
Definition named_attribute (type name : string) : EntityAttribute :=
  mkAttribute (Some type) (Some name) None None None None None None None None
    None None None None None [] None.

(** Case analysis on the eight bits of a code unit. *)
Ltac ascii_cases c := destruct c as [[|] [|] [|] [|] [|] [|] [|] [|]].

(* ================================================================== *)
(** ** The [Validation] decorator *)
(* ================================================================== *)

(** [Record<string, Route>]: the routes of a controller, each a plain
    object, under pairwise distinct keys. *)
Definition Routes := list (string * record).

(** [route.functionName === methodToDecorate] *)
Definition route_named (methodToDecorate : string) (route : record) : bool :=
  strict_equals (prop route "functionName") (VStr methodToDecorate).

(** [Validation(validations)(target, methodToDecorate)], as a function
    of [Reflect.get(target, "routes")] ([None] when the target has no
    routes): the routes after the assignment, or the error thrown.
    The route found is an object of [routes]; the assignment shows
    under its key. *)
Definition Validation (validations : value) (routes : option Routes)
  (methodToDecorate : string) : exn + Routes :=
  let routes := match routes with Some r => r | None => [] end in
  match find (fun e => route_named methodToDecorate (snd e)) routes with
  | None =>
      inl (Error "Route not found, try to add the decorator above the @Get, @Post, @Put, @Delete or @Patch decorator.")
  | Some (key, route) =>
      inr (assoc_set key (assoc_set "validations" validations route) routes)
  end.

(* ================================================================== *)
(** ** [QueueConstruct.getEnvironmentVariables] *)
(* ================================================================== *)

(** [ILambdaEnvConfig] *)
Record ILambdaEnvConfig : Type := {
  env_name : string;
  env_prefix : option string
}.

Section QueueConstruct.

(** [this.fw24.get(name, prefix)] *)
Variable fw24_get : string -> string -> value.

(** [envConfig.prefix || ''] *)
Definition prefix_or_empty (envConfig : ILambdaEnvConfig) : string :=
  match env_prefix envConfig with
  | Some p => p
  | None => ""
  end.

(** The argument is [queueConstructConfig.env], [None] when it is
    missing. *)
Definition getEnvironmentVariables (env : option (list ILambdaEnvConfig))
  : record :=
  fold_left
    (fun (acc : record) envConfig =>
       let value := fw24_get (env_name envConfig) (prefix_or_empty envConfig) in
       if truthy value then assoc_set (env_name envConfig) value acc
       else acc)
    (match env with Some l => l | None => [] end) [].

End QueueConstruct.

(* ================================================================== *)
(** ** The mail processor *)
(* ================================================================== *)

(** An SQS record, as far as the handler reads it. *)
Record SQSRecord : Type := {
  messageId : string;
  body : string
}.

(** [mailParams.Content]: a template with its data, or a simple body
    and subject. *)
Inductive MailContent : Type :=
| ContentTemplate (TemplateName : value) (TemplateData : string)
| ContentSimple (Body : value) (Subject : value).

(** [SendEmailCommandInput], as far as the handler fills it. *)
Record SendEmailCommandInput : Type := {
  FromEmailAddress : value;
  ToAddresses : list value;
  Content : MailContent;
  ReplyToAddresses : option (list value)
}.

(** What is sent to the SES client. *)
Inductive SESCommand : Type :=
| TestRenderEmailTemplateCommand (TemplateName : value)
    (TemplateData : string)
| SendEmailCommand (mailParams : SendEmailCommandInput).

(** What the processing of one record leaves behind: the commands sent,
    in order, and whether an exception reached the [catch] of the
    loop. *)
Record Processed : Type := {
  sent : list SESCommand;
  failed : bool
}.

(** [SQSBatchResponse]: the [itemIdentifier]s of [batchItemFailures],
    with the commands sent on the way. *)
Record HandlerRun : Type := {
  commands : list SESCommand;
  batchItemFailures : list string
}.

Section MailProcessor.

(** [JSON.parse], [JSON.stringify] and the object spread [{...a,
    ...b}] of the platform, and [sesClient.send]. *)
Variable JSON_parse : string -> exn + value.
Variable JSON_stringify : value -> string.
Variable object_spread : value -> value -> value.
Variable ses_send : SESCommand -> exn + value.

Definition rejected {A : Type} (r : exn + A) : bool :=
  match r with inl _ => true | inr _ => false end.

(** [mailParams.Content], or [None] when the message has neither a
    template nor both a body and a subject. *)
Definition mail_content (emailMessage templateData : value)
  : option MailContent :=
  if truthy (member emailMessage "TemplateName") then
    Some (ContentTemplate (member emailMessage "TemplateName")
            (JSON_stringify (object_spread emailMessage templateData)))
  else if truthy (member emailMessage "Message")
          && truthy (member emailMessage "Subject") then
    Some (ContentSimple (member emailMessage "Message")
            (member emailMessage "Subject"))
  else None.

(** The body of the loop for one record.  Destructuring [null] and
    reading a member of a missing [emailMessage] throw; every exception
    is caught by the [catch] of the loop. *)
Definition process_record (record : SQSRecord) : Processed :=
  match JSON_parse (body record) with
  | inl _ => {| sent := []; failed := true |}
  | inr parsed =>
      if nullish parsed then {| sent := []; failed := true |}
      else
        let emailMessage := member parsed "emailMessage" in
        let templateData := member parsed "templateData" in
        if truthy templateData
           && truthy (member templateData "testRenderEmailTemplate")
        then
          if nullish emailMessage then {| sent := []; failed := true |}
          else
            let command :=
              TestRenderEmailTemplateCommand
                (member emailMessage "TemplateName")
                (JSON_stringify (object_spread emailMessage templateData)) in
            {| sent := [command]; failed := rejected (ses_send command) |}
        else if nullish emailMessage then {| sent := []; failed := true |}
        else
          match mail_content emailMessage templateData with
          | None => {| sent := []; failed := true |}
          | Some content =>
              let mailParams :=
                {| FromEmailAddress := member emailMessage "FromEmailAddress";
                   ToAddresses := [member emailMessage "ToEmailAddress"];
                   Content := content;
                   ReplyToAddresses :=
                     if truthy (member emailMessage "ReplyToEmailAddress")
                     then Some [member emailMessage "ReplyToEmailAddress"]
                     else None |} in
              {| sent := [SendEmailCommand mailParams];
                 failed := rejected (ses_send (SendEmailCommand mailParams)) |}
          end
  end.

(** [handler]: the records are processed in order. *)
Definition handler (Records : list SQSRecord) : HandlerRun :=
  fold_left
    (fun run record =>
       let p := process_record record in
       {| commands := commands run ++ sent p;
          batchItemFailures :=
            if failed p
            then batchItemFailures run ++ [messageId record]
            else batchItemFailures run |})
    Records {| commands := []; batchItemFailures := [] |}.

End MailProcessor.

(** *** Worked examples *)

Definition login_routes : Routes :=
  [("GET /me", [("functionName", VStr "me")]);
   ("POST /login", [("functionName", VStr "login")])].

(** A parser that knows two bodies. *)
Definition example_parse (text : string) : exn + value :=
  if text =? "welcome" then
    inr (VObj [("emailMessage",
                VObj [("FromEmailAddress", VStr "a@example.org");
                      ("ToEmailAddress", VStr "b@example.org");
                      ("TemplateName", VStr "welcome");
                      ("Subject", VStr "Hello");
                      ("Message", VStr "Hi")])])
  else if text =? "empty" then
    inr (VObj [("emailMessage",
                VObj [("FromEmailAddress", VStr "a@example.org");
                      ("ToEmailAddress", VStr "b@example.org")])])
  else inl (SyntaxError "Unexpected token").

Definition example_send (command : SESCommand) : exn + value := inr VUndef.


(** The mail that the record [m1] asks for. *)
Definition welcome_mail : SESCommand :=
  SendEmailCommand
    {| FromEmailAddress := VStr "a@example.org";
       ToAddresses := [VStr "b@example.org"];
       Content := ContentTemplate (VStr "welcome") "data";
       ReplyToAddresses := None |}.

(* ================================================================== *)
(** ** The update-form template ([MakeUpdateEntityConfig]) *)
(* ================================================================== *)

(** [items] of a list attribute: its type and its properties. *)
Definition ItemsOf (A : Type) : Type :=
  (option string * option (list A))%type.

(** A [TIOSchemaAttribute] as the template reads it: [fp_isEditable]
    and [fp_readOnly] are the truthiness of [isEditable] and
    [readOnly]; [fp_isVisible] is [None] when the object has no own
    property [isVisible]; [fp_properties] and [fp_items] are [None]
    when missing. *)
#[local] Unset Elimination Schemes.
Inductive FormProperty : Type := mkFormProperty {
  fp_id : string;
  fp_name : string;
  fp_type : option string;
  fp_fieldType : option string;
  fp_isEditable : bool;
  fp_readOnly : bool;
  fp_isVisible : option bool;
  fp_properties : option (list FormProperty);
  fp_items : option (ItemsOf FormProperty)
}.

(** [formatted]: [ff_source] stands for the members spread from
    [thisProp]; [ff_properties] is [formatted.properties] when the
    template sets it, and [ff_items_properties] is
    [formatted.items.properties] when the template sets it. *)
Inductive FormField : Type := mkFormField {
  ff_source : FormProperty;
  ff_label : string;
  ff_column : string;
  ff_fieldType : string;
  ff_hidden : bool;
  ff_properties : option (list FormField);
  ff_items_properties : option (list FormField)
}.
#[local] Set Elimination Schemes.

(** [prop && prop.isEditable && !prop.readOnly], on an object *)
Definition form_editable (prop : FormProperty) : bool :=
  fp_isEditable prop && negb (fp_readOnly prop).

(** [formatProp]; the inner loop is [formatProps], which gives the
    empty list on the empty list that stands for missing properties
    ([properties ?? []]). *)
Fixpoint formatProp (thisProp : FormProperty) : FormField :=
  let formatProps :=
    fix formatProps (props : list FormProperty) : list FormField :=
      match props with
      | [] => []
      | prop :: rest =>
          if form_editable prop then formatProp prop :: formatProps rest
          else formatProps rest
      end in
  {| ff_source := thisProp;
     ff_label := fp_name thisProp;
     ff_column := fp_id thisProp;
     ff_fieldType :=
       match fp_fieldType thisProp with
       | Some t => if nonempty t then t else "text"
       | None => "text"
       end;
     ff_hidden :=
       match fp_isVisible thisProp with
       | Some visible => negb visible
       | None => false
       end;
     ff_properties :=
       if is_type (fp_type thisProp) "map"
       then Some match fp_properties thisProp with
                 | Some properties => formatProps properties
                 | None => []
                 end
       else None;
     ff_items_properties :=
       if is_type (fp_type thisProp) "map" then None
       else if is_type (fp_type thisProp) "list" then
         match fp_items thisProp with
         | Some (itemsType, itemsProperties) =>
             if is_type itemsType "map"
             then Some match itemsProperties with
                       | Some properties => formatProps properties
                       | None => []
                       end
             else None
         | None => None
         end
       else None |}.

(** [props.filter(...).map(formatProp)] *)
Definition formatProps (props : list FormProperty) : list FormField :=
  map formatProp (filter form_editable props).

Record PageAction : Type := {
  action_label : string;
  action_url : string
}.

Record ApiConfig : Type := {
  apiMethod : string;
  responseKey : string;
  apiUrl : string
}.

Inductive FormButton : Type :=
| ButtonNamed (name : string)
| ButtonLink (text : string) (url : string).

Record FormPageConfig : Type := {
  apiConfig : ApiConfig;
  detailApiConfig : ApiConfig;
  formButtons : list FormButton;
  propertiesConfig : list FormField;
  submitSuccessRedirect : string
}.

Record UpdateEntityConfig : Type := {
  pageTitle : string;
  pageType : string;
  cardStyle_width : string;
  breadcrums : list value;
  pageHeaderActions : list PageAction;
  formPageConfig : FormPageConfig
}.

(** The default export of the template; [properties] is the map of IO
    schema attributes, in insertion order. *)
Definition MakeUpdateEntityConfig (entityName entityNamePlural : string)
  (properties : list (string * FormProperty)) : UpdateEntityConfig :=
  let entityNameLower := toLowerCase entityName in
  let entityNameCamel := camelCase entityName in
  let entityNamePascalCase := pascalCase entityName in
  let formattedProps := formatProps (map snd properties) in
  {| pageTitle := "Update " ++ entityNamePascalCase;
     pageType := "form";
     cardStyle_width := "50%";
     breadcrums := [];
     pageHeaderActions :=
       [{| action_label := "Back";
           action_url := "/list-" ++ entityNameLower |}];
     formPageConfig :=
       {| apiConfig := {| apiMethod := "PATCH";
                          responseKey := entityNameCamel;
                          apiUrl := "/" ++ entityNameLower |};
          detailApiConfig := {| apiMethod := "GET";
                                responseKey := entityNameCamel;
                                apiUrl := "/" ++ entityNameLower |};
          formButtons := [ButtonNamed "submit"; ButtonNamed "reset";
                          ButtonLink "Cancel" ("/list-" ++ entityNameLower)];
          propertiesConfig := [] ++ formattedProps;
          submitSuccessRedirect := "/list-" ++ entityNameLower |} |}.

(** Every field of a form, at every depth, comes from a property that
    is editable and not read-only. *)
Fixpoint editable_field (f : FormField) : bool :=
  let all :=
    fix all (fields : list FormField) : bool :=
      match fields with
      | [] => true
      | x :: rest => editable_field x && all rest
      end in
  form_editable (ff_source f)
  && match ff_properties f with Some fields => all fields | None => true end
  && match ff_items_properties f with
     | Some fields => all fields
     | None => true
     end.

(* ================================================================== *)
(** * Properties *)
(* ================================================================== *)

(** ** Insertion-ordered maps and sets *)

Lemma mem_string_In (x : string) (l : list string) :
  mem_string x l = true <-> In x l.
Proof.
  unfold mem_string. rewrite existsb_exists. split.
  - intros [y [Hin Heq]]. apply String.eqb_eq in Heq. now subst.
  - intros Hin. exists x. split; [assumption | apply String.eqb_refl].
Qed.

Lemma mem_string_false (x : string) (l : list string) :
  mem_string x l = false <-> ~ In x l.
Proof.
  rewrite <- mem_string_In. destruct (mem_string x l); split; congruence.
Qed.

Section AssocFacts.
Variable V : Type.
Implicit Types (m : list (string * V)) (k : string) (v : V).

Lemma assoc_has_get k m :
  assoc_has k m = match assoc_get k m with Some _ => true | None => false end.
Proof.
  induction m as [|[k' v'] m IH]; simpl; [reflexivity|].
  destruct (k' =? k); [reflexivity | exact IH].
Qed.

Lemma assoc_has_mem k m : assoc_has k m = mem_string k (assoc_keys m).
Proof.
  induction m as [|[k' v'] m IH]; simpl; [reflexivity|].
  rewrite (String.eqb_sym k k'). destruct (k' =? k); simpl; auto.
Qed.

Lemma assoc_has_In k m : assoc_has k m = true <-> In k (assoc_keys m).
Proof. rewrite assoc_has_mem. apply mem_string_In. Qed.

Lemma assoc_get_set_same k v m : assoc_get k (assoc_set k v m) = Some v.
Proof.
  induction m as [|[k' v'] m IH]; simpl.
  - now rewrite String.eqb_refl.
  - destruct (k' =? k) eqn:E; simpl; rewrite E; auto.
Qed.

Lemma assoc_get_set_other k k' v m :
  k <> k' -> assoc_get k' (assoc_set k v m) = assoc_get k' m.
Proof.
  intros Hne. induction m as [|[k0 v0] m IH]; simpl.
  - apply String.eqb_neq in Hne. now rewrite Hne.
  - destruct (k0 =? k) eqn:E; simpl.
    + apply String.eqb_eq in E. subst k0.
      apply String.eqb_neq in Hne. now rewrite Hne.
    + now rewrite IH.
Qed.

Lemma assoc_has_set k k' v m :
  assoc_has k' (assoc_set k v m) = (k =? k') || assoc_has k' m.
Proof.
  rewrite !assoc_has_get. destruct (k =? k') eqn:E.
  - apply String.eqb_eq in E. subst. now rewrite assoc_get_set_same.
  - apply String.eqb_neq in E. now rewrite assoc_get_set_other.
Qed.

Lemma assoc_keys_set k v m :
  assoc_keys (assoc_set k v m) = Set_add (assoc_keys m) k.
Proof.
  unfold Set_add. rewrite <- assoc_has_mem.
  induction m as [|[k' v'] m IH]; simpl; [reflexivity|].
  destruct (k' =? k) eqn:E; simpl; [reflexivity|].
  rewrite IH. now destruct (assoc_has k m).
Qed.

Lemma assoc_set_absent k v m :
  assoc_has k m = false -> assoc_set k v m = m ++ [(k, v)].
Proof.
  induction m as [|[k' v'] m IH]; simpl; [reflexivity|].
  destruct (k' =? k); [discriminate|]. intros H. now rewrite IH.
Qed.

Lemma assoc_set_present k v m :
  assoc_get k m = Some v -> assoc_set k v m = m.
Proof.
  induction m as [|[k' v'] m IH]; simpl; [discriminate|].
  destruct (k' =? k) eqn:E.
  - intros [= ->]. reflexivity.
  - intros H. now rewrite IH.
Qed.

Lemma assoc_get_In k v m :
  NoDup (assoc_keys m) -> In (k, v) m -> assoc_get k m = Some v.
Proof.
  induction m as [|[k' v'] m IH]; simpl; [contradiction|].
  intros Hnd [Heq | Hin].
  - inversion Heq; subst. now rewrite String.eqb_refl.
  - inversion Hnd as [|? ? Hnotin Hnd']; subst.
    destruct (k' =? k) eqn:E.
    + apply String.eqb_eq in E. subst k'. exfalso. apply Hnotin.
      change (In k (map fst m)). apply in_map_iff. now exists (k, v).
    + now apply IH.
Qed.

(** Setting, for every key of [l], a value that depends on the key
    alone. *)
Variable f : string -> V.



End AssocFacts.

Lemma Set_add_NoDup (s : list string) (x : string) :
  NoDup s -> NoDup (Set_add s x).
Proof.
  intros H. unfold Set_add. destruct (mem_string x s) eqn:E; [exact H|].
  apply mem_string_false in E.
  apply NoDup_app; [exact H | repeat constructor; auto | ].
  intros a Ha [<-|[]]. exact (E Ha).
Qed.

Lemma Set_add_In (s : list string) (x y : string) :
  In y (Set_add s x) <-> In y s \/ y = x.
Proof.
  unfold Set_add. destruct (mem_string x s) eqn:E.
  - apply mem_string_In in E. split; [auto|]. intros [H| ->]; assumption.
  - rewrite in_app_iff. simpl. intuition.
Qed.

Lemma fold_Set_add_NoDup (l s : list string) :
  NoDup s -> NoDup (fold_left Set_add l s).
Proof.
  revert s. induction l as [|a l IH]; intros s H; simpl; [exact H|].
  apply IH, Set_add_NoDup, H.
Qed.

Lemma fold_Set_add_In (l s : list string) (y : string) :
  In y (fold_left Set_add l s) <-> In y s \/ In y l.
Proof.
  revert s. induction l as [|a l IH]; intros s; simpl.
  - intuition.
  - rewrite IH, Set_add_In. intuition.
Qed.

Lemma Set_from_NoDup (l : list string) : NoDup (Set_from l).
Proof. apply fold_Set_add_NoDup. constructor. Qed.

Lemma Set_from_In (l : list string) (y : string) :
  In y (Set_from l) <-> In y l.
Proof. unfold Set_from. rewrite fold_Set_add_In. simpl. intuition. Qed.



Section AssocForall.
Variables (V : Type) (P : V -> Prop).

Lemma assoc_set_Forall (k : string) (v : V) (m : list (string * V)) :
  P v -> Forall (fun e => P (snd e)) m ->
  Forall (fun e => P (snd e)) (assoc_set k v m).
Proof.
  intros Hv. induction m as [|[k' v'] m IH]; simpl; intros Hm.
  - constructor; [exact Hv | constructor].
  - inversion Hm; subst. destruct (k' =? k).
    + constructor; assumption.
    + constructor; [assumption | now apply IH].
Qed.

Lemma fold_set_Forall (A : Type) (g : A -> V) (l : list (string * A))
  (m : list (string * V)) :
  (forall a, P (g a)) -> Forall (fun e => P (snd e)) m ->
  Forall (fun e => P (snd e))
    (fold_left (fun ap ix => assoc_set (fst ix) (g (snd ix)) ap) l m).
Proof.
  intros Hg. revert m. induction l as [|x l IH]; intros m Hm; simpl.
  - exact Hm.
  - apply IH. now apply assoc_set_Forall.
Qed.
End AssocForall.

(** ** The first element that a predicate holds of *)

Lemma find_first_match {A : Type} (p : A -> bool) (before after : list A)
  (x : A) :
  (forall e, In e before -> p e = false) -> p x = true ->
  find p (before ++ x :: after) = Some x.
Proof.
  intros Hb Hx. induction before as [|b before IH]; simpl.
  - now rewrite Hx.
  - rewrite (Hb b) by now left. apply IH. intros e He. apply Hb. now right.
Qed.

Lemma find_no_match {A : Type} (p : A -> bool) (l : list A) :
  (forall e, In e l -> p e = false) -> find p l = None.
Proof.
  induction l as [|x l IH]; intros H; simpl; [reflexivity|].
  rewrite (H x) by now left. apply IH. intros e He. apply H. now right.
Qed.

Lemma find_first_split {A : Type} (p : A -> bool) (l : list A) (x : A) :
  find p l = Some x ->
  exists before after,
    l = before ++ x :: after
    /\ (forall e, In e before -> p e = false)
    /\ p x = true.
Proof.
  induction l as [|y l IH]; simpl; [discriminate|].
  destruct (p y) eqn:E.
  - intros [= ->]. exists [], l. repeat split; [contradiction | exact E].
  - intros H. destruct (IH H) as (before & after & -> & Hb & Hx).
    exists (y :: before), after. repeat split; [|exact Hx].
    intros e [<- | He]; [exact E | now apply Hb].
Qed.

(* ================================================================== *)
(** ** [JSON.parse] reads back what [JSON.stringify] writes *)
(* ================================================================== *)

Lemma string_app_assoc (a b c : string) :
  ((a ++ b) ++ c = a ++ (b ++ c))%string.
Proof. induction a as [|x a IH]; simpl; [reflexivity | now rewrite IH]. Qed.

Lemma string_app_length (a b : string) :
  String.length (a ++ b) = (String.length a + String.length b)%nat.
Proof. induction a as [|x a IH]; simpl; [reflexivity | now rewrite IH]. Qed.

(** *** String literals *)

Lemma parse_escape_char (c : ascii) (t : string) :
  JSON.parse_string_body (JSON.escape_char c ++ t)
  = JSON.cons_char c (JSON.parse_string_body t).
Proof. destruct c as [[] [] [] [] [] [] [] []]; reflexivity. Qed.

Lemma parse_escape (s rest : string) :
  JSON.parse_string_body (JSON.escape s ++ String JSON.dquote rest)
  = Some (s, rest).
Proof.
  induction s as [|c s IH]; [reflexivity|].
  cbn [JSON.escape]. rewrite string_app_assoc, parse_escape_char, IH.
  reflexivity.
Qed.

Lemma quote_app (s rest : string) :
  (JSON.quote s ++ rest
   = String JSON.dquote (JSON.escape s ++ String JSON.dquote rest))%string.
Proof. unfold JSON.quote. simpl. now rewrite string_app_assoc. Qed.

(** *** Number literals *)

Lemma span_digits_uint (d : uint) (rest : string) :
  delimited rest ->
  JSON.span_digits (NilEmpty.string_of_uint d ++ rest)
  = (NilEmpty.string_of_uint d, rest).
Proof.
  intros Hrest. induction d; simpl; try (rewrite IHd; reflexivity).
  destruct rest as [|c r]; [reflexivity|]. simpl in *. now rewrite Hrest.
Qed.

Lemma digits_ok_to_uint (p : positive) :
  JSON.digits_ok (NilEmpty.string_of_uint (Pos.to_uint p)) = true.
Proof.
  assert (Hn : Pos.to_uint p = unorm (Pos.to_uint p)).
  { rewrite <- (DecimalPos.Unsigned.to_of (Pos.to_uint p)).
    now rewrite DecimalPos.Unsigned.of_to. }
  pose proof (DecimalPos.Unsigned.to_uint_nonzero p) as Hz.
  pose proof (DecimalPos.Unsigned.to_uint_nonnil p) as Hnil.
  destruct (Pos.to_uint p) as [|d|d|d|d|d|d|d|d|d|d] eqn:E;
    try congruence; try (destruct d; reflexivity).
  exfalso. unfold unorm in Hn.
  pose proof (DecimalFacts.nzhead_nonzero (D0 d)) as Hh.
  destruct (nzhead (D0 d)) eqn:Eh; try discriminate.
  - injection Hn as ->. now apply Hz.
  - now apply (Hh u).
Qed.

Lemma parse_number_text (n : Z) (rest : string) :
  delimited rest ->
  JSON.parse_number (JSON.number_to_string n ++ rest) = Some (n, rest).
Proof.
  intros Hrest. unfold JSON.number_to_string.
  destruct n as [|p|p]; simpl.
  - destruct rest as [|c r]; [reflexivity|]. simpl in Hrest.
    simpl. rewrite Hrest. reflexivity.
  - unfold NilZero.string_of_uint.
    pose proof (DecimalPos.Unsigned.to_uint_nonnil p) as Hnil.
    assert (Hs : (match Pos.to_uint p with
                  | Nil => "0"
                  | _ => NilEmpty.string_of_uint (Pos.to_uint p)
                  end)%string
                 = NilEmpty.string_of_uint (Pos.to_uint p))
      by (destruct (Pos.to_uint p); congruence).
    rewrite Hs. clear Hs.
    unfold JSON.parse_number.
    destruct (NilEmpty.string_of_uint (Pos.to_uint p) ++ rest)%string
      as [|c s'] eqn:E.
    + exfalso. destruct (Pos.to_uint p); simpl in E; congruence.
    + assert (Hc : Ascii.eqb c "-" = false).
      { destruct (Pos.to_uint p); simpl in E; try congruence;
          injection E as <- _; reflexivity. }
      rewrite Hc, <- E, span_digits_uint by assumption.
      rewrite digits_ok_to_uint.
      assert (Hu : NilZero.uint_of_string
                     (NilEmpty.string_of_uint (Pos.to_uint p))
                   = Some (Pos.to_uint p)).
      { pose proof (NilZero.usu (Pos.to_uint p) Hnil) as H.
        unfold NilZero.string_of_uint in H.
        destruct (Pos.to_uint p); congruence. }
      rewrite Hu. unfold Z.of_uint.
      now rewrite DecimalPos.Unsigned.of_to.
  - unfold NilZero.string_of_uint.
    pose proof (DecimalPos.Unsigned.to_uint_nonnil p) as Hnil.
    assert (Hs : (match Pos.to_uint p with
                  | Nil => "0"
                  | _ => NilEmpty.string_of_uint (Pos.to_uint p)
                  end)%string
                 = NilEmpty.string_of_uint (Pos.to_uint p))
      by (destruct (Pos.to_uint p); congruence).
    rewrite Hs. clear Hs.
    rewrite span_digits_uint by assumption.
    rewrite digits_ok_to_uint.
    assert (Hu : NilZero.uint_of_string
                   (NilEmpty.string_of_uint (Pos.to_uint p))
                 = Some (Pos.to_uint p)).
    { pose proof (NilZero.usu (Pos.to_uint p) Hnil) as H.
      unfold NilZero.string_of_uint in H.
      destruct (Pos.to_uint p); congruence. }
    rewrite Hu. unfold Z.of_uint.
    now rewrite DecimalPos.Unsigned.of_to.
Qed.

Lemma number_text_starts (n : Z) (rest : string) :
  starts_number (JSON.number_to_string n ++ rest) = true.
Proof.
  unfold JSON.number_to_string. destruct n as [|p|p]; try reflexivity.
  simpl. unfold NilZero.string_of_uint.
  pose proof (DecimalPos.Unsigned.to_uint_nonnil p) as Hnil.
  destruct (Pos.to_uint p); try congruence; reflexivity.
Qed.

(** A text that starts a number literal is parsed as a number. *)
Lemma parse_value_number (fuel : nat) (s : string) :
  starts_number s = true ->
  JSON.parse_value (S fuel) s
  = match JSON.parse_number s with
    | Some (n, r) => Some (VNum n, r)
    | None => None
    end.
Proof.
  destruct s as [|c s]; [discriminate|].
  destruct c as [[] [] [] [] [] [] [] []]; simpl; intros H;
    try discriminate H; reflexivity.
Qed.

(** *** Values *)

(** Induction on a value, with the property known of the entries of an
    array and of the members of an object. *)
Lemma value_nested_ind (P : value -> Prop) :
  P VUndef -> P VNull -> (forall b, P (VBool b)) -> (forall n, P (VNum n)) ->
  (forall s, P (VStr s)) ->
  (forall items, Forall P items -> P (VArr items)) ->
  (forall props, Forall (fun kv => P (snd kv)) props -> P (VObj props)) ->
  forall v, P v.
Proof.
  intros Hu Hn Hb Hz Hs Ha Ho.
  fix IH 1. intros [| |b|n|s|items|props].
  - exact Hu.
  - exact Hn.
  - apply Hb.
  - apply Hz.
  - apply Hs.
  - apply Ha. induction items as [|x items IHitems]; constructor.
    + apply IH.
    + exact IHitems.
  - apply Ho. induction props as [|[k x] props IHprops]; constructor.
    + apply IH.
    + exact IHprops.
Qed.

Lemma distinct_NoDup (l : list string) : distinct l = true <-> NoDup l.
Proof.
  induction l as [|x l IH]; simpl.
  - split; [constructor | reflexivity].
  - rewrite andb_true_iff, negb_true_iff, mem_string_false, IH. split.
    + intros [H1 H2]. now constructor.
    + intros H. inversion H. now split.
Qed.

Lemma json_text_array (items : list value) :
  json_text (VArr items)
  = ("[" ++ JSON.join "," (map json_text items) ++ "]")%string.
Proof. reflexivity. Qed.

Lemma json_members (props : list (string * value)) :
  forallb (fun kv => is_json (snd kv)) props = true ->
  flat_map (fun kv : string * value =>
              match JSON.stringify (snd kv) with
              | Some t => [(JSON.quote (fst kv) ++ ":" ++ t)%string]
              | None => []
              end) props
  = map member_text props.
Proof.
  induction props as [|[k x] props IH]; [reflexivity|].
  cbn [forallb flat_map map snd fst].
  rewrite andb_true_iff. intros [Hx Hp]. rewrite (IH Hp).
  change (member_text (k, x))
    with (JSON.quote k ++ ":" ++ json_text x)%string.
  unfold json_text.
  destruct (JSON.stringify x) eqn:E; [reflexivity|].
  destruct x as [| |b|n|s|items|o]; simpl in *; try discriminate.
  destruct b; discriminate.
Qed.

Lemma json_text_object (props : list (string * value)) :
  forallb (fun kv => is_json (snd kv)) props = true ->
  json_text (VObj props)
  = ("{" ++ JSON.join "," (map member_text props) ++ "}")%string.
Proof.
  intros H.
  change (json_text (VObj props))
    with ("{" ++ JSON.join ","
                   (flat_map (fun kv : string * value =>
                                match JSON.stringify (snd kv) with
                                | Some t => [(JSON.quote (fst kv) ++ ":" ++ t)%string]
                                | None => []
                                end) props) ++ "}")%string.
  now rewrite (json_members props H).
Qed.

Lemma join_cons (x y : string) (l : list string) :
  JSON.join "," (x :: y :: l) = (x ++ "," ++ JSON.join "," (y :: l))%string.
Proof. reflexivity. Qed.

(** The first character of the text of a JSON value is none of the
    closing brackets. *)
Lemma json_text_head (v : value) :
  is_json v = true ->
  exists c t, json_text v = String c t
              /\ Ascii.eqb c "]" = false /\ Ascii.eqb c "}" = false.
Proof.
  destruct v as [| |b|n|s|items|props]; simpl; intros H; try discriminate.
  - eexists; eexists; repeat split.
  - destruct b; eexists; eexists; repeat split.
  - unfold json_text. simpl.
    pose proof (number_text_starts n "") as Hn.
    destruct (JSON.number_to_string n ++ "")%string as [|c t] eqn:E;
      [discriminate|].
    assert (Ht : JSON.number_to_string n = String c t).
    { rewrite <- E. clear. induction (JSON.number_to_string n); simpl;
        [reflexivity | now rewrite <- IHs]. }
    exists c, t. split; [exact Ht|]. simpl in Hn.
    destruct c as [[] [] [] [] [] [] [] []]; simpl in Hn;
      try discriminate Hn; split; reflexivity.
  - eexists; eexists; repeat split.
  - eexists; eexists; repeat split.
  - unfold json_text. simpl. eexists; eexists; repeat split.
Qed.

Lemma object_of_distinct_members (o acc : list (string * value)) :
  NoDup (map fst (acc ++ o)) ->
  fold_left (fun m kv => assoc_set (fst kv) (snd kv) m) o acc = acc ++ o.
Proof.
  revert acc. induction o as [|[k v] o IH]; intros acc Hnd; simpl.
  - now rewrite app_nil_r.
  - rewrite assoc_set_absent.
    + rewrite IH; rewrite <- app_assoc; [reflexivity | exact Hnd].
    + rewrite assoc_has_mem. apply mem_string_false.
      rewrite map_app in Hnd. simpl in Hnd.
      apply NoDup_remove_2 in Hnd. intros Hin. apply Hnd.
      apply in_or_app. left. exact Hin.
Qed.

Lemma object_of_members_distinct (o : list (string * value)) :
  distinct (map fst o) = true -> JSON.object_of_members o = o.
Proof.
  intros H. unfold JSON.object_of_members.
  apply (object_of_distinct_members o []). simpl.
  now apply distinct_NoDup.
Qed.

Lemma elements_size_cons (x : value) (l : list value) :
  elements_size (x :: l) = S (value_size x + elements_size l).
Proof. reflexivity. Qed.

Lemma members_size_cons (kv : string * value) (o : list (string * value)) :
  members_size (kv :: o) = S (value_size (snd kv) + members_size o).
Proof. reflexivity. Qed.

Lemma value_size_array (items : list value) :
  value_size (VArr items) = S (elements_size items).
Proof. reflexivity. Qed.

Lemma value_size_object (props : list (string * value)) :
  value_size (VObj props) = S (members_size props).
Proof. reflexivity. Qed.

(** With fuel for its size, the parser reads a JSON value back from its
    text, and likewise the rest of an array or of an object. *)
Lemma parse_text_fuel (fuel : nat) :
  (forall v rest,
      (value_size v <= fuel)%nat -> is_json v = true -> delimited rest ->
      JSON.parse_value fuel (json_text v ++ rest) = Some (v, rest))
  /\ (forall x l rest,
         (elements_size (x :: l) <= fuel)%nat ->
         forallb is_json (x :: l) = true ->
         JSON.parse_elements fuel
           (JSON.join "," (map json_text (x :: l)) ++ String "]" rest)
         = Some (x :: l, rest))
  /\ (forall kv o rest,
         (members_size (kv :: o) <= fuel)%nat ->
         forallb (fun kv => is_json (snd kv)) (kv :: o) = true ->
         JSON.parse_members fuel
           (JSON.join "," (map member_text (kv :: o)) ++ String "}" rest)
         = Some (kv :: o, rest)).
Proof.
  induction fuel as [|fuel (IHv & IHe & IHm)].
  - split; [|split].
    + intros v rest Hsize. destruct v; simpl in Hsize; lia.
    + intros x l rest Hsize. rewrite elements_size_cons in Hsize. lia.
    + intros kv o rest Hsize. rewrite members_size_cons in Hsize. lia.
  - split; [|split].
    + intros v rest Hsize Hjson Hrest.
      destruct v as [| |b|n|s|items|props].
      * discriminate.
      * reflexivity.
      * destruct b; reflexivity.
      * unfold json_text. cbn [JSON.stringify].
        rewrite parse_value_number by apply number_text_starts.
        now rewrite parse_number_text.
      * unfold json_text. cbn [JSON.stringify].
        rewrite quote_app. cbn. now rewrite parse_escape.
      * rewrite json_text_array.
        destruct items as [|x l].
        { reflexivity. }
        cbn [is_json] in Hjson.
        assert (Hx : is_json x = true)
          by (simpl in Hjson; now apply andb_true_iff in Hjson).
        destruct (json_text_head x Hx) as (c & t & Ht & Hc & _).
        assert (Hs : (("[" ++ JSON.join "," (map json_text (x :: l)) ++ "]")
                      ++ rest)%string
                     = String "[" (JSON.join "," (map json_text (x :: l))
                                   ++ String "]" rest)).
        { simpl. now rewrite string_app_assoc. }
        rewrite Hs.
        assert (He : JSON.parse_elements fuel
                       (JSON.join "," (map json_text (x :: l))
                        ++ String "]" rest) = Some (x :: l, rest)).
        { apply IHe; [|exact Hjson].
          rewrite value_size_array in Hsize. lia. }
        assert (Hhead : exists t',
                   (JSON.join "," (map json_text (x :: l)) ++ String "]" rest)%string
                   = String c t').
        { destruct l as [|y l]; simpl; rewrite Ht; simpl; eexists; reflexivity. }
        destruct Hhead as [t' Hhead]. rewrite Hhead in *.
        cbn. rewrite Hc, He. reflexivity.
      * cbn [is_json] in Hjson. apply andb_true_iff in Hjson.
        destruct Hjson as [Hkeys Hprops].
        rewrite (json_text_object props Hprops).
        destruct props as [|kv o].
        { reflexivity. }
        assert (Hs : (("{" ++ JSON.join "," (map member_text (kv :: o)) ++ "}")
                      ++ rest)%string
                     = String "{" (JSON.join "," (map member_text (kv :: o))
                                   ++ String "}" rest)).
        { simpl. now rewrite string_app_assoc. }
        rewrite Hs.
        assert (Hm : JSON.parse_members fuel
                       (JSON.join "," (map member_text (kv :: o))
                        ++ String "}" rest) = Some (kv :: o, rest)).
        { apply IHm; [|exact Hprops].
          rewrite value_size_object in Hsize. lia. }
        assert (Hhead : exists c t',
                   (JSON.join "," (map member_text (kv :: o)) ++ String "}" rest)%string
                   = String c t' /\ Ascii.eqb c "}" = false).
        { exists JSON.dquote.
          destruct o as [|kv' o]; simpl; unfold member_text, JSON.quote;
            simpl; eexists; split; reflexivity. }
        destruct Hhead as (c & t' & Hhead & Hc). rewrite Hhead in *.
        cbn. rewrite Hc, Hm.
        now rewrite (object_of_members_distinct _ Hkeys).
    + intros x l rest Hsize Hjson.
      cbn [forallb] in Hjson. apply andb_true_iff in Hjson.
      destruct Hjson as [Hx Hl].
      rewrite elements_size_cons in Hsize.
      cbn [JSON.parse_elements].
      destruct l as [|y l].
      * cbn [map JSON.join].
        rewrite IHv; [reflexivity | lia | exact Hx | reflexivity].
      * cbn [map]. rewrite join_cons, !string_app_assoc.
        rewrite IHv; [| lia | exact Hx | reflexivity].
        cbn [String.append].
        change (Ascii.eqb "," ",") with true. cbv iota.
        assert (He : JSON.parse_elements fuel
                       (JSON.join "," (map json_text (y :: l))
                        ++ String "]" rest) = Some (y :: l, rest)).
        { apply IHe; [|exact Hl]. lia. }
        cbn [map] in He. rewrite He. reflexivity.
    + intros [k x] o rest Hsize Hjson.
      cbn [forallb snd] in Hjson. apply andb_true_iff in Hjson.
      destruct Hjson as [Hx Ho].
      rewrite members_size_cons in Hsize. cbn [snd] in Hsize.
      destruct o as [|kv' o].
      * cbn [map JSON.join]. unfold member_text at 1. cbn [fst snd].
        rewrite !string_app_assoc, quote_app.
        cbn [JSON.parse_members]. change (Ascii.eqb JSON.dquote JSON.dquote) with true.
        cbv iota. rewrite parse_escape. cbn [String.append].
        change (Ascii.eqb ":" ":") with true. cbv iota.
        rewrite IHv; [reflexivity | lia | exact Hx | reflexivity].
      * cbn [map]. rewrite join_cons. unfold member_text at 1. cbn [fst snd].
        rewrite !string_app_assoc, quote_app.
        cbn [JSON.parse_members]. change (Ascii.eqb JSON.dquote JSON.dquote) with true.
        cbv iota. rewrite parse_escape. cbn [String.append].
        change (Ascii.eqb ":" ":") with true. cbv iota.
        rewrite IHv; [| lia | exact Hx | reflexivity].
        change (Ascii.eqb "," ",") with true. cbv iota.
        assert (Hm : JSON.parse_members fuel
                       (JSON.join "," (map member_text (kv' :: o))
                        ++ String "}" rest) = Some (kv' :: o, rest)).
        { apply IHm; [|exact Ho]. lia. }
        cbn [map] in Hm. rewrite Hm. reflexivity.
Qed.

Lemma string_app_nil_r (s : string) : (s ++ "")%string = s.
Proof. induction s as [|c s IH]; simpl; [reflexivity | now rewrite IH]. Qed.

Lemma elements_text_length (l : list value) :
  Forall (fun x => (value_size x <= String.length (json_text x))%nat) l ->
  (elements_size l
   <= String.length (JSON.join "," (map json_text l)) + 1)%nat.
Proof.
  induction 1 as [|x l Hx Hl IH]; [unfold elements_size; simpl; lia|].
  rewrite elements_size_cons. destruct l as [|y l].
  - cbn [map JSON.join]. change (elements_size []) with 0%nat. lia.
  - cbn [map] in *. rewrite join_cons, !string_app_length.
    change (String.length ",") with 1%nat. lia.
Qed.

Lemma members_text_length (o : list (string * value)) :
  Forall (fun kv => (value_size (snd kv)
                     <= String.length (json_text (snd kv)))%nat) o ->
  (members_size o
   <= String.length (JSON.join "," (map member_text o)) + 1)%nat.
Proof.
  assert (Hmt : forall kv,
             String.length (member_text kv)
             = (String.length (JSON.quote (fst kv)) + 1
                + String.length (json_text (snd kv)))%nat).
  { intros kv. unfold member_text. rewrite !string_app_length. simpl. lia. }
  induction 1 as [|kv o Hx Ho IH]; [unfold members_size; simpl; lia|].
  rewrite members_size_cons. destruct o as [|kv' o].
  - cbn [map JSON.join]. rewrite Hmt. change (members_size []) with 0%nat.
    lia.
  - cbn [map] in *. rewrite join_cons, !string_app_length, Hmt.
    change (String.length ",") with 1%nat. lia.
Qed.

Lemma value_size_text (v : value) :
  is_json v = true -> (value_size v <= String.length (json_text v))%nat.
Proof.
  induction v as [| |b|n|s|items IH|props IH] using value_nested_ind;
    intros Hjson.
  - discriminate.
  - simpl. lia.
  - destruct b; simpl; lia.
  - pose proof (number_text_starts n "") as Hn.
    rewrite string_app_nil_r in Hn. unfold json_text. cbn [JSON.stringify].
    destruct (JSON.number_to_string n); [discriminate | simpl; lia].
  - unfold json_text. simpl. lia.
  - rewrite value_size_array, json_text_array, !string_app_length.
    simpl String.length.
    assert (H : Forall (fun x => (value_size x
                                  <= String.length (json_text x))%nat) items).
    { cbn [is_json] in Hjson. rewrite forallb_forall in Hjson.
      rewrite Forall_forall in IH |- *. intros x Hx.
      apply (IH x Hx), Hjson, Hx. }
    pose proof (elements_text_length H). lia.
  - cbn [is_json] in Hjson. apply andb_true_iff in Hjson.
    destruct Hjson as [_ Hprops].
    rewrite value_size_object, (json_text_object props Hprops),
      !string_app_length.
    simpl String.length.
    assert (H : Forall (fun kv => (value_size (snd kv)
                                   <= String.length (json_text (snd kv)))%nat)
                  props).
    { rewrite forallb_forall in Hprops.
      rewrite Forall_forall in IH |- *. intros kv Hkv.
      apply (IH kv Hkv), Hprops, Hkv. }
    pose proof (members_text_length H). lia.
Qed.

(** [JSON.parse] is a left inverse of [JSON.stringify] on the JSON
    values. *)
Lemma JSON_parse_stringify (v : value) :
  is_json v = true ->
  JSON.stringify v = Some (json_text v)
  /\ JSON.parse (json_text v) = Some v.
Proof.
  intros Hjson. split.
  - unfold json_text. destruct (JSON.stringify v) eqn:E; [reflexivity|].
    destruct v as [| |b|n|s|items|props]; simpl in *; try discriminate.
    destruct b; discriminate.
  - unfold JSON.parse.
    destruct (parse_text_fuel (S (String.length (json_text v)))) as [H _].
    specialize (H v ""%string). rewrite string_app_nil_r in H.
    rewrite H; [reflexivity | | exact Hjson | exact I].
    pose proof (value_size_text v Hjson). lia.
Qed.

Lemma json_record_round_trips (i : record) :
  is_json (VObj i) = true -> round_trips i.
Proof.
  intros Hjson. unfold round_trips.
  destruct (JSON_parse_stringify (VObj i) Hjson) as [Hs Hp].
  unfold JSON.stringify_record. now rewrite Hs.
Qed.

(** *** The identifier mappings of JSON relation values *)

Lemma member_json (v : value) (k : string) :
  json_or_absent v -> json_or_absent (member v k).
Proof.
  intros [Hv | ->]; [|right; reflexivity].
  destruct v as [| |b|n|s|items|props]; try (right; reflexivity).
  cbn [is_json] in Hv. apply andb_true_iff in Hv. destruct Hv as [_ Hp].
  unfold member, prop. induction props as [|[k' x] props IH]; simpl.
  - right. reflexivity.
  - simpl in Hp. apply andb_true_iff in Hp. destruct Hp as [Hx Hp].
    destruct (k' =? k); [left; exact Hx | now apply IH].
Qed.

Lemma getValueByPath_json (v : value) (path : string) :
  json_or_absent v -> json_or_absent (getValueByPath v path).
Proof.
  unfold getValueByPath. generalize (split_dot path) as segments.
  intros segments. revert v.
  induction segments as [|k segments IH]; intros v Hv; simpl; [exact Hv|].
  apply IH, member_json, Hv.
Qed.

Lemma truthy_not_absent (v : value) :
  json_or_absent v -> truthy v = true -> is_json v = true.
Proof. intros [H | ->]; [intros _; exact H | discriminate]. Qed.

Lemma assoc_set_json (k : string) (v : value) (o : record) :
  is_json (VObj o) = true -> is_json v = true ->
  is_json (VObj (assoc_set k v o)) = true.
Proof.
  cbn [is_json]. rewrite !andb_true_iff. intros [Hk Hp] Hv. split.
  - apply distinct_NoDup. change (map fst (assoc_set k v o))
      with (assoc_keys (assoc_set k v o)).
    rewrite assoc_keys_set. apply Set_add_NoDup. now apply distinct_NoDup.
  - rewrite forallb_forall in *.
    apply Forall_forall.
    apply (@assoc_set_Forall _ (fun x => is_json x = true)); [exact Hv|].
    apply Forall_forall. exact Hp.
Qed.

Lemma identifiers_of_data_json (mappings : list RelationIdentifier)
  (identifiersData : value) (i : record) :
  json_or_absent identifiersData ->
  identifiers_of_data mappings identifiersData = Some i ->
  is_json (VObj i) = true.
Proof.
  intros Hd. unfold identifiers_of_data.
  destruct (negb (truthy identifiersData)); [discriminate|].
  intros [= <-].
  assert (G : forall acc : record,
             is_json (VObj acc) = true ->
             is_json
               (VObj
                  (fold_left
                     (fun (acc : record) identifierMapping =>
                        let identifierVal :=
                          if isObject identifiersData && truthy identifiersData
                          then getValueByPath identifiersData
                                 (source identifierMapping)
                          else identifiersData in
                        if truthy identifierVal
                        then assoc_set (target identifierMapping)
                               identifierVal acc
                        else acc)
                     mappings acc)) = true).
  { induction mappings as [|m ms IH]; intros acc Hacc; [exact Hacc|].
    cbn [fold_left]. apply IH. cbv zeta.
    destruct (isObject identifiersData && truthy identifiersData).
    - destruct (truthy (getValueByPath identifiersData (source m))) eqn:Et;
        [|exact Hacc].
      apply assoc_set_json; [exact Hacc|].
      apply truthy_not_absent; [|exact Et].
      now apply getValueByPath_json.
    - destruct (truthy identifiersData) eqn:Et; [|exact Hacc].
      apply assoc_set_json; [exact Hacc|].
      now apply truthy_not_absent. }
  apply G. reflexivity.
Qed.

(** Root records whose relation values are JSON values give identifier
    mappings that survive the serialization. *)
Lemma json_roots_round_trip (mappings : list RelationIdentifier)
  (relatedAttributeName : string) (roots : list record) :
  (forall r, In r roots -> json_or_absent (prop r relatedAttributeName)) ->
  Forall round_trips
    (relationIdentifiersBatch_of mappings relatedAttributeName roots).
Proof.
  intros Hroots. unfold relationIdentifiersBatch_of.
  apply Forall_forall. intros i Hi. apply in_flat_map in Hi.
  destruct Hi as [r [Hr Hi]]. specialize (Hroots r Hr).
  apply json_record_round_trips.
  unfold identifiersBatch_of in Hi.
  assert (G : forall datas,
             (forall d, In d datas -> json_or_absent d) ->
             In i (defined_identifiers
                     (map (identifiers_of_data mappings) datas)) ->
             is_json (VObj i) = true).
  { induction datas as [|d datas IH]; intros Hd Hin; simpl in Hin;
      [contradiction|].
    destruct (identifiers_of_data mappings d) as [j|] eqn:E.
    - destruct Hin as [<- | Hin].
      + eapply identifiers_of_data_json; [|exact E].
        apply Hd. now left.
      + apply IH; [|exact Hin]. intros; apply Hd. now right.
    - apply IH; [|exact Hin]. intros; apply Hd. now right. }
  apply (G _) in Hi; [exact Hi|]. intros d Hd.
  destruct (prop r relatedAttributeName) as [| |b|n|s|items|props] eqn:Ep;
    try (destruct Hd as [<- | []]; exact Hroots).
  destruct Hroots as [Hj | Hx]; [|discriminate].
  left. cbn [is_json] in Hj. rewrite forallb_forall in Hj. now apply Hj.
Qed.

(* ================================================================== *)
(** ** The access-pattern resolver *)
(* ================================================================== *)

Section AccessPatternFacts.
Variable h : string -> string.
Variable schema : EntitySchema.

Lemma indexAttributes_fold (idx : Index) :
  indexAttributes h schema idx
  = fold_left (fun acc a => assoc_set a (forced_attribute h schema a) acc)
      (composite (pk idx) ++ sk_composite idx) [].
Proof. unfold indexAttributes. now rewrite fold_left_app. Qed.

Lemma forced_validations (a : string) : io_validations (forced_attribute h schema a) = ["required"].
Proof.
  unfold forced_attribute. simpl.
  now destruct (att_validations (schema_attribute schema a)).
Qed.

Lemma indexAttributes_ids (idx : Index) :
  Forall (fun e => io_id (snd e) = fst e) (indexAttributes h schema idx).
Proof.
  rewrite indexAttributes_fold.
  assert (G : forall l m,
             Forall (fun e : string * IOSchemaAttribute => io_id (snd e) = fst e) m ->
             Forall (fun e => io_id (snd e) = fst e)
               (fold_left (fun acc a => assoc_set a (forced_attribute h schema a) acc) l m)).
  { induction l as [|a l IH]; intros m Hm; simpl; [exact Hm|].
    apply IH. clear IH. induction m as [|[k v] m IHm]; simpl.
    - constructor; [reflexivity | constructor].
    - inversion Hm; subst. destruct (k =? a) eqn:E.
      + constructor; [|assumption]. simpl.
        apply String.eqb_eq in E. now subst.
      + constructor; [assumption | now apply IHm]. }
  apply G. constructor.
Qed.
End AccessPatternFacts.

Section IndexFold.
Variables (A V : Type) (g : A -> V).

Lemma index_fold_other (l : list (string * A)) (ap : list (string * V)) n :
  ~ In n (assoc_keys l) ->
  assoc_get n (fold_left (fun ap ix => assoc_set (fst ix) (g (snd ix)) ap) l ap) = assoc_get n ap.
Proof.
  revert ap. induction l as [|[k a] l IH]; intros ap Hn; simpl; [reflexivity|].
  simpl in Hn. rewrite IH by tauto. simpl.
  apply assoc_get_set_other. tauto.
Qed.

Lemma index_fold_get (l : list (string * A)) (ap : list (string * V)) n a :
  NoDup (assoc_keys l) -> In (n, a) l ->
  assoc_get n (fold_left (fun ap ix => assoc_set (fst ix) (g (snd ix)) ap) l ap) = Some (g a).
Proof.
  revert ap. induction l as [|[k b] l IH]; intros ap Hnd Hin; simpl.
  - contradiction.
  - simpl in Hnd. inversion Hnd as [|? ? Hk Hnd']; subst.
    destruct Hin as [Heq | Hin].
    + inversion Heq; subst. rewrite index_fold_other by assumption.
      apply assoc_get_set_same.
    + now apply IH.
Qed.

Lemma index_fold_has (l : list (string * A)) (ap : list (string * V)) n :
  assoc_has n (fold_left (fun ap ix => assoc_set (fst ix) (g (snd ix)) ap) l ap) = assoc_has n ap || assoc_has n l.
Proof.
  revert ap. induction l as [|[k a] l IH]; intros ap; simpl.
  - now rewrite orb_false_r.
  - rewrite IH. simpl. rewrite assoc_has_set.
    destruct (k =? n), (assoc_has n ap); reflexivity.
Qed.


End IndexFold.

Lemma makeEntityAccessPatternsSchema_cases (h : string -> string)
  (schema : EntitySchema) :
  makeEntityAccessPatternsSchema h schema
  = let ap0 :=
      fold_left
        (fun (ap : AccessPatterns) (ix : string * Index) =>
           assoc_set (fst ix) (Some (indexAttributes h schema (snd ix))) ap)
        (indexes schema) [] in
    if assoc_has "primary" ap0 then ap0
    else assoc_set "primary" (first_value ap0) ap0.
Proof.
  unfold makeEntityAccessPatternsSchema. cbv zeta.
  now destruct (assoc_has "primary" _).
Qed.






(* ================================================================== *)
(** ** The IO-schema builder *)
(* ================================================================== *)

Section OpsSchemaFacts.
Variable h : string -> string.

Lemma formatted_flags (k : string) (att : EntityAttribute) :
  let io := entityAttributeToIOSchemaAttribute h k att in
  io_hidden io = att_hidden att
  /\ io_isVisible io = flag_default_true (att_isVisible att)
  /\ io_isListable io = flag_default_true (att_isListable att)
  /\ io_isCreatable io = flag_default_true (att_isCreatable att)
  /\ io_isEditable io = flag_default_true (att_isEditable att)
  /\ io_id io = k.
Proof. destruct att; simpl; repeat split. Qed.

Lemma ops_fold_projections (l : list (string * EntityAttribute))
  (acc : IOSchemaAttributes) :
  let r := fold_left (ops_attribute_step h) l acc in
  detail_attributes r
  = fold_left (select_step h io_isVisible) l (detail_attributes acc)
  /\ list_attributes r
     = fold_left (select_step h io_isListable) l (list_attributes acc)
  /\ create_attributes r
     = fold_left (select_step h io_isCreatable) l (create_attributes acc)
  /\ update_attributes r
     = fold_left (select_step h io_isEditable) l (update_attributes acc).
Proof.
  revert acc. induction l as [|e l IH]; intros acc; simpl.
  - repeat split.
  - destruct (IH (ops_attribute_step h acc e)) as (H1 & H2 & H3 & H4).
    rewrite H1, H2, H3, H4.
    unfold ops_attribute_step, select_step. cbv zeta.
    destruct (flag_truthy
                (io_hidden (entityAttributeToIOSchemaAttribute h (fst e) (snd e))));
      repeat split.
Qed.

(** Membership in one derived set after the loop. *)
Lemma select_fold_has (selected : IOSchemaAttribute -> bool)
  (l : list (string * EntityAttribute)) (m : TIOSchemaAttributesMap)
  (k : string) :
  assoc_has k (fold_left (select_step h selected) l m)
  = assoc_has k m
    || existsb (fun e =>
                  (fst e =? k)
                  && negb (flag_truthy (att_hidden (snd e)))
                  && selected (entityAttributeToIOSchemaAttribute h
                                 (fst e) (snd e))) l.
Proof.
  revert m. induction l as [|e l IH]; intros m; simpl.
  - now rewrite orb_false_r.
  - rewrite IH. unfold select_step. cbv zeta.
    rewrite (proj1 (formatted_flags (fst e) (snd e))).
    destruct (flag_truthy (att_hidden (snd e))); simpl.
    + now rewrite andb_false_r.
    + rewrite andb_true_r.
      destruct (selected (entityAttributeToIOSchemaAttribute h (fst e) (snd e))).
      * rewrite assoc_has_set, andb_true_r.
        destruct (fst e =? k), (assoc_has k m); reflexivity.
      * now rewrite andb_false_r.
Qed.

Lemma existsb_unique_key (p : string -> EntityAttribute -> bool)
  (l : list (string * EntityAttribute)) (k : string) (att : EntityAttribute) :
  NoDup (assoc_keys l) -> In (k, att) l ->
  existsb (fun e => (fst e =? k) && p (fst e) (snd e)) l = p k att.
Proof.
  induction l as [|[k' a'] l IH]; simpl; [contradiction|].
  intros Hnd [Heq | Hin]; inversion Hnd as [|? ? Hk Hnd']; subst.
  - inversion Heq; subst. rewrite String.eqb_refl. simpl.
    destruct (p k att); [reflexivity|]. simpl.
    apply not_true_is_false. intros Hex.
    apply existsb_exists in Hex. destruct Hex as [[k2 a2] [Hin2 Hp]].
    simpl in Hp. apply andb_prop in Hp. destruct Hp as [Hk2 _].
    apply String.eqb_eq in Hk2. subst k2. apply Hk.
    change (In k (map fst l)). apply in_map_iff. now exists (k, a2).
  - destruct (String.eqb_spec k' k) as [->|Hne]; simpl.
    + exfalso. apply Hk. change (In k (map fst l)).
      apply in_map_iff. now exists (k, att).
    + now apply IH.
Qed.

Lemma select_fold_member (selected : IOSchemaAttribute -> bool)
  (l : list (string * EntityAttribute)) (k : string) (att : EntityAttribute) :
  NoDup (assoc_keys l) -> In (k, att) l ->
  assoc_has k (fold_left (select_step h selected) l [])
  = negb (flag_truthy (att_hidden att))
    && selected (entityAttributeToIOSchemaAttribute h k att).
Proof.
  intros Hnd Hin. rewrite select_fold_has. simpl.
  rewrite <- (@existsb_unique_key
                (fun k a => negb (flag_truthy (att_hidden a))
                            && selected (entityAttributeToIOSchemaAttribute h k a))
                l k att Hnd Hin).
  clear. induction l as [|e l IH]; simpl; [reflexivity|].
  now rewrite IH, andb_assoc.
Qed.
End OpsSchemaFacts.

(** C3.  In a schema (attribute names pairwise distinct, being the keys
    of an object) a hidden attribute is a key of none of [get.output],
    [list.output], [create.input], [update.input], whatever its other
    flags; an attribute that is not hidden is a key of [get.output]
    exactly when visible, of [list.output] exactly when listable, of
    [create.input] exactly when creatable and of [update.input] exactly
    when editable, a flag that is not set counting as true. *)
Theorem ops_schema_membership (h : string -> string) (schema : EntitySchema)
  (attName : string) (att : EntityAttribute) :
  NoDup (assoc_keys (attributes schema)) ->
  In (attName, att) (attributes schema) ->
  (flag_truthy (att_hidden att) = true ->
   assoc_has attName (get_output (makeOpsDefaultIOSchema h schema)) = false
   /\ assoc_has attName (list_output (makeOpsDefaultIOSchema h schema)) = false
   /\ assoc_has attName (create_input (makeOpsDefaultIOSchema h schema)) = false
   /\ assoc_has attName (update_input (makeOpsDefaultIOSchema h schema)) = false)
  /\ (flag_truthy (att_hidden att) = false ->
      assoc_has attName (get_output (makeOpsDefaultIOSchema h schema))
      = flag_default_true (att_isVisible att)
      /\ assoc_has attName (list_output (makeOpsDefaultIOSchema h schema))
         = flag_default_true (att_isListable att)
      /\ assoc_has attName (create_input (makeOpsDefaultIOSchema h schema))
         = flag_default_true (att_isCreatable att)
      /\ assoc_has attName (update_input (makeOpsDefaultIOSchema h schema))
         = flag_default_true (att_isEditable att)).
Proof.
  intros Hnd Hin. unfold makeOpsDefaultIOSchema. cbv zeta. simpl.
  match goal with
  | |- context [fold_left (ops_attribute_step h) ?l ?a] =>
      destruct (ops_fold_projections h l a) as (H1 & H2 & H3 & H4)
  end.
  cbv zeta in H1, H2, H3, H4. simpl in H1, H2, H3, H4.
  rewrite H1, H2, H3, H4.
  rewrite !(fun sel => @select_fold_member h sel _ _ _ Hnd Hin).
  destruct (formatted_flags h attName att) as (_ & Hv & Hl & Hc & He & _).
  rewrite Hv, Hl, Hc, He.
  split; intros Hh; rewrite Hh; simpl; repeat split.
Qed.

(** The hidden attribute [secret] of [OrderSchema], flagged visible,
    listable, creatable and editable, and its unlisted attribute
    [weight]. *)
Lemma ops_schema_membership_witness :
  (assoc_has "secret" (get_output (makeOpsDefaultIOSchema humanize OrderSchema)) = false
   /\ assoc_has "secret" (list_output (makeOpsDefaultIOSchema humanize OrderSchema)) = false
   /\ assoc_has "secret" (create_input (makeOpsDefaultIOSchema humanize OrderSchema)) = false
   /\ assoc_has "secret" (update_input (makeOpsDefaultIOSchema humanize OrderSchema)) = false)
  /\ assoc_has "weight" (list_output (makeOpsDefaultIOSchema humanize OrderSchema)) = false
  /\ assoc_has "weight" (get_output (makeOpsDefaultIOSchema humanize OrderSchema)) = true.
Proof.
  assert (Hnd : NoDup (assoc_keys (attributes OrderSchema))).
  { simpl. repeat constructor; simpl; intuition discriminate. }
  split.
  - apply (ops_schema_membership humanize OrderSchema "secret" hidden_attribute Hnd).
    + simpl. tauto.
    + reflexivity.
  - destruct (ops_schema_membership humanize OrderSchema "weight"
                unlisted_attribute Hnd) as [_ H].
    + simpl. tauto.
    + destruct (H eq_refl) as (Hv & Hl & _). split; assumption.
Defined.

(* ================================================================== *)
(** ** Computations *)
(* ================================================================== *)

Lemma bind_ret {A B : Type} (a : A) (f : A -> M B) : bind (ret a) f = f a.
Proof. unfold bind, ret. now destruct (f a). Qed.

Lemma bind_throw {A B : Type} (e : exn) (f : A -> M B) :
  bind (throw e) f = throw e.
Proof. reflexivity. Qed.

Lemma bind_silent {A B : Type} (m : M A) (f : A -> M B) :
  trace m = [] -> (forall a, trace (f a) = []) -> trace (bind m f) = [].
Proof.
  destruct m as [t [e|a]]; simpl; intros -> Hf; [reflexivity|].
  specialize (Hf a). destruct (f a). simpl in *. assumption.
Qed.

Lemma foldM_silent {A B : Type} (f : A -> B -> M A) (l : list B) (a : A) :
  (forall a x, In x l -> trace (f a x) = []) -> trace (foldM f l a) = [].
Proof.
  revert a. induction l as [|x l IH]; intros a H; simpl; [reflexivity|].
  apply bind_silent; [apply H; now left|].
  intros a'. apply IH. intros; apply H. now right.
Qed.

Lemma mapM_silent {A B : Type} (f : A -> M B) (l : list A) :
  (forall x, In x l -> trace (f x) = []) -> trace (mapM f l) = [].
Proof.
  induction l as [|x l IH]; intros H; simpl; [reflexivity|].
  apply bind_silent; [apply H; now left|].
  intros y. apply bind_silent; [apply IH; intros; apply H; now right|].
  reflexivity.
Qed.

Lemma foldM_pure {A B : Type} (f : A -> B -> M A) (g : A -> B -> A)
  (l : list B) (a : A) :
  (forall a x, In x l -> f a x = ret (g a x)) ->
  foldM f l a = ret (fold_left g l a).
Proof.
  revert a. induction l as [|x l IH]; intros a H; simpl; [reflexivity|].
  rewrite H by now left. rewrite bind_ret. apply IH.
  intros; apply H. now right.
Qed.

Lemma mapM_pure {A B : Type} (f : A -> M B) (g : A -> B) (l : list A) :
  (forall x, In x l -> f x = ret (g x)) -> mapM f l = ret (map g l).
Proof.
  induction l as [|x l IH]; intros H; simpl; [reflexivity|].
  rewrite H by now left. rewrite bind_ret.
  rewrite IH by (intros; apply H; now right). now rewrite bind_ret.
Qed.

(* ================================================================== *)
(** ** Identifier extraction *)
(* ================================================================== *)


Section ExtractFacts.
Variable h : string -> string.
Variable schema : EntitySchema.

(** Every access pattern of a schema with an index is the attribute
    map of some index. *)
Lemma access_patterns_defined :
  indexes schema <> [] ->
  Forall (fun e => exists idx, snd e = Some (indexAttributes h schema idx))
    (makeEntityAccessPatternsSchema h schema).
Proof.
  intros Hne. rewrite makeEntityAccessPatternsSchema_cases. cbv zeta.
  match goal with
  | |- context [fold_left ?f (indexes schema) ?z] =>
      set (ap0 := fold_left f (indexes schema) z)
  end.
  assert (H0 : Forall (fun e => exists idx,
                           snd e = Some (indexAttributes h schema idx)) ap0).
  { unfold ap0.
    apply (@fold_set_Forall _
             (fun v => exists idx, v = Some (indexAttributes h schema idx))
             _ (fun i => Some (indexAttributes h schema i))).
    - intros a. now exists a.
    - constructor. }
  destruct (assoc_has "primary" ap0); [exact H0|].
  apply (@assoc_set_Forall _
           (fun v => exists idx, v = Some (indexAttributes h schema idx)));
    [|exact H0].
  assert (Hnil : ap0 <> []).
  { destruct (indexes schema) as [|[n i] l] eqn:E; [congruence|].
    intros Heq.
    assert (Hh : assoc_has n ap0 = true).
    { unfold ap0.
      rewrite (index_fold_has (fun i => Some (indexAttributes h schema i))).
      simpl. now rewrite String.eqb_refl. }
    rewrite Heq in Hh. discriminate. }
  destruct ap0 as [|[k v] ap0']; [congruence|].
  inversion H0; subst. assumption.
Qed.

Variable context : ExtractEntityIdentifiersContext.

Lemma identifierAttributes_resolved :
  indexes schema <> [] ->
  identifierAttributes h schema context
  = ret (map (fun n => (n, false))
         (resolved_identifier_names h schema context)).
Proof.
  intros Hne. unfold identifierAttributes, resolved_identifier_names.
  pose proof (access_patterns_defined Hne) as Hdef.
  change (map (fun n : string => (n, false))
            (flat_map _ (makeEntityAccessPatternsSchema h schema)))
    with ([] ++ map (fun n : string => (n, false))
                  (flat_map
                     (fun entry : string * option TIOSchemaAttributesMap =>
                        if pattern_selected context (fst entry)
                        then match snd entry with
                             | Some m => assoc_keys m
                             | None => []
                             end
                        else [])
                     (makeEntityAccessPatternsSchema h schema))).
  generalize (@nil (string * bool)) as acc.
  induction Hdef as [|[n v] ap [idx Hv] _ IH]; intros acc; simpl.
  - now rewrite app_nil_r.
  - simpl in Hv. subst v.
    assert (Hids : map (fun e : string * IOSchemaAttribute =>
                          (io_id (snd e), false))
                     (indexAttributes h schema idx)
                   = map (fun n => (n, false))
                       (assoc_keys (indexAttributes h schema idx))).
    { unfold assoc_keys. rewrite map_map.
      pose proof (indexAttributes_ids h schema idx) as Hf.
      induction Hf as [|e l He _ IHl]; simpl; [reflexivity|].
      now rewrite He, IHl. }
    destruct (pattern_selected context n).
    + rewrite bind_ret, IH. unfold io_required. cbv iota.
      now rewrite Hids, map_app, app_assoc.
    + rewrite bind_ret. apply IH.
Qed.

Variable primaryAttName : option string.

Lemma copied_get (input : record) (S : list string) (n : string) :
  NoDup S ->
  assoc_get n (flat_map (copied primaryAttName input) S)
  = if mem_string n S then copy_rule primaryAttName input n else None.
Proof.
  induction S as [|s S IH]; intros Hnd; simpl; [reflexivity|].
  inversion Hnd as [|? ? Hs Hnd']; subst.
  unfold copied at 1.
  destruct (String.eqb_spec n s) as [->|Hne].
  - destruct (copy_rule primaryAttName input s) eqn:E; simpl.
    + now rewrite String.eqb_refl.
    + rewrite IH by assumption.
      apply mem_string_false in Hs. now rewrite Hs.
  - destruct (copy_rule primaryAttName input s) eqn:E; simpl.
    + assert (Hsn : (s =? n) = false) by (apply String.eqb_neq; congruence).
      rewrite Hsn. now apply IH.
    + now apply IH.
Qed.

Lemma copy_fold (input : record) (l S : list string) :
  NoDup S ->
  fold_left (copy_step primaryAttName input) (map (fun n => (n, false)) l)
    (flat_map (copied primaryAttName input) S)
  = flat_map (copied primaryAttName input) (fold_left Set_add l S).
Proof.
  revert S. induction l as [|n l IH]; intros S Hnd; simpl; [reflexivity|].
  rewrite <- IH by now apply Set_add_NoDup. f_equal.
  unfold copy_step. simpl. unfold Set_add.
  pose proof (copied_get input n Hnd) as Hget.
  destruct (mem_string n S) eqn:Hmem.
  - destruct (copy_rule primaryAttName input n) eqn:E; [|reflexivity].
    now apply assoc_set_present.
  - rewrite flat_map_app. simpl. rewrite app_nil_r.
    assert (Hc : copied primaryAttName input n
                 = match copy_rule primaryAttName input n with
                   | Some v => [(n, v)]
                   | None => []
                   end) by reflexivity.
    rewrite Hc. clear Hc.
    destruct (copy_rule primaryAttName input n) eqn:E.
    + apply assoc_set_absent. now rewrite assoc_has_get, Hget.
    + now rewrite app_nil_r.
Qed.

Lemma extract_identifiers_of_record (input : record) (l : list string) :
  extract_identifiers_of primaryAttName context
    (map (fun n => (n, false)) l) (VObj input)
  = ret (VObj (flat_map (copied primaryAttName input) (Set_from l))).
Proof.
  unfold extract_identifiers_of.
  rewrite (@foldM_pure _ _ _ (copy_step primaryAttName input)).
  - rewrite bind_ret. f_equal. f_equal.
    apply (copy_fold input l (S := [])). constructor.
  - intros ids [n b] Hin. apply in_map_iff in Hin.
    destruct Hin as [n' [Heq _]]. inversion Heq; subst n' b. clear Heq.
    unfold copy_step, copy_rule. simpl.
    destruct (hasOwnProperty input n); [reflexivity|].
    destruct (match primaryAttName with
              | Some p => n =? p
              | None => false
              end && hasOwnProperty input "id"); reflexivity.
Qed.
End ExtractFacts.

Lemma spec_identifiers_get (h : string -> string) (schema : EntitySchema)
  (context : ExtractEntityIdentifiersContext) (input : record) (k : string) :
  assoc_get k (spec_identifiers h schema context input)
  = if mem_string k (resolved_identifier_names h schema context)
    then copy_rule (getEntityPrimaryIdPropertyName schema) input k
    else None.
Proof.
  unfold spec_identifiers. rewrite copied_get by apply Set_from_NoDup.
  destruct (mem_string k (Set_from _)) eqn:E1;
    destruct (mem_string k (resolved_identifier_names _ _ _)) eqn:E2;
    try reflexivity.
  - apply mem_string_In in E1. rewrite Set_from_In in E1.
    apply mem_string_false in E2. contradiction.
  - apply mem_string_In in E2. apply mem_string_false in E1.
    exfalso. apply E1. now apply Set_from_In.
Qed.

(** On a record, and on an array of records, the extraction is the
    rule of the spec, without exception or warning. *)
Lemma extractEntityIdentifiers_on_records (h : string -> string)
  (schema : EntitySchema) (context : ExtractEntityIdentifiersContext) :
  indexes schema <> [] ->
  (forall input : record,
      extractEntityIdentifiers h schema (VObj input) context
      = ([], inr (VObj (spec_identifiers h schema context input))))
  /\ (forall inputs : list record,
         extractEntityIdentifiers h schema (VArr (map VObj inputs)) context
         = ([], inr (VArr (map (fun i => VObj (spec_identifiers h schema context i))
                             inputs)))).
Proof.
  intros Hne. split.
  - intros input. unfold extractEntityIdentifiers. simpl.
    rewrite identifierAttributes_resolved by assumption.
    rewrite bind_ret. simpl.
    rewrite extract_identifiers_of_record. rewrite !bind_ret. reflexivity.
  - intros inputs. unfold extractEntityIdentifiers. simpl.
    rewrite identifierAttributes_resolved by assumption.
    rewrite bind_ret.
    rewrite (@mapM_pure _ _ _
               (fun v => match v with
                         | VObj i => VObj (spec_identifiers h schema context i)
                         | _ => v
                         end)).
    + rewrite bind_ret, map_map. reflexivity.
    + intros x Hin. apply in_map_iff in Hin. destruct Hin as [i [<- _]].
      apply extract_identifiers_of_record.
Qed.

Lemma primary_identifier_found (schema : EntitySchema) (attName : string) :
  primary_identifier schema attName
  <-> getEntityPrimaryIdPropertyName schema = Some attName.
Proof.
  unfold primary_identifier, getEntityPrimaryIdPropertyName. split.
  - intros (before & att & after & -> & Hatt & Hbefore).
    rewrite (@find_first_match _ _ before after (attName, att));
      [reflexivity | exact Hbefore | exact Hatt].
  - destruct (find _ (attributes schema)) as [[k att]|] eqn:E; [|discriminate].
    intros [= <-]. apply find_first_split in E.
    destruct E as (before & after & Hl & Hb & Hx).
    exists before, att, after. repeat split; assumption.
Qed.

Lemma copied_keys (primaryAttName : option string) (input : record)
  (S : list string) :
  assoc_keys (flat_map (copied primaryAttName input) S)
  = filter (fun k => match copy_rule primaryAttName input k with
                     | Some _ => true
                     | None => false
                     end) S.
Proof.
  unfold assoc_keys. induction S as [|k S IH]; simpl; [reflexivity|].
  rewrite map_app, IH. unfold copied.
  now destruct (copy_rule primaryAttName input k).
Qed.

Lemma copied_none (primaryAttName : option string) (input : record)
  (S : list string) :
  (forall k, In k S -> copy_rule primaryAttName input k = None) ->
  flat_map (copied primaryAttName input) S = [].
Proof.
  induction S as [|k S IH]; intros H; simpl; [reflexivity|].
  unfold copied at 1. rewrite H by now left.
  apply IH. intros k' Hk'. apply H. now right.
Qed.

Lemma copied_single (primaryAttName : option string) (input : record)
  (S : list string) (k0 : string) (v : value) :
  NoDup S -> In k0 S ->
  copy_rule primaryAttName input k0 = Some v ->
  (forall k, In k S -> k <> k0 -> copy_rule primaryAttName input k = None) ->
  flat_map (copied primaryAttName input) S = [(k0, v)].
Proof.
  intros Hnd Hin Hv. induction S as [|k S IH]; intros Hothers; simpl;
    [contradiction|].
  inversion Hnd as [|? ? Hk Hnd']; subst. unfold copied at 1.
  destruct (String.eqb_spec k k0) as [->|Hne].
  - rewrite Hv. simpl. f_equal. apply copied_none.
    intros k' Hk'. apply Hothers; [now right|]. intros ->. contradiction.
  - rewrite Hothers; [|now left|exact Hne]. simpl.
    destruct Hin as [Heq|Hin]; [congruence|].
    apply IH; [exact Hnd'|exact Hin|].
    intros k' Hk' Hne'. apply Hothers; [now right|exact Hne'].
Qed.

(** C5, as the code has it.  For a schema with at least one index,
    [extractEntityIdentifiers] returns for an input record an object
    that holds, for a name of the resolved identifier set, the input's
    own member of that name; failing that, for the schema's primary
    identifier attribute and an input with an own [id], the input's
    [id]; and nothing else.  A batch is treated record by record.  In
    particular, when the primary identifier attribute is [entityId]
    and the identifier set holds [entityId] but neither [name] nor
    [id], the input [{name: "a", id: "123"}] gives
    [{entityId: "123"}]. *)
Theorem extractEntityIdentifiers_copies (h : string -> string)
  (schema : EntitySchema) (context : ExtractEntityIdentifiersContext) :
  indexes schema <> [] ->
  (forall input : record,
      exists identifiers,
        extractEntityIdentifiers h schema (VObj input) context
        = ([], inr (VObj identifiers))
        /\ NoDup (assoc_keys identifiers)
        /\ forall k,
            (In k (resolved_identifier_names h schema context) ->
             hasOwnProperty input k = true ->
             assoc_get k identifiers = Some (prop input k))
            /\ (In k (resolved_identifier_names h schema context) ->
                hasOwnProperty input k = false ->
                primary_identifier schema k ->
                hasOwnProperty input "id" = true ->
                assoc_get k identifiers = Some (prop input "id"))
            /\ (hasOwnProperty input k = false ->
                ~ (primary_identifier schema k
                   /\ hasOwnProperty input "id" = true) ->
                assoc_get k identifiers = None)
            /\ (~ In k (resolved_identifier_names h schema context) ->
                assoc_get k identifiers = None))
  /\ (forall inputs : list record,
         exists results,
           extractEntityIdentifiers h schema (VArr (map VObj inputs)) context
           = ([], inr (VArr results))
           /\ Forall2
                (fun input result =>
                   extractEntityIdentifiers h schema (VObj input) context
                   = ([], inr result))
                inputs results)
  /\ (primary_identifier schema "entityId" ->
      In "entityId" (resolved_identifier_names h schema context) ->
      ~ In "name" (resolved_identifier_names h schema context) ->
      ~ In "id" (resolved_identifier_names h schema context) ->
      extractEntityIdentifiers h schema
        (VObj [("name", VStr "a"); ("id", VStr "123")]) context
      = ([], inr (VObj [("entityId", VStr "123")]))).
Proof.
  intros Hne.
  destruct (extractEntityIdentifiers_on_records h schema context Hne)
    as [Hone Hbatch].
  split; [|split].
  - intros input. exists (spec_identifiers h schema context input).
    split; [apply Hone|]. split.
    + unfold spec_identifiers. rewrite copied_keys.
      apply NoDup_filter, Set_from_NoDup.
    + intros k. rewrite spec_identifiers_get. unfold copy_rule.
      repeat split.
      * intros Hin Hown. apply mem_string_In in Hin. now rewrite Hin, Hown.
      * intros Hin Hown Hprimary Hid. apply mem_string_In in Hin.
        apply primary_identifier_found in Hprimary.
        now rewrite Hin, Hown, Hprimary, String.eqb_refl, Hid.
      * intros Hown Hnot.
        destruct (mem_string k _); [|reflexivity]. rewrite Hown.
        destruct (getEntityPrimaryIdPropertyName schema) as [p|] eqn:Ep;
          [|reflexivity].
        destruct (String.eqb_spec k p) as [->|Hkp]; [|reflexivity].
        destruct (hasOwnProperty input "id") eqn:Eid; [|reflexivity].
        exfalso. apply Hnot. split; [|reflexivity].
        now apply primary_identifier_found.
      * intros Hnot. apply mem_string_false in Hnot. now rewrite Hnot.
  - intros inputs.
    exists (map (fun i => VObj (spec_identifiers h schema context i)) inputs).
    split; [apply Hbatch|].
    induction inputs as [|input inputs IH]; simpl; constructor;
      [apply Hone | exact IH].
  - intros Hprimary Hin Hname Hid. rewrite Hone. unfold spec_identifiers.
    apply primary_identifier_found in Hprimary. rewrite Hprimary.
    rewrite (@copied_single (Some "entityId")
               [("name", VStr "a"); ("id", VStr "123")]
               (Set_from (resolved_identifier_names h schema context))
               "entityId" (VStr "123")); [reflexivity|..].
    + apply Set_from_NoDup.
    + now apply Set_from_In.
    + reflexivity.
    + intros k Hk Hkne. rewrite Set_from_In in Hk.
      unfold copy_rule, hasOwnProperty. cbn [assoc_has].
      destruct (String.eqb_spec "name" k) as [<-|_]; [contradiction|].
      destruct (String.eqb_spec "id" k) as [<-|_]; [contradiction|].
      destruct (String.eqb_spec k "entityId") as [->|_]; [congruence|].
      reflexivity.
Qed.

(** The fallback on [LabelledSchema], whose primary identifier
    attribute, [entityId], is declared after [name], and whose
    identifier set is [{entityId}]. *)
Lemma extractEntityIdentifiers_copies_witness :
  (indexes LabelledSchema <> []
   /\ primary_identifier LabelledSchema "entityId"
   /\ resolved_identifier_names toHumanReadableName LabelledSchema no_context
      = ["entityId"])
  /\ extractEntityIdentifiers toHumanReadableName LabelledSchema
       (VObj [("name", VStr "a"); ("id", VStr "123")]) no_context
     = ([], inr (VObj [("entityId", VStr "123")])).
Proof.
  assert (Hne : indexes LabelledSchema <> []) by discriminate.
  assert (Hp : primary_identifier LabelledSchema "entityId").
  { exists [("name", string_attribute)], identifier_attribute, [].
    repeat split. intros e [<- | []]. reflexivity. }
  split; [split; [exact Hne | split; [exact Hp | reflexivity]]|].
  destruct (extractEntityIdentifiers_copies toHumanReadableName LabelledSchema
              no_context Hne) as (_ & _ & H).
  apply H; [exact Hp | now left | |];
    intros [H0 | []]; discriminate H0.
Defined.

(** C5 as stated fails: the primary identifier attribute of
    [NameKeySchema] is [entityId], and on the input
    [{name: "a", id: "123"}] the result is not [{entityId: "123"}]:
    [name] is the sort key of the index, so it belongs to the
    identifier set and is copied as well. *)
Lemma named_key_is_copied_too :
  getEntityPrimaryIdPropertyName NameKeySchema = Some "entityId"
  /\ extractEntityIdentifiers toHumanReadableName NameKeySchema
       (VObj [("name", VStr "a"); ("id", VStr "123")]) no_context
     = ([], inr (VObj [("entityId", VStr "123"); ("name", VStr "a")]))
  /\ extractEntityIdentifiers toHumanReadableName NameKeySchema
       (VObj [("name", VStr "a"); ("id", VStr "123")]) no_context
     <> ([], inr (VObj [("entityId", VStr "123")])).
Proof. repeat split. discriminate. Qed.

(* ------------------------------------------------------------------ *)
(** *** Errors and warnings of the extraction *)

Lemma bind_silent_on {A B : Type} (m : M A) (f : A -> M B) :
  trace m = [] ->
  (forall a, outcome m = inr a -> trace (f a) = []) ->
  trace (bind m f) = [].
Proof.
  destruct m as [t [e|a]]; simpl; intros -> Hf; [reflexivity|].
  specialize (Hf a eq_refl). destruct (f a). simpl in *. assumption.
Qed.

Lemma foldM_invariant {A B : Type} (P : A -> Prop) (f : A -> B -> M A)
  (l : list B) (a r : A) :
  P a ->
  (forall a x a', P a -> outcome (f a x) = inr a' -> P a') ->
  outcome (foldM f l a) = inr r -> P r.
Proof.
  intros Ha Hstep. revert a Ha. induction l as [|x l IH]; intros a Ha; simpl.
  - intros [= <-]. exact Ha.
  - destruct (f a x) as [t [e|a']] eqn:E; simpl; [discriminate|].
    intros H. apply (IH a').
    + apply (Hstep a x a' Ha). now rewrite E.
    + destruct (foldM f l a'). simpl in *. exact H.
Qed.

(** No entry of [identifierAttributes] is ever flagged required: the IO
    schema attributes it reads have no [required] member. *)
Lemma identifierAttributes_never_required (h : string -> string)
  (schema : EntitySchema) (context : ExtractEntityIdentifiersContext)
  (attrs : list (string * bool)) :
  outcome (identifierAttributes h schema context) = inr attrs ->
  Forall (fun a => snd a = false) attrs.
Proof.
  unfold identifierAttributes.
  apply (@foldM_invariant _ _ (Forall (fun a : string * bool => snd a = false))).
  - constructor.
  - intros acc [n v] acc' Hacc. simpl.
    destruct (pattern_selected context n); [|intros [= <-]; exact Hacc].
    destruct v as [m|]; simpl; [|discriminate].
    intros [= <-]. apply Forall_app. split; [exact Hacc|].
    apply Forall_forall. intros x Hx. apply in_map_iff in Hx.
    destruct Hx as [e [<- _]]. reflexivity.
Qed.

(** [extractEntityIdentifiers] never writes a warning, whatever the
    schema, the input and the context. *)
Lemma extractEntityIdentifiers_never_warns (h : string -> string)
  (schema : EntitySchema) (input : value)
  (context : ExtractEntityIdentifiersContext) :
  trace (extractEntityIdentifiers h schema input context) = [].
Proof.
  unfold extractEntityIdentifiers.
  destruct (negb (truthy input) || negb (typeof_object input)); [reflexivity|].
  apply bind_silent_on.
  - unfold identifierAttributes. apply foldM_silent.
    intros acc [n v] _. simpl.
    destruct (pattern_selected context n); [|reflexivity].
    now destruct v.
  - intros attrs Hattrs.
    apply identifierAttributes_never_required in Hattrs.
    apply bind_silent; [|reflexivity].
    apply mapM_silent. intros x _. unfold extract_identifiers_of.
    apply bind_silent; [|reflexivity].
    apply foldM_silent. intros ids a Ha.
    rewrite Forall_forall in Hattrs. specialize (Hattrs a Ha).
    destruct (own_property x (fst a)) as [[|]|]; try reflexivity.
    rewrite Hattrs.
    destruct (match getEntityPrimaryIdPropertyName schema with
              | Some p => fst a =? p
              | None => false
              end && match own_property x "id" with
                     | Some b => b
                     | None => false
                     end); reflexivity.
Qed.

(** The guard: an input that is missing or not an object is rejected
    with the [Error] of the guard; a record or an array of records is
    never rejected when the schema has an index. *)
Lemma extractEntityIdentifiers_throws (h : string -> string)
  (schema : EntitySchema) (context : ExtractEntityIdentifiersContext) :
  (forall input, object_shaped input = false ->
     exists message,
       extractEntityIdentifiers h schema input context
       = ([], inl (Error message)))
  /\ (indexes schema <> [] ->
      forall input, well_typed_input input ->
        object_shaped input = true
        /\ exists v, extractEntityIdentifiers h schema input context
                     = ([], inr v)
                     /\ isArray v = isArray input).
Proof.
  split.
  - intros input Hobj. unfold extractEntityIdentifiers.
    unfold object_shaped in Hobj.
    replace (negb (truthy input) || negb (typeof_object input)) with true.
    + eexists. reflexivity.
    + destruct (truthy input), (typeof_object input); simpl in *; congruence.
  - intros Hne input Hwt.
    destruct (extractEntityIdentifiers_on_records h schema context Hne)
      as (H1 & H2).
    destruct Hwt as [[o ->] | [os ->]].
    + split; [reflexivity|]. eexists. split; [apply H1 | reflexivity].
    + split; [reflexivity|]. eexists. split; [apply H2 | reflexivity].
Qed.

(** C6.  On [EntityIdSchema] the identifier attribute [entityId] is
    the partition key of the primary index and is marked required; for
    the input [{name: "a"}], which lacks it (and has no [id]), the
    extraction returns [{}] and the trace holds no warning. *)
Theorem extract_missing_required_logs_nothing :
  extractEntityIdentifiers humanize EntityIdSchema
    (VObj [("name", VStr "a")]) no_context
  = ([], inr (VObj []))
  /\ att_required (schema_attribute EntityIdSchema "entityId") = Some true
  /\ In "entityId" (resolved_identifier_names humanize EntityIdSchema no_context).
Proof. split; [reflexivity | split; [reflexivity | simpl; auto]]. Qed.

(* ================================================================== *)
(** ** Relation hydration *)
(* ================================================================== *)

Lemma NoDup_all_equal (l : list string) (s : string) :
  NoDup l -> (forall x, In x l -> x = s) -> In s l -> l = [s].
Proof.
  destruct l as [|a l]; simpl; [contradiction|].
  intros Hnd Hall _. assert (a = s) by (apply Hall; now left). subst a.
  f_equal. destruct l as [|b l]; [reflexivity|].
  assert (b = s) by (apply Hall; right; now left). subst b.
  inversion Hnd as [|? ? Hs _]; subst. exfalso. apply Hs. now left.
Qed.

Section Deduplication.
Variable batch : list record.
Hypothesis Hrt : Forall round_trips batch.

Lemma batch_round_trips (i : record) :
  In i batch -> JSON.parse (JSON.stringify_record i) = Some (VObj i).
Proof. intros Hi. exact (proj1 (Forall_forall _ _) Hrt i Hi). Qed.

Lemma text_of_batch (s : string) :
  In s (Set_from (map JSON.stringify_record batch)) ->
  exists i, In i batch /\ s = JSON.stringify_record i /\ parsed_record s = i.
Proof.
  rewrite Set_from_In. intros Hin.
  apply in_map_iff in Hin. destruct Hin as [i [<- Hi]].
  exists i. split; [assumption|]. split; [reflexivity|].
  unfold parsed_record. now rewrite (batch_round_trips i Hi).
Qed.

Lemma unique_identifiers_parsed :
  uniqueRelationIdentifiersBatch_of batch = ret (unique_identifiers batch).
Proof.
  unfold uniqueRelationIdentifiersBatch_of, unique_identifiers.
  apply mapM_pure. intros s Hs.
  destruct (text_of_batch s Hs) as [i [Hi [-> _]]].
  unfold parse_identifiers, parsed_record.
  now rewrite (batch_round_trips i Hi).
Qed.

Lemma unique_identifiers_serialized :
  map JSON.stringify_record (unique_identifiers batch) = (Set_from (map JSON.stringify_record batch)).
Proof.
  unfold unique_identifiers. rewrite map_map.
  rewrite <- (map_id (Set_from (map JSON.stringify_record batch))) at 2. apply map_ext_in.
  intros s Hs. destruct (text_of_batch s Hs) as [i [_ [-> ->]]].
  reflexivity.
Qed.

Lemma unique_identifiers_NoDup : NoDup (unique_identifiers batch).
Proof.
  apply (NoDup_map_inv JSON.stringify_record).
  rewrite unique_identifiers_serialized. apply Set_from_NoDup.
Qed.

Lemma unique_identifiers_In (i : record) :
  In i (unique_identifiers batch) <-> In i batch.
Proof.
  unfold unique_identifiers. rewrite in_map_iff. split.
  - intros [s [<- Hs]].
    destruct (text_of_batch s Hs) as [j [Hj [_ ->]]]. exact Hj.
  - intros Hi. exists (JSON.stringify_record i). split.
    + unfold parsed_record. now rewrite (batch_round_trips i Hi).
    + rewrite Set_from_In. now apply in_map.
Qed.

Lemma unique_identifiers_single :
  batch <> [] ->
  (forall i j, In i batch -> In j batch -> i = j) ->
  List.length (unique_identifiers batch) = 1%nat.
Proof.
  intros Hne Hall.
  assert (Hex : exists i0, In i0 batch).
  { generalize Hne. clear. destruct batch as [|i0 b]; [congruence|].
    intros _. exists i0. now left. }
  destruct Hex as [i0 Hi0].
  assert (Ht : Set_from (map JSON.stringify_record batch)
               = [JSON.stringify_record i0]).
  { apply NoDup_all_equal.
    - apply Set_from_NoDup.
    - intros s Hs. destruct (text_of_batch s Hs) as [j [Hj [-> _]]].
      f_equal. now apply Hall.
    - rewrite Set_from_In. now apply in_map. }
  unfold unique_identifiers. now rewrite Ht.
Qed.
End Deduplication.

Lemma parse_identifiers_silent (s : string) : trace (parse_identifiers s) = [].
Proof.
  unfold parse_identifiers.
  destruct (JSON.parse s) as [[]|]; reflexivity.
Qed.

Lemma bind_silent_trace {A B : Type} (m : M A) (f : A -> M B) :
  trace m = [] ->
  trace (bind m f) = match outcome m with
                     | inl _ => []
                     | inr a => trace (f a)
                     end.
Proof.
  destruct m as [t [e|a]]; simpl; intros ->; [reflexivity|].
  now destruct (f a).
Qed.

Lemma flat_map_snd_dictionary {A B : Type} (f : A -> list B) (l : list A) :
  flat_map snd (map (fun x => (x, f x)) l) = flat_map f l.
Proof.
  induction l as [|x l IH]; simpl; [reflexivity|]. now rewrite IH.
Qed.

Lemma no_relation_value_no_identifiers
  (identifierMappings : list RelationIdentifier)
  (relatedAttributeName : string) (roots : list record) :
  (forall r, In r roots ->
             prop r relatedAttributeName = VNull
             \/ prop r relatedAttributeName = VUndef) ->
  relationIdentifiersBatch_of identifierMappings relatedAttributeName roots = [].
Proof.
  unfold relationIdentifiersBatch_of.
  induction roots as [|r l IH]; intros H; simpl; [reflexivity|].
  rewrite IH by (intros; apply H; now right).
  rewrite app_nil_r. unfold identifiersBatch_of.
  destruct (H r (or_introl eq_refl)) as [-> | ->]; reflexivity.
Qed.

(** Never more than one fetch, whatever the arguments. *)
Lemma hydrateSingleRelation_at_most_one_fetch
  (reg : string -> option RelatedService) (schema : EntitySchema)
  (rootEntityRecords : list record) (relatedAttributeName : string)
  (options : record) :
  (count_get_calls
     (trace (hydrateSingleRelation reg schema rootEntityRecords
               relatedAttributeName options)) <= 1)%nat.
Proof.
  unfold hydrateSingleRelation.
  destruct (lookup_service reg (prop options "entityName")); [|simpl; lia].
  destruct (relation_metadata schema relatedAttributeName); [|simpl; lia].
  cbv zeta.
  rewrite bind_silent_trace
    by (apply mapM_silent; intros; apply parse_identifiers_silent).
  destruct (outcome (uniqueRelationIdentifiersBatch_of _)) as [e|u];
    [simpl; lia|].
  destruct u as [|first others]; [simpl; lia|].
  match goal with
  | |- context [lift ?r] => destruct r as [e|fetched]
  end; simpl; lia.
Qed.

(** The run, once the service and the relation are found and the
    batch is read back from its serialized form. *)
Lemma hydrateSingleRelation_run
  (reg : string -> option RelatedService) (schema : EntitySchema)
  (rootEntityRecords : list record) (relatedAttributeName : string)
  (options : record) (relatedEntityService : RelatedService)
  (relationMetadata : Relation) :
  lookup_service reg (prop options "entityName") = Some relatedEntityService ->
  relation_metadata schema relatedAttributeName = Some relationMetadata ->
  Forall round_trips
    (hydration_batch relationMetadata relatedEntityService
       relatedAttributeName rootEntityRecords) ->
  hydrateSingleRelation reg schema rootEntityRecords relatedAttributeName
    options
  = match unique_identifiers
            (hydration_batch relationMetadata relatedEntityService
               relatedAttributeName rootEntityRecords) with
    | [] => throw (TypeError "Cannot convert undefined or null to object")
    | _ :: _ =>
        ([GetCall (entity_name_text (prop options "entityName"))
            (unique_identifiers
               (hydration_batch relationMetadata relatedEntityService
                  relatedAttributeName rootEntityRecords))
            (prop (options_with_identifier_keys options
                     (unique_identifiers
                        (hydration_batch relationMetadata relatedEntityService
                           relatedAttributeName rootEntityRecords)))
               "attributes")],
         match rs_get relatedEntityService
                 (unique_identifiers
                    (hydration_batch relationMetadata relatedEntityService
                       relatedAttributeName rootEntityRecords))
                 (prop (options_with_identifier_keys options
                          (unique_identifiers
                             (hydration_batch relationMetadata
                                relatedEntityService relatedAttributeName
                                rootEntityRecords)))
                    "attributes") with
         | inl e => inl e
         | inr relatedEntities =>
             inr (map (fun entityData =>
                         merge_related relatedAttributeName relatedEntities
                           entityData
                           (identifiersBatch_of
                              (relation_mappings relationMetadata
                                 relatedEntityService)
                              relatedAttributeName entityData))
                    rootEntityRecords,
                  options_with_identifier_keys options
                    (unique_identifiers
                       (hydration_batch relationMetadata relatedEntityService
                          relatedAttributeName rootEntityRecords)))
         end)
    end.
Proof.
  intros Hservice Hrelation Hrt. unfold hydrateSingleRelation.
  rewrite Hservice, Hrelation. cbv zeta.
  change (identifierMappings_of relationMetadata
            (getEntityPrimaryIdPropertyName (rs_schema relatedEntityService)))
    with (relation_mappings relationMetadata relatedEntityService).
  rewrite flat_map_snd_dictionary.
  change (flat_map
            (identifiersBatch_of
               (relation_mappings relationMetadata relatedEntityService)
               relatedAttributeName) rootEntityRecords)
    with (hydration_batch relationMetadata relatedEntityService
            relatedAttributeName rootEntityRecords).
  rewrite (unique_identifiers_parsed Hrt), bind_ret.
  destruct (unique_identifiers
              (hydration_batch relationMetadata relatedEntityService
                 relatedAttributeName rootEntityRecords))
    as [|first others] eqn:Eu; [reflexivity|].
  unfold options_with_identifier_keys.
  match goal with
  | |- context [rs_get ?s ?u ?sel] => destruct (rs_get s u sel) as [e|fetched]
  end; simpl; [reflexivity|].
  do 2 f_equal. f_equal. rewrite map_map. reflexivity.
Qed.

Lemma bind_trace {A B : Type} (m : M A) (f : A -> M B) :
  trace (bind m f)
  = trace m ++ match outcome m with
               | inl _ => []
               | inr a => trace (f a)
               end.
Proof.
  destruct m as [t [e|a]]; simpl; [now rewrite app_nil_r|].
  now destruct (f a).
Qed.

Lemma count_get_calls_app (t1 t2 : list Event) :
  count_get_calls (t1 ++ t2) = (count_get_calls t1 + count_get_calls t2)%nat.
Proof.
  induction t1 as [|[] t1 IH]; simpl; auto.
Qed.

Lemma bind_outcome {A B : Type} (m : M A) (f : A -> M B) :
  outcome (bind m f)
  = match outcome m with
    | inl e => inl e
    | inr a => outcome (f a)
    end.
Proof.
  destruct m as [t [e|a]]; simpl; [reflexivity|]. now destruct (f a).
Qed.

(** A hydration fetches the entity that its options name. *)
Lemma hydrateSingleRelation_fetches_its_entity
  (reg : string -> option RelatedService) (schema : EntitySchema)
  (roots : list record) (relation : string * record) :
  fetches_its_entity relation
    (trace (hydrateSingleRelation reg schema roots (fst relation)
              (snd relation))).
Proof.
  split; [apply hydrateSingleRelation_at_most_one_fetch|].
  destruct relation as [name options]. cbn [fst snd].
  unfold hydrateSingleRelation.
  destruct (lookup_service reg (prop options "entityName"));
    [|simpl; contradiction].
  destruct (relation_metadata schema name);
    [|simpl; intros ? ? ? [H|[]]; discriminate H].
  cbv zeta.
  rewrite bind_silent_trace
    by (apply mapM_silent; intros; apply parse_identifiers_silent).
  destruct (outcome (uniqueRelationIdentifiersBatch_of _)) as [e|u];
    [simpl; contradiction|].
  destruct u as [|first others]; [simpl; contradiction|].
  match goal with
  | |- context [lift ?r] => destruct r as [e|fetched]
  end; simpl; intros ? ? ? [H|[]]; now inversion H.
Qed.

Lemma start_hydration_events (reg : string -> option RelatedService)
  (schema : EntitySchema) (started : Hydrations)
  (relation : string * record) :
  hy_events (start_hydration reg schema started relation)
  = hy_events started
    ++ trace (hydrateSingleRelation reg schema (hy_records started)
                (fst relation) (snd relation)).
Proof.
  unfold start_hydration. cbv zeta.
  now destruct (outcome (hydrateSingleRelation _ _ _ _ _)).
Qed.

(** The events of the hydrations are, relation by relation, those of
    each hydration. *)
Lemma hydrations_events (reg : string -> option RelatedService)
  (schema : EntitySchema) (relations : list (string * record))
  (started : Hydrations) :
  exists segments,
    hy_events (fold_left (start_hydration reg schema) relations started)
    = hy_events started ++ List.concat segments
    /\ Forall2 fetches_its_entity relations segments.
Proof.
  revert started. induction relations as [|relation relations IH];
    intros started; simpl.
  - exists []. split; [now rewrite app_nil_r | constructor].
  - destruct (IH (start_hydration reg schema started relation))
      as (segments & He & Hs).
    exists (trace (hydrateSingleRelation reg schema (hy_records started)
                     (fst relation) (snd relation)) :: segments).
    split.
    + rewrite He, start_hydration_events. simpl. now rewrite app_assoc.
    + constructor; [apply hydrateSingleRelation_fetches_its_entity|exact Hs].
Qed.

Lemma count_get_calls_concat (relations : list (string * record))
  (segments : list (list Event)) :
  Forall2 fetches_its_entity relations segments ->
  (count_get_calls (List.concat segments) <= List.length relations)%nat.
Proof.
  induction 1 as [|relation segment relations segments [H _] _ IH]; simpl;
    [lia|].
  rewrite count_get_calls_app. lia.
Qed.

(** A hydrate invocation fetches at most once per selected relation. *)
Lemma hydrateRecords_at_most_one_fetch_each
  (reg : string -> option RelatedService) (schema : EntitySchema)
  (relations : list (string * record)) (roots : list record) :
  (count_get_calls (trace (hydrateRecords reg schema relations roots))
   <= List.length relations)%nat.
Proof.
  unfold hydrateRecords. cbv zeta. cbn [trace fst].
  match goal with
  | |- context [fold_left _ relations ?st] =>
      destruct (hydrations_events reg schema relations st)
        as (segments & He & Hs)
  end.
  rewrite He. cbn [hy_events app].
  now apply count_get_calls_concat.
Qed.

(** The events of a hydrate invocation are, relation by relation, the
    events of the hydration of each relation. *)
Lemma hydrateRecords_segments
  (reg : string -> option RelatedService) (schema : EntitySchema)
  (relations : list (string * record)) (roots : list record) :
  exists segments,
    trace (hydrateRecords reg schema relations roots) = List.concat segments
    /\ Forall2 fetches_its_entity relations segments.
Proof.
  unfold hydrateRecords. cbv zeta. cbn [trace fst].
  match goal with
  | |- context [fold_left _ relations ?st] =>
      destruct (hydrations_events reg schema relations st)
        as (segments & He & Hs)
  end.
  exists segments. split; [exact He | exact Hs].
Qed.

Lemma first_of_none (a b : option exn) :
  first_of a b = None <-> a = None /\ b = None.
Proof. destruct a, b; simpl; intuition discriminate. Qed.

(** A rejection stays. *)
Lemma hydrations_rejection_stays (reg : string -> option RelatedService)
  (schema : EntitySchema) (relations : list (string * record))
  (started : Hydrations) :
  first_of (hy_thrown started) (hy_rejected started) <> None ->
  first_of (hy_thrown (fold_left (start_hydration reg schema) relations
                         started))
    (hy_rejected (fold_left (start_hydration reg schema) relations started))
  <> None.
Proof.
  revert started. induction relations as [|relation relations IH];
    intros started H; simpl; [exact H|].
  apply IH. unfold start_hydration. cbv zeta.
  destruct (outcome (hydrateSingleRelation _ _ _ _ _)) as [e|r]; simpl;
    [|exact H].
  destruct (fetching _); destruct (hy_thrown started), (hy_rejected started);
    simpl in *; congruence.
Qed.

(** When no hydration rejects, the records and the options are those
    of the hydrations run one after the other. *)
Lemma hydrations_completed (reg : string -> option RelatedService)
  (schema : EntitySchema) (relations : list (string * record))
  (started : Hydrations) :
  first_of (hy_thrown (fold_left (start_hydration reg schema) relations
                         started))
    (hy_rejected (fold_left (start_hydration reg schema) relations started))
  = None ->
  outcome
    (foldM
       (fun st relation =>
          bind (hydrateSingleRelation reg schema (fst st) (fst relation)
                  (snd relation))
            (fun r => ret (fst r, snd st ++ [(fst relation, snd r)])))
       relations (hy_records started, hy_options started))
  = inr (hy_records (fold_left (start_hydration reg schema) relations
                       started),
         hy_options (fold_left (start_hydration reg schema) relations
                       started)).
Proof.
  revert started. induction relations as [|relation relations IH];
    intros started H; simpl; [reflexivity|].
  simpl in H. rewrite bind_outcome, bind_outcome. cbn [fst snd].
  destruct (outcome (hydrateSingleRelation reg schema (hy_records started)
                       (fst relation) (snd relation))) as [e|r] eqn:E.
  - exfalso. revert H. apply hydrations_rejection_stays.
    unfold start_hydration. cbv zeta. rewrite E.
    destruct (fetching _); destruct (hy_thrown started), (hy_rejected started);
      simpl; congruence.
  - cbn [outcome ret snd].
    assert (Hs : start_hydration reg schema started relation
                 = {| hy_events :=
                        hy_events started
                        ++ trace (hydrateSingleRelation reg schema
                                    (hy_records started) (fst relation)
                                    (snd relation));
                      hy_thrown := hy_thrown started;
                      hy_rejected := hy_rejected started;
                      hy_records := fst r;
                      hy_options :=
                        hy_options started ++ [(fst relation, snd r)] |}).
    { unfold start_hydration. cbv zeta. now rewrite E. }
    rewrite Hs in H |- *. apply (IH _ H).
Qed.

(** A hydrate invocation that completes is the hydrations run one
    after the other. *)
Lemma hydrateRecords_completed (reg : string -> option RelatedService)
  (schema : EntitySchema) (relations : list (string * record))
  (roots : list record) (h : list record * list (string * record)) :
  outcome (hydrateRecords reg schema relations roots) = inr h ->
  outcome (hydrate_in_turn reg schema relations roots) = inr h.
Proof.
  unfold hydrateRecords, hydrate_in_turn. cbv zeta. cbn [outcome snd].
  match goal with
  | |- context [fold_left _ relations ?st] => set (started := st)
  end.
  destruct (first_of _ _) eqn:E; [discriminate|].
  intros [= <-].
  exact (hydrations_completed reg schema relations started E).
Qed.

(** C10.  When the related service is registered, the relation is
    declared and the relation attribute of every root record is [null]
    or absent, [hydrateSingleRelation] throws a [TypeError] (the keys of
    the first entry of an empty batch are read) before any fetch; the
    root records are not touched. *)
Theorem hydrate_empty_batch_throws
  (reg : string -> option RelatedService) (schema : EntitySchema)
  (roots : list record) (relatedAttributeName : string) (options : record)
  (relatedEntityService : RelatedService) (relationMetadata : Relation) :
  lookup_service reg (prop options "entityName") = Some relatedEntityService ->
  relation_metadata schema relatedAttributeName = Some relationMetadata ->
  (forall r, In r roots ->
             prop r relatedAttributeName = VNull
             \/ prop r relatedAttributeName = VUndef) ->
  hydrateSingleRelation reg schema roots relatedAttributeName options
  = ([], inl (TypeError "Cannot convert undefined or null to object")).
Proof.
  intros Hs Hr Hroots.
  assert (Hempty : hydration_batch relationMetadata relatedEntityService
                     relatedAttributeName roots = [])
    by (apply no_relation_value_no_identifiers; exact Hroots).
  rewrite (hydrateSingleRelation_run reg schema roots relatedAttributeName
             options Hs Hr); rewrite Hempty.
  - reflexivity.
  - constructor.
Qed.

(** Two orders without a customer. *)
Lemma hydrate_empty_batch_throws_witness :
  (forall r, In r roots_without_customer ->
             prop r "customer" = VNull \/ prop r "customer" = VUndef)
  /\ hydrateSingleRelation registry OrderSchema roots_without_customer
       "customer" customer_options
     = ([], inl (TypeError "Cannot convert undefined or null to object")).
Proof.
  assert (H : forall r, In r roots_without_customer ->
                        prop r "customer" = VNull \/ prop r "customer" = VUndef).
  { intros r [<- | [<- | []]]; [left | right]; reflexivity. }
  split; [exact H|].
  exact (hydrate_empty_batch_throws registry OrderSchema
           roots_without_customer "customer" customer_options
           (relatedEntityService := CustomerService)
           (relationMetadata := customer_relation) eq_refl eq_refl H).
Defined.

(** C7, as the code has it.  When the target entity's service is
    registered and the schema declares no relation for the selected
    attribute, [hydrateSingleRelation] writes one warning and returns:
    nothing is thrown, nothing is fetched, the root records and the
    options are as they were. *)
Theorem hydrate_unresolved_relation_warns
  (reg : string -> option RelatedService) (schema : EntitySchema)
  (roots : list record) (relatedAttributeName : string) (options : record)
  (relatedEntityService : RelatedService) :
  lookup_service reg (prop options "entityName") = Some relatedEntityService ->
  relation_metadata schema relatedAttributeName = None ->
  hydrateSingleRelation reg schema roots relatedAttributeName options
  = ([Warn ("No metadata found for relationship: " ++ relatedAttributeName)],
     inr (roots, options)).
Proof.
  intros Hs Hr. unfold hydrateSingleRelation. rewrite Hs, Hr. reflexivity.
Qed.

(** The attribute [id] of [OrderSchema] declares no relation. *)
Lemma hydrate_unresolved_relation_warns_witness :
  (lookup_service registry (prop customer_options "entityName")
   = Some CustomerService
   /\ relation_metadata OrderSchema "id" = None)
  /\ hydrateSingleRelation registry OrderSchema roots_with_relation "id"
       customer_options
     = ([Warn "No metadata found for relationship: id"],
        inr (roots_with_relation, customer_options)).
Proof.
  split; [split; reflexivity|].
  exact (hydrate_unresolved_relation_warns registry OrderSchema
           roots_with_relation "id" customer_options
           (relatedEntityService := CustomerService) eq_refl eq_refl).
Defined.

(** C7 as stated fails: a selection naming [tenantId], for which
    [OrderSchema] declares no relation, is processed to a normal return,
    not to an exception. *)
Lemma unresolved_relation_is_not_an_error :
  relation_metadata OrderSchema "tenantId" = None
  /\ outcome (hydrateSingleRelation registry OrderSchema roots_with_relation
                "tenantId" customer_options)
     = inr (roots_with_relation, customer_options).
Proof. split; reflexivity. Qed.

(** A hydration of one relation attribute never fetches more than
    once.  When the target entity's service is registered, the schema
    declares the relation, the relation values of the root records are
    JSON values and at least one identifier mapping is collected from
    them, the related service's [get] is called exactly once, with the
    batch deduplicated on its serialized form: no entry twice, the
    same identifier mappings as collected, first occurrences in order;
    when all root records reference one identifier mapping the batch
    has exactly one entry. *)
Lemma hydrate_fetches_once
  (reg : string -> option RelatedService) (schema : EntitySchema)
  (roots : list record) (relatedAttributeName : string) (options : record) :
  (count_get_calls
     (trace (hydrateSingleRelation reg schema roots relatedAttributeName
               options)) <= 1)%nat
  /\ forall (relatedEntityService : RelatedService)
            (relationMetadata : Relation),
      lookup_service reg (prop options "entityName")
      = Some relatedEntityService ->
      relation_metadata schema relatedAttributeName = Some relationMetadata ->
      let batch :=
        hydration_batch relationMetadata relatedEntityService
          relatedAttributeName roots in
      batch <> [] ->
      (forall r, In r roots -> json_or_absent (prop r relatedAttributeName)) ->
      exists unique selections,
        trace (hydrateSingleRelation reg schema roots relatedAttributeName
                 options)
        = [GetCall (entity_name_text (prop options "entityName"))
             unique selections]
        /\ NoDup unique
        /\ (forall i, In i unique <-> In i batch)
        /\ map JSON.stringify_record unique
           = Set_from (map JSON.stringify_record batch)
        /\ ((forall i j, In i batch -> In j batch -> i = j) ->
            List.length unique = 1%nat).
Proof.
  split; [apply hydrateSingleRelation_at_most_one_fetch|].
  intros svc rel Hs Hr batch Hne Hroots.
  assert (Hrt : Forall round_trips batch)
    by (apply json_roots_round_trip; exact Hroots).
  exists (unique_identifiers batch).
  exists (prop (options_with_identifier_keys options
                  (unique_identifiers batch)) "attributes").
  split; [|split; [|split; [|split]]].
  - rewrite (hydrateSingleRelation_run reg schema roots relatedAttributeName
               options Hs Hr Hrt).
    fold batch.
    destruct (unique_identifiers batch) as [|first others] eqn:Eu.
    + exfalso. destruct batch as [|i b] eqn:Eb; [congruence|].
      assert (Hin : In i (unique_identifiers (i :: b))).
      { apply unique_identifiers_In; [exact Hrt | now left]. }
      rewrite Eu in Hin. exact Hin.
    + reflexivity.
  - now apply unique_identifiers_NoDup.
  - intros i. now apply unique_identifiers_In.
  - now apply unique_identifiers_serialized.
  - intros Hall. now apply unique_identifiers_single.
Qed.

Lemma roots_with_relation_json :
  forall r, In r roots_with_relation -> json_or_absent (prop r "customer").
Proof.
  intros r [<- | [<- | [<- | []]]]; left; reflexivity.
Defined.

(** Three orders of two customers: one fetch of two identifiers. *)
Lemma hydrate_fetches_once_witness :
  (hydration_batch customer_relation CustomerService "customer"
     roots_with_relation <> []
   /\ forall r, In r roots_with_relation ->
                json_or_absent (prop r "customer"))
  /\ exists unique selections,
      trace (hydrateSingleRelation registry OrderSchema roots_with_relation
               "customer" customer_options)
      = [GetCall "Customer" unique selections]
      /\ NoDup unique
      /\ map JSON.stringify_record unique
         = Set_from (map JSON.stringify_record
                       [ [("id", VStr "c1")]; [("id", VStr "c1")];
                         [("id", VStr "c2")] ]).
Proof.
  assert (Hne : hydration_batch customer_relation CustomerService "customer"
                  roots_with_relation <> []) by discriminate.
  pose proof roots_with_relation_json as Hjs.
  split; [split; assumption|].
  destruct (hydrate_fetches_once registry OrderSchema roots_with_relation
              "customer" customer_options) as [_ H].
  destruct (H CustomerService customer_relation eq_refl eq_refl Hne Hjs)
    as (unique & selections & Ht & Hnd & _ & Hser & _).
  exists unique, selections. repeat split; assumption.
Defined.

(** The guards: with the service registered but no relation declared
    for the selected attribute the hydration returns without any
    fetch, and with the relation declared but no service registered it
    throws without any fetch. *)
Lemma hydrate_without_fetch :
  hydrateSingleRelation registry OrderSchema roots_with_relation "weight"
    customer_options
  = ([Warn "No metadata found for relationship: weight"],
     inr (roots_with_relation, customer_options))
  /\ count_get_calls
       (trace (hydrateSingleRelation registry OrderSchema roots_with_relation
                 "weight" customer_options)) = 0%nat
  /\ relation_metadata OrderSchema "customer" = Some customer_relation
  /\ count_get_calls
       (trace (hydrateSingleRelation (fun _ => None) OrderSchema
                 roots_with_relation "customer" customer_options)) = 0%nat.
Proof. repeat split. Qed.

(** C1.  A hydrate invocation on the relation attribute [customer] of
    [Order], with the [Customer] service registered, for two orders
    neither of which has a customer: no identifier is collected, the
    keys of the first entry of the empty batch are read, and the
    hydration throws a [TypeError] without calling the related
    service's [get], where one call is due; for three orders of two
    customers, and for three orders of one customer, there is one call,
    with each customer once. *)
Theorem hydrate_without_identifiers_never_fetches :
  (relation_metadata OrderSchema "customer" = Some customer_relation
   /\ lookup_service registry (prop customer_options "entityName")
      = Some CustomerService)
  /\ hydration_batch customer_relation CustomerService "customer"
       roots_without_customer = []
  /\ hydrateSingleRelation registry OrderSchema roots_without_customer
       "customer" customer_options
     = ([], inl (TypeError "Cannot convert undefined or null to object"))
  /\ hydrateRecords registry OrderSchema [("customer", customer_options)]
       roots_without_customer
     = ([], inl (TypeError "Cannot convert undefined or null to object"))
  /\ count_get_calls
       (trace (hydrateRecords registry OrderSchema
                 [("customer", customer_options)] roots_without_customer))
     = 0%nat
  /\ trace (hydrateRecords registry OrderSchema
              [("customer", customer_options)] roots_with_relation)
     = [GetCall "Customer" [ [("id", VStr "c1")]; [("id", VStr "c2")] ]
          (VArr [VStr "name"; VStr "id"])]
  /\ trace (hydrateRecords registry OrderSchema
              [("customer", customer_options)]
              [ [("id", VNum 1); ("customer", VStr "c1")];
                [("id", VNum 2); ("customer", VStr "c1")];
                [("id", VNum 3); ("customer", VStr "c1")] ])
     = [GetCall "Customer" [ [("id", VStr "c1")] ]
          (VArr [VStr "name"; VStr "id"])].
Proof.
  split; [split; reflexivity|].
  split; [reflexivity|].
  split; [reflexivity|].
  split; [reflexivity|].
  split; [reflexivity|].
  split; reflexivity.
Qed.

(* ------------------------------------------------------------------ *)
(** *** What a root record receives *)

Lemma identifiers_match_matches (identifiers relatedEntityData : record) :
  identifiers_match identifiers relatedEntityData = true
  <-> matches identifiers relatedEntityData.
Proof.
  unfold identifiers_match, matches. rewrite forallb_forall. split.
  - intros H t v Htv. specialize (H (t, v) Htv). simpl in H.
    now apply andb_prop in H.
  - intros H [t v] Htv. simpl. destruct (H t v Htv) as [-> ->]. reflexivity.
Qed.

(** [find] gives the first fetched record that matches, and
    [undefined] when none does. *)
Lemma find_related_received (relatedEntities : option (list record))
  (identifiers : record) :
  received relatedEntities identifiers
    (find_related relatedEntities identifiers).
Proof.
  unfold received, find_related.
  destruct relatedEntities as [fetched|]; [|reflexivity].
  destruct (find (identifiers_match identifiers) fetched) as [e|] eqn:E.
  - left. apply find_first_split in E.
    destruct E as (before & after & -> & Hb & He).
    exists before, e, after. split; [reflexivity|].
    split; [now apply identifiers_match_matches|]. split; [|reflexivity].
    intros e' He' Hm. apply identifiers_match_matches in Hm.
    rewrite (Hb e' He') in Hm. discriminate.
  - right. split; [|reflexivity]. intros e He Hm.
    apply identifiers_match_matches in Hm.
    pose proof (find_none _ _ E e He) as Hn. rewrite Hn in Hm. discriminate.
Qed.

Section IdentifierFold.
Variable val : RelationIdentifier -> value.

Lemma identifier_fold_keys (mappings : list RelationIdentifier)
  (acc : record) (t : string) :
  In t (assoc_keys
          (fold_left
             (fun (acc : record) m =>
                if truthy (val m) then assoc_set (target m) (val m) acc
                else acc)
             mappings acc))
  <-> In t (assoc_keys acc)
      \/ exists m, In m mappings /\ target m = t /\ truthy (val m) = true.
Proof.
  revert acc. induction mappings as [|m mappings IH]; intros acc; simpl.
  - split; [auto|]. intros [H | (m & [] & _)]. exact H.
  - rewrite IH. destruct (truthy (val m)) eqn:E.
    + rewrite assoc_keys_set, Set_add_In. split.
      * intros [[H | ->] | (m' & Hm' & Ht & Hv)].
        -- now left.
        -- right. exists m. auto.
        -- right. exists m'. auto.
      * intros [H | (m' & [<- | Hm'] & Ht & Hv)].
        -- left. now left.
        -- left. right. now symmetry.
        -- right. exists m'. auto.
    + split.
      * intros [H | (m' & Hm' & Ht & Hv)]; [now left|].
        right. exists m'. auto.
      * intros [H | (m' & [<- | Hm'] & Ht & Hv)]; [now left|congruence|].
        right. exists m'. auto.
Qed.

Lemma identifier_fold_values (mappings : list RelationIdentifier)
  (acc : record) (t : string) (v : value) :
  assoc_get t
    (fold_left
       (fun (acc : record) m =>
          if truthy (val m) then assoc_set (target m) (val m) acc else acc)
       mappings acc) = Some v ->
  assoc_get t acc = Some v
  \/ exists m, In m mappings /\ target m = t /\ v = val m /\ truthy v = true.
Proof.
  revert acc. induction mappings as [|m mappings IH]; intros acc; simpl;
    [auto|].
  intros H. apply IH in H. destruct H as [H | (m' & Hm' & Ht & Hv & Htr)].
  - destruct (truthy (val m)) eqn:E; [|now left].
    destruct (String.eqb_spec (target m) t) as [Heq|Hne].
    + subst t. rewrite assoc_get_set_same in H. injection H as <-.
      right. exists m. auto.
    + rewrite assoc_get_set_other in H by exact Hne. now left.
  - right. exists m'. auto.
Qed.

Lemma identifier_fold_NoDup (mappings : list RelationIdentifier)
  (acc : record) :
  NoDup (assoc_keys acc) ->
  NoDup (assoc_keys
           (fold_left
              (fun (acc : record) m =>
                 if truthy (val m) then assoc_set (target m) (val m) acc
                 else acc)
              mappings acc)).
Proof.
  revert acc. induction mappings as [|m mappings IH]; intros acc H; simpl;
    [exact H|].
  apply IH. destruct (truthy (val m)); [|exact H].
  rewrite assoc_keys_set. now apply Set_add_NoDup.
Qed.
End IdentifierFold.

(** The identifiers of a non-empty raw relation value. *)
Lemma identifiers_of_data_read (mappings : list RelationIdentifier)
  (raw : value) :
  truthy raw = true ->
  exists identifiers,
    identifiers_of_data mappings raw = Some identifiers
    /\ identifiers_read mappings raw identifiers.
Proof.
  intros Hraw. unfold identifiers_of_data. rewrite Hraw. cbn [negb].
  eexists. split; [reflexivity|].
  assert (Hval : forall m,
             (if isObject raw && true
              then getValueByPath raw (source m) else raw)
             = identifier_value raw m)
    by (intros m; destruct raw; reflexivity).
  match goal with
  | |- identifiers_read _ _ (fold_left ?f _ _) =>
      assert (Hf : forall ms acc,
                 fold_left f ms acc
                 = fold_left
                     (fun (acc : record) m =>
                        if truthy (identifier_value raw m)
                        then assoc_set (target m) (identifier_value raw m) acc
                        else acc) ms acc)
  end.
  { induction ms as [|m ms IH]; intros acc; simpl; [reflexivity|].
    cbv zeta. rewrite Hval. apply IH. }
  rewrite Hf. split; [|split].
  - apply identifier_fold_NoDup. constructor.
  - intros t. rewrite identifier_fold_keys. simpl. tauto.
  - intros t v Hv. apply identifier_fold_values in Hv.
    destruct Hv as [Hv | Hv]; [discriminate|exact Hv].
Qed.

Lemma identifiers_of_data_empty (mappings : list RelationIdentifier)
  (raw : value) :
  truthy raw = false -> identifiers_of_data mappings raw = None.
Proof. intros H. unfold identifiers_of_data. now rewrite H. Qed.

(** The related records of a sequence of raw relation values. *)
Lemma related_of_items (mappings : list RelationIdentifier)
  (relatedEntities : option (list record)) (items : list value) :
  Forall2
    (fun item v =>
       exists identifiers,
         identifiers_read mappings item identifiers
         /\ received relatedEntities identifiers v)
    (filter truthy items)
    (map (find_related relatedEntities)
       (defined_identifiers (map (identifiers_of_data mappings) items))).
Proof.
  induction items as [|item items IH]; simpl; [constructor|].
  destruct (truthy item) eqn:E.
  - destruct (identifiers_of_data_read mappings item E) as (i & -> & Hread).
    simpl. constructor; [|exact IH].
    exists i. split; [exact Hread | apply find_related_received].
  - now rewrite (identifiers_of_data_empty mappings item E).
Qed.

(** The assignment of the final loop, root record by root record. *)
Lemma merge_related_assigned (mappings : list RelationIdentifier)
  (relatedAttributeName : string) (relatedEntities : option (list record))
  (r : record) :
  related_assigned mappings relatedAttributeName relatedEntities r
    (merge_related relatedAttributeName relatedEntities r
       (identifiersBatch_of mappings relatedAttributeName r)).
Proof.
  unfold related_assigned. split.
  - intros k Hk. unfold merge_related. cbv zeta.
    destruct (negb _ && _); apply assoc_get_set_other; congruence.
  - unfold merge_related, identifiersBatch_of. cbv zeta.
    destruct (prop r relatedAttributeName) as [| |b|n|s|items|props] eqn:Ep;
      cbn [map isArray negb andb].
    1-5, 7:
      match goal with
      | |- context [identifiers_of_data ?ms ?raw] =>
          destruct (truthy raw) eqn:Et;
          [destruct (identifiers_of_data_read ms raw Et)
             as (i & Hi & Hread);
           rewrite Hi; cbn [map defined_identifiers List.length Nat.ltb
                              Nat.leb nth];
           unfold prop at 1; rewrite assoc_get_set_same;
           exists i; split; [exact Hread | apply find_related_received]
          |rewrite (identifiers_of_data_empty ms raw Et);
           cbn [map defined_identifiers List.length Nat.ltb Nat.leb];
           unfold prop; now rewrite assoc_get_set_same]
      end.
    eexists. split.
    + unfold prop at 1. rewrite assoc_get_set_same. reflexivity.
    + apply related_of_items.
Qed.

Lemma Forall2_map_right {A B : Type} (R : A -> B -> Prop) (f : A -> B)
  (l : list A) :
  (forall x, R x (f x)) -> Forall2 R l (map f l).
Proof. intros H. induction l; simpl; constructor; auto. Qed.

(** C4, as the code has it.  When the service is registered, the
    relation declared, the relation values of the root records JSON
    values, the batch not empty and the fetch answered, the hydration
    makes one fetch and leaves in every root record, on its relation
    attribute, what is found in the answer for the identifiers read
    from the raw value of that attribute: the first fetched record
    that owns every identifier attribute with a strictly equal value,
    [undefined] when there is none.  A raw value that is a sequence
    receives the sequence of what is found for each of its non-empty
    entries; a single non-empty value receives what is found for it; an
    empty value receives the empty sequence.  The identifiers of a raw
    value that is an object are read at the source paths of the
    mappings of the relation; a raw value that is not an object is
    itself the value of every identifier.  No other attribute of a
    root record changes. *)
Theorem hydrate_assigns_related
  (reg : string -> option RelatedService) (schema : EntitySchema)
  (roots : list record) (relatedAttributeName : string) (options : record)
  (relatedEntityService : RelatedService) (relationMetadata : Relation)
  (relatedEntities : option (list record)) :
  lookup_service reg (prop options "entityName") = Some relatedEntityService ->
  relation_metadata schema relatedAttributeName = Some relationMetadata ->
  let mappings := relation_mappings relationMetadata relatedEntityService in
  let batch :=
    hydration_batch relationMetadata relatedEntityService relatedAttributeName
      roots in
  let unique := unique_identifiers batch in
  let options' := options_with_identifier_keys options unique in
  batch <> [] ->
  (forall r, In r roots -> json_or_absent (prop r relatedAttributeName)) ->
  rs_get relatedEntityService unique (prop options' "attributes")
  = inr relatedEntities ->
  (exists hydrated,
      hydrateSingleRelation reg schema roots relatedAttributeName options
      = ([GetCall (entity_name_text (prop options "entityName")) unique
            (prop options' "attributes")],
         inr (hydrated, options'))
      /\ Forall2
           (related_assigned mappings relatedAttributeName relatedEntities)
           roots hydrated)
  /\ match rel_identifiers relationMetadata with
     | Some (ManyIdentifiers l) => mappings = l
     | Some (OneIdentifier i) => mappings = [i]
     | None =>
         forall p,
           primary_identifier (rs_schema relatedEntityService) p ->
           mappings = [{| source := p; target := p |}]
     end.
Proof.
  intros Hs Hr mappings batch unique options' Hne Hroots Hget.
  assert (Hrt : Forall round_trips batch)
    by (apply json_roots_round_trip; exact Hroots).
  split.
  - eexists. split.
    + rewrite (hydrateSingleRelation_run reg schema roots relatedAttributeName
                 options Hs Hr Hrt).
      fold mappings batch unique options'.
      destruct unique as [|first others] eqn:Eu.
      * exfalso. destruct batch as [|i b] eqn:Eb; [congruence|].
        assert (Hin : In i (unique_identifiers (i :: b))).
        { apply unique_identifiers_In; [exact Hrt | now left]. }
        unfold unique in Eu. rewrite Eu in Hin. exact Hin.
      * cbv zeta. rewrite Hget. reflexivity.
    + apply Forall2_map_right. intros r. apply merge_related_assigned.
  - unfold mappings, relation_mappings, identifierMappings_of.
    destruct (rel_identifiers relationMetadata) as [[i|l]|];
      try reflexivity.
    intros p Hp. apply primary_identifier_found in Hp. now rewrite Hp.
Qed.

Lemma roots_of_other_shapes_json :
  forall r, In r roots_of_other_shapes -> json_or_absent (prop r "customer").
Proof.
  intros r [<- | [<- | [<- | []]]]; [left | left | right]; reflexivity.
Defined.

(** The Order/Customer scenario with the identifiers held by the
    relation attribute: one fetch of [{id: "c1"}, {id: "c2"}], and the
    three orders receive Ann, Ann and Bob.  An order whose customer is
    the plain identifier ["c2"] receives Bob; one with a sequence of
    two customers, the second unknown, receives Ann and [undefined];
    one without customer receives the empty sequence. *)
Lemma hydrate_assigns_related_witness :
  (exists hydrated,
      hydrateSingleRelation registry OrderSchema roots_with_relation
        "customer" customer_options
      = ([GetCall "Customer" [ [("id", VStr "c1")]; [("id", VStr "c2")] ]
            (VArr [VStr "name"; VStr "id"])],
         inr (hydrated,
              [("entityName", VStr "Customer");
               ("attributes", VArr [VStr "name"; VStr "id"])]))
      /\ hydrated = [ [("id", VNum 1); ("customer", Ann)];
                      [("id", VNum 2); ("customer", Ann)];
                      [("id", VNum 3); ("customer", Bob)] ])
  /\ (exists hydrated,
         hydrateSingleRelation registry OrderSchema roots_of_other_shapes
           "customer" customer_options
         = ([GetCall "Customer"
               [ [("id", VStr "c2")]; [("id", VStr "c1")];
                 [("id", VStr "zz")] ]
               (VArr [VStr "name"; VStr "id"])],
            inr (hydrated,
                 [("entityName", VStr "Customer");
                  ("attributes", VArr [VStr "name"; VStr "id"])]))
         /\ hydrated = [ [("id", VNum 4); ("customer", Bob)];
                         [("id", VNum 5); ("customer", VArr [Ann; VUndef])];
                         [("id", VNum 6); ("customer", VArr [])] ]).
Proof.
  assert (Hne : hydration_batch customer_relation CustomerService "customer"
                  roots_with_relation <> []) by discriminate.
  assert (Hne' : hydration_batch customer_relation CustomerService "customer"
                   roots_of_other_shapes <> []) by discriminate.
  split.
  - destruct (hydrate_assigns_related registry OrderSchema roots_with_relation
                "customer" customer_options
                (relatedEntityService := CustomerService)
                (relationMetadata := customer_relation)
                (relatedEntities := Some customers)
                eq_refl eq_refl Hne roots_with_relation_json eq_refl)
      as [(hydrated & Hrun & _) _].
    exists hydrated. split; [exact Hrun|].
    assert (Hc : hydrateSingleRelation registry OrderSchema
                   roots_with_relation "customer" customer_options
                 = ([GetCall "Customer"
                       [ [("id", VStr "c1")]; [("id", VStr "c2")] ]
                       (VArr [VStr "name"; VStr "id"])],
                    inr ([ [("id", VNum 1); ("customer", Ann)];
                           [("id", VNum 2); ("customer", Ann)];
                           [("id", VNum 3); ("customer", Bob)] ],
                         [("entityName", VStr "Customer");
                          ("attributes", VArr [VStr "name"; VStr "id"])])))
      by reflexivity.
    rewrite Hc in Hrun. now injection Hrun.
  - destruct (hydrate_assigns_related registry OrderSchema
                roots_of_other_shapes "customer" customer_options
                (relatedEntityService := CustomerService)
                (relationMetadata := customer_relation)
                (relatedEntities := Some customers)
                eq_refl eq_refl Hne' roots_of_other_shapes_json eq_refl)
      as [(hydrated & Hrun & _) _].
    exists hydrated. split; [exact Hrun|].
    assert (Hc : hydrateSingleRelation registry OrderSchema
                   roots_of_other_shapes "customer" customer_options
                 = ([GetCall "Customer"
                       [ [("id", VStr "c2")]; [("id", VStr "c1")];
                         [("id", VStr "zz")] ]
                       (VArr [VStr "name"; VStr "id"])],
                    inr ([ [("id", VNum 4); ("customer", Bob)];
                           [("id", VNum 5);
                            ("customer", VArr [Ann; VUndef])];
                           [("id", VNum 6); ("customer", VArr [])] ],
                         [("entityName", VStr "Customer");
                          ("attributes", VArr [VStr "name"; VStr "id"])])))
      by reflexivity.
    rewrite Hc in Hrun. now injection Hrun.
Defined.

(** C4 as stated fails: on the root records as the spec lists them,
    whose relation attribute [customer] is absent, nothing is fetched
    and no record is assigned; the hydration throws. *)
Lemma spec_scenario_is_not_hydrated :
  hydrateSingleRelation registry OrderSchema roots_of_spec "customer"
    customer_options
  = ([], inl (TypeError "Cannot convert undefined or null to object")).
Proof. reflexivity. Qed.

(* ================================================================== *)
(** ** Search attributes in [list] and [query] *)
(* ================================================================== *)

(** The default searchable attributes: not hidden, not the identifier,
    of type string, and not flagged [isSearchable: false]. *)
Lemma searchable_attribute_names (schema : EntitySchema) (n : string) :
  In n (getSearchableAttributeNames schema)
  <-> exists att,
      In (n, att) (attributes schema)
      /\ flag_truthy (att_hidden att) = false
      /\ flag_truthy (att_isIdentifier att) = false
      /\ att_type att = Some "string"
      /\ att_isSearchable att <> Some false.
Proof.
  unfold getSearchableAttributeNames. rewrite in_map_iff. split.
  - intros [[k att] [<- Hin]]. apply filter_In in Hin.
    destruct Hin as [Hin Hf]. simpl in Hf.
    apply andb_prop in Hf. destruct Hf as [Hf Hs].
    apply andb_prop in Hf. destruct Hf as [Hf Ht].
    apply andb_prop in Hf. destruct Hf as [Hh Hi].
    exists att. simpl. split; [exact Hin|].
    split; [now apply negb_true_iff|].
    split; [now apply negb_true_iff|]. split.
    + unfold is_type in Ht. destruct (att_type att) as [t|]; [|discriminate].
      apply String.eqb_eq in Ht. now subst.
    + intros E. rewrite E in Hs. discriminate.
  - intros [att (Hin & Hh & Hi & Ht & Hs)]. exists (n, att).
    split; [reflexivity|]. apply filter_In. split; [exact Hin|]. simpl.
    rewrite Hh, Hi, Ht. simpl.
    destruct (att_isSearchable att) as [[|]|]; simpl; congruence.
Qed.

Section SearchFacts.
Variable makeFilterGroupForSearchKeywords :
  list string -> StringOrList -> value.
Variable addFilterGroupToEntityFilterCriteria :
  value -> option value -> value.
Variable schema : EntitySchema.

(** [list]: with a search of at least one term, the search attributes
    are the ones of the spec. *)
Lemma list_search_attributes (q : EntityQuery) (search : StringOrList) :
  q_search q = Some search ->
  present (Some search) = true ->
  split_search search <> [] ->
  q_searchAttributes
    (list_search makeFilterGroupForSearchKeywords
       addFilterGroupToEntityFilterCriteria schema q)
  = Some (AsList (spec_search_attributes schema (q_searchAttributes q))).
Proof.
  intros Hq Hp Hterms. unfold list_search. rewrite Hq, Hp.
  destruct (split_search search) as [|t ts] eqn:Et; [congruence|].
  destruct q as [a s0 sa f p]. cbv zeta. simpl.
  destruct sa as [[s|l]|]; simpl.
  - destruct (filter nonempty (split_comma s)); reflexivity.
  - destruct l; reflexivity.
  - reflexivity.
Qed.

(** [query]: what the caller supplied is kept as it is, unless it is
    missing or the empty text. *)
Lemma query_search_attributes (q : EntityQuery) (search : StringOrList) :
  q_search q = Some search ->
  present (Some search) = true ->
  split_search search <> [] ->
  q_searchAttributes
    (query_search makeFilterGroupForSearchKeywords
       addFilterGroupToEntityFilterCriteria schema q)
  = Some match q_searchAttributes q with
         | Some (AsString s) =>
             if nonempty s then AsString s
             else AsList (getSearchableAttributeNames schema)
         | Some (AsList l) => AsList l
         | None => AsList (getSearchableAttributeNames schema)
         end.
Proof.
  intros Hq Hp Hterms. unfold query_search. rewrite Hq, Hp.
  destruct (split_search search) as [|t ts] eqn:Et; [congruence|].
  destruct q as [a s0 sa f p]. cbv zeta. simpl.
  destruct sa as [[s|l]|]; simpl;
    [destruct (nonempty s)|..]; reflexivity.
Qed.
End SearchFacts.

(** C8.  [query] on [{search: "red", searchAttributes:
    "title,description"}] hands the persistence layer the text
    ["title,description"] as search attributes, and on [{search: "red",
    searchAttributes: []}] the empty set; [list], on the same queries,
    hands over the names [title], [description] and the searchable
    attributes of the schema. *)
Theorem query_search_attributes_not_parsed
  (h : string -> string) (reg : string -> option RelatedService)
  (parseEntityAttributePaths : list string -> record)
  (inferRelationshipsForEntitySelections : EntitySchema -> record -> record)
  (makeFilterGroupForSearchKeywords : list string -> StringOrList -> value)
  (addFilterGroupToEntityFilterCriteria : value -> option value -> value)
  (listEntity queryEntity : EntityQuery -> exn + EntityList)
  (selection_seen_by_caller : record -> record -> record)
  (schema : EntitySchema) :
  (exists q' rest,
      trace (svc_query h reg parseEntityAttributePaths
               inferRelationshipsForEntitySelections
               makeFilterGroupForSearchKeywords
               addFilterGroupToEntityFilterCriteria queryEntity
               selection_seen_by_caller schema
               red_query)
      = QueryEntityCall q' :: rest
      /\ q_searchAttributes q' = Some (AsString "title,description"))
  /\ (exists q' rest,
         trace (svc_query h reg parseEntityAttributePaths
                  inferRelationshipsForEntitySelections
                  makeFilterGroupForSearchKeywords
                  addFilterGroupToEntityFilterCriteria queryEntity
               selection_seen_by_caller schema
                  red_query_no_attributes)
         = QueryEntityCall q' :: rest
         /\ q_searchAttributes q' = Some (AsList []))
  /\ (exists q' rest,
         trace (svc_list h reg parseEntityAttributePaths
                  inferRelationshipsForEntitySelections
                  makeFilterGroupForSearchKeywords
                  addFilterGroupToEntityFilterCriteria listEntity schema
                  red_query)
         = ListEntityCall q' :: rest
         /\ q_searchAttributes q'
            = Some (AsList ["title"; "description"]))
  /\ (exists q' rest,
         trace (svc_list h reg parseEntityAttributePaths
                  inferRelationshipsForEntitySelections
                  makeFilterGroupForSearchKeywords
                  addFilterGroupToEntityFilterCriteria listEntity schema
                  red_query_no_attributes)
         = ListEntityCall q' :: rest
         /\ q_searchAttributes q'
            = Some (AsList (getSearchableAttributeNames schema))).
Proof.
  repeat split; unfold svc_query, svc_list; cbv zeta;
    rewrite bind_trace; simpl; eexists; eexists;
    (split; [reflexivity | reflexivity]).
Qed.

(* ================================================================== *)
(** ** The default selection of [list] *)
(* ================================================================== *)

Lemma assoc_keys_set_present {V : Type} (k : string) (v : V)
  (m : list (string * V)) :
  In k (assoc_keys m) -> assoc_keys (assoc_set k v m) = assoc_keys m.
Proof.
  intros Hin. rewrite assoc_keys_set. unfold Set_add.
  apply mem_string_In in Hin. now rewrite Hin.
Qed.

Lemma relationalAttributes_keys (tree : record) (n : string) :
  In n (map fst (relationalAttributes tree)) -> In n (assoc_keys tree).
Proof.
  unfold relationalAttributes, assoc_keys.
  induction tree as [|[k v] tree IH]; simpl; [tauto|].
  rewrite map_app, in_app_iff. intros [H | H]; [|right; now apply IH].
  destruct v; simpl in H; try contradiction.
  destruct H as [<- | []]. now left.
Qed.

Lemma selection_after_hydration_keys (relations : list (string * record))
  (tree : record) :
  (forall n, In n (map fst relations) -> In n (assoc_keys tree)) ->
  assoc_keys (selection_after_hydration tree relations) = assoc_keys tree.
Proof.
  unfold selection_after_hydration. revert tree.
  induction relations as [|[n o] relations IH]; intros tree H; simpl;
    [reflexivity|].
  assert (Hk : assoc_keys (assoc_set n (VObj o) tree) = assoc_keys tree).
  { apply assoc_keys_set_present. apply H. now left. }
  rewrite IH; [exact Hk|].
  intros n' Hn'. rewrite Hk. apply H. now right.
Qed.

Lemma selection_after_hydration_other (relations : list (string * record))
  (tree : record) (k : string) :
  ~ In k (map fst relations) ->
  assoc_get k (selection_after_hydration tree relations) = assoc_get k tree.
Proof.
  unfold selection_after_hydration. revert tree.
  induction relations as [|[n o] relations IH]; intros tree H; simpl;
    [reflexivity|].
  simpl in H. rewrite IH by tauto. apply assoc_get_set_other. tauto.
Qed.

(** The hydrated relations come back under their names, in order. *)
Lemma hydrateRecords_names (reg : string -> option RelatedService)
  (schema : EntitySchema) (relations : list (string * record))
  (roots : list record) (r : list record * list (string * record)) :
  outcome (hydrateRecords reg schema relations roots) = inr r ->
  map fst (snd r) = map fst relations.
Proof.
  assert (G : forall (rels : list (string * record))
                     (st r : list record * list (string * record)),
             outcome
               (foldM
                  (fun st relation =>
                     bind (hydrateSingleRelation reg schema (fst st)
                             (fst relation) (snd relation))
                       (fun r => ret (fst r, snd st ++ [(fst relation, snd r)])))
                  rels st) = inr r ->
             map fst (snd r) = map fst (snd st) ++ map fst rels).
  { induction rels as [|[n o] rels IH]; intros st r0; simpl.
    - intros [= <-]. now rewrite app_nil_r.
    - rewrite bind_outcome, bind_outcome.
      destruct (outcome (hydrateSingleRelation reg schema (fst st) n o))
        as [e|r1]; [discriminate|].
      simpl. intros H. apply IH in H. rewrite H. simpl.
      rewrite map_app. simpl. now rewrite <- app_assoc. }
  intros H. apply hydrateRecords_completed in H. apply G in H. exact H.
Qed.

Lemma hydrate_selected_outcome (reg : string -> option RelatedService)
  (schema : EntitySchema) (tree : record) (records records' : list record)
  (tree' : record) :
  outcome (hydrate_selected reg schema tree records) = inr (records', tree') ->
  assoc_keys tree' = assoc_keys tree
  /\ (forall k, ~ In k (map fst (relationalAttributes tree)) ->
        assoc_get k tree' = assoc_get k tree)
  /\ (relationalAttributes tree = [] -> tree' = tree /\ records' = records).
Proof.
  unfold hydrate_selected. cbv zeta.
  destruct (relationalAttributes tree) as [|rel rels] eqn:Er.
  - simpl. intros [= <- <-]. repeat split; reflexivity.
  - change (0 <? List.length (rel :: rels))%nat with true. cbv iota.
    rewrite bind_outcome.
    destruct (outcome (hydrateRecords reg schema (rel :: rels) records))
      as [e|hr] eqn:Eh; [discriminate|].
    simpl. intros [= <- <-].
    apply hydrateRecords_names in Eh.
    split; [|split].
    + apply selection_after_hydration_keys. intros n Hn.
      apply relationalAttributes_keys. rewrite Er, <- Eh. exact Hn.
    + intros k Hk. apply selection_after_hydration_other. now rewrite Eh.
    + discriminate.
Qed.

Lemma list_search_keeps_attributes
  (makeFilterGroupForSearchKeywords : list string -> StringOrList -> value)
  (addFilterGroupToEntityFilterCriteria : value -> option value -> value)
  (schema : EntitySchema) (q : EntityQuery) :
  q_attributes (list_search makeFilterGroupForSearchKeywords
                  addFilterGroupToEntityFilterCriteria schema q)
  = q_attributes q.
Proof.
  unfold list_search. destruct q as [a [s|] sa f p]; simpl; [|reflexivity].
  destruct (match s with AsString t => nonempty t | AsList _ => true end);
    [|reflexivity].
  destruct (0 <? List.length (split_search s))%nat; [|reflexivity].
  destruct sa as [[t|l]|]; reflexivity.
Qed.

(** The listing names: the attributes that are neither hidden nor
    flagged [isListable: false]. *)
Lemma listing_attribute_names (h : string -> string) (schema : EntitySchema)
  (n : string) :
  In n (getListingAttributeNames h schema)
  <-> exists att,
      In (n, att) (attributes schema)
      /\ flag_truthy (att_hidden att) = false
      /\ att_isListable att <> Some false.
Proof.
  unfold getListingAttributeNames, getOpsDefaultIOSchema,
    makeOpsDefaultIOSchema. cbv zeta. cbn [list_output].
  match goal with
  | |- context [fold_left (ops_attribute_step h) ?l ?a] =>
      destruct (ops_fold_projections h l a) as (_ & Hl & _ & _)
  end.
  cbv zeta in Hl. rewrite Hl. cbn [list_attributes].
  rewrite <- assoc_has_In, select_fold_has. cbn [assoc_has orb].
  rewrite existsb_exists. split.
  - intros [[k att] [Hin H]]. cbn [fst snd] in H.
    apply andb_prop in H. destruct H as [H Hli].
    apply andb_prop in H. destruct H as [Hk Hh].
    apply String.eqb_eq in Hk. subst k. exists att.
    split; [exact Hin|]. split; [now apply negb_true_iff|].
    destruct (formatted_flags h n att) as (_ & _ & Hl' & _).
    rewrite Hl' in Hli. intros E. rewrite E in Hli. discriminate.
  - intros (att & Hin & Hh & Hli). exists (n, att). split; [exact Hin|].
    cbn [fst snd]. rewrite String.eqb_refl, Hh.
    destruct (formatted_flags h n att) as (_ & _ & Hl' & _).
    rewrite Hl'. destruct (att_isListable att) as [[|]|]; simpl; congruence.
Qed.

Lemma with_attributes_same (q : EntityQuery) (a : option EntitySelections) :
  q_attributes q = a -> with_attributes a q = q.
Proof. destruct q. simpl. now intros ->. Qed.

(** The options that hydration leaves are the members of the selection
    it returns. *)
Lemma selection_after_hydration_get (relations : list (string * record))
  (tree : record) (k : string) (options : record) :
  NoDup (map fst relations) -> In (k, options) relations ->
  assoc_get k (selection_after_hydration tree relations)
  = Some (VObj options).
Proof.
  intros Hnd Hin. unfold selection_after_hydration.
  now apply (index_fold_get VObj).
Qed.

Lemma relationalAttributes_NoDup (tree : record) :
  NoDup (assoc_keys tree) -> NoDup (map fst (relationalAttributes tree)).
Proof.
  unfold relationalAttributes, assoc_keys.
  induction tree as [|[k v] tree IH]; simpl; intros H; [constructor|].
  inversion H as [|? ? Hk Hnd]; subst. rewrite map_app.
  destruct v; simpl; try now apply IH.
  constructor; [|now apply IH].
  intros Hin. apply Hk.
  exact (relationalAttributes_keys tree k Hin).
Qed.

(** C9.  When the query has no [attributes], [list] resolves the
    selection from [getListingAttributeNames()], the names of the
    attributes that are neither hidden nor flagged not listable,
    parsed and relation-inferred; the persistence layer is asked with
    that selection, and its rejection is the rejection of [list].
    When it answers, [list] returns the records cut to the keys of the
    selection, and the query it returns with them carries the
    selection: the very query the persistence layer was asked with
    when no entry of the selection bears relation options; otherwise,
    once the records are hydrated, that query with the selection as
    hydration leaves it: the same attribute names, every entry that
    bears no relation options unchanged, and the relation options as
    hydration leaves them.  A rejected hydration is the rejection of
    [list]. *)
Theorem list_default_attributes
  (h : string -> string) (reg : string -> option RelatedService)
  (parseEntityAttributePaths : list string -> record)
  (inferRelationshipsForEntitySelections : EntitySchema -> record -> record)
  (makeFilterGroupForSearchKeywords : list string -> StringOrList -> value)
  (addFilterGroupToEntityFilterCriteria : value -> option value -> value)
  (listEntity : EntityQuery -> exn + EntityList)
  (schema : EntitySchema) (q : EntityQuery) :
  q_attributes q = None ->
  let names := getListingAttributeNames h schema in
  let resolved :=
    inferRelationshipsForEntitySelections schema
      (parseEntityAttributePaths names) in
  let asked :=
    list_search makeFilterGroupForSearchKeywords
      addFilterGroupToEntityFilterCriteria schema
      (with_attributes (Some (SelectionTree resolved)) q) in
  let run :=
    svc_list h reg parseEntityAttributePaths
      inferRelationshipsForEntitySelections makeFilterGroupForSearchKeywords
      addFilterGroupToEntityFilterCriteria listEntity schema q in
  (forall n,
      In n names
      <-> exists att,
          In (n, att) (attributes schema)
          /\ flag_truthy (att_hidden att) = false
          /\ att_isListable att <> Some false)
  /\ q_attributes asked = Some (SelectionTree resolved)
  /\ (exists rest, trace run = ListEntityCall asked :: rest)
  /\ (forall e, listEntity asked = inl e ->
        run = ([ListEntityCall asked], inl e))
  /\ (forall entities,
        listEntity asked = inr entities ->
        let records :=
          map (fun r => pickKeys r (assoc_keys resolved))
            (el_data entities) in
        (relationalAttributes resolved = [] ->
         run = ([ListEntityCall asked],
                inr {| data := records;
                       rest := el_rest entities;
                       query := asked |}))
        /\ (relationalAttributes resolved <> [] ->
            forall hydrated,
              outcome (hydrateRecords reg schema
                         (relationalAttributes resolved) records)
              = inr hydrated ->
              exists tree,
                outcome run
                = inr {| data := fst hydrated;
                         rest := el_rest entities;
                         query :=
                           with_attributes (Some (SelectionTree tree))
                             asked |}
                /\ assoc_keys tree = assoc_keys resolved
                /\ (forall k,
                      ~ In k (map fst (relationalAttributes resolved)) ->
                      assoc_get k tree = assoc_get k resolved)
                /\ (NoDup (assoc_keys resolved) ->
                    forall k options,
                      In (k, options) (snd hydrated) ->
                      assoc_get k tree = Some (VObj options)))
        /\ (relationalAttributes resolved <> [] ->
            forall e,
              outcome (hydrateRecords reg schema
                         (relationalAttributes resolved) records)
              = inl e ->
              outcome run = inl e)).
Proof.
  intros Hq names resolved asked run.
  assert (Hasked : q_attributes asked = Some (SelectionTree resolved))
    by (unfold asked; now rewrite list_search_keeps_attributes).
  assert (Hrun : run
                 = bind (emit (ListEntityCall asked))
                     (fun _ =>
                        bind (lift (listEntity asked))
                          (fun entities =>
                             bind (hydrate_selected reg schema resolved
                                     (map (fun r =>
                                             pickKeys r (assoc_keys resolved))
                                        (el_data entities)))
                               (fun hr =>
                                  ret {| data := fst hr;
                                         rest := el_rest entities;
                                         query :=
                                           with_attributes
                                             (Some (SelectionTree (snd hr)))
                                             asked |})))).
  { unfold run, svc_list. rewrite Hq. reflexivity. }
  split; [apply listing_attribute_names|]. split; [exact Hasked|].
  split; [|split].
  - rewrite Hrun, bind_trace. cbn [trace emit fst app]. eexists. reflexivity.
  - intros e He. rewrite Hrun. unfold lift. rewrite He. reflexivity.
  - intros entities He records. subst records. rewrite Hrun. unfold lift.
    rewrite He. unfold hydrate_selected. cbv zeta.
    split; [|split].
    + intros Hrel. rewrite Hrel. cbn [List.length Nat.ltb Nat.leb].
      cbn [bind emit ret app fst snd].
      now rewrite (with_attributes_same asked Hasked).
    + intros Hrel hydrated Hh.
      destruct (relationalAttributes resolved) as [|rel rels] eqn:Er;
        [congruence|].
      change (0 <? List.length (rel :: rels))%nat with true. cbv iota.
      exists (selection_after_hydration resolved (snd hydrated)).
      pose proof (hydrateRecords_names _ _ _ _ Hh) as Hnames.
      split; [|split; [|split]].
      * rewrite !bind_outcome. cbn [outcome emit snd].
        rewrite !bind_outcome, Hh. reflexivity.
      * apply selection_after_hydration_keys. intros n Hn.
        apply relationalAttributes_keys. rewrite Er, <- Hnames. exact Hn.
      * intros k Hk. apply selection_after_hydration_other.
        now rewrite Hnames.
      * intros Hnd k options Hin.
        apply selection_after_hydration_get; [|exact Hin].
        rewrite Hnames, <- Er. now apply relationalAttributes_NoDup.
    + intros Hrel e Hh.
      destruct (relationalAttributes resolved) as [|rel rels] eqn:Er;
        [congruence|].
      change (0 <? List.length (rel :: rels))%nat with true. cbv iota.
      rewrite !bind_outcome. cbn [outcome emit snd].
      rewrite !bind_outcome, Hh. reflexivity.
Qed.

(** [list] with the empty query.  On [CustomerSchema], whose selection
    bears no relation: the two customers cut to [id] and [name], and a
    query that carries the selection [{id: true, name: true}].  On
    [OrderSchema], whose [customer] is inferred to be a relation: the
    three orders with their customers, and a query that carries the
    selection with the options of [customer] as hydration leaves
    them. *)
Lemma list_default_attributes_witness :
  q_attributes empty_query = None
  /\ svc_list toHumanReadableName registry leaves (fun _ t => t)
       (fun _ _ => VNull) (fun g _ => g) customers_store CustomerSchema
       empty_query
     = ([ListEntityCall
           (with_attributes
              (Some (SelectionTree [("id", VBool true); ("name", VBool true)]))
              empty_query)],
        inr {| data := [ [("id", VStr "c1"); ("name", VStr "Ann")];
                         [("id", VStr "c2"); ("name", VStr "Bob")] ];
               rest := [("cursor", VNull)];
               query :=
                 with_attributes
                   (Some (SelectionTree
                            [("id", VBool true); ("name", VBool true)]))
                   empty_query |})
  /\ exists result,
      outcome (svc_list toHumanReadableName registry leaves infer_customer
                 (fun _ _ => VNull) (fun g _ => g) orders_store OrderSchema
                 empty_query)
      = inr result
      /\ data result = [ [("id", VNum 1); ("customer", Ann)];
                         [("id", VNum 2); ("customer", Ann)];
                         [("id", VNum 3); ("customer", Bob)] ]
      /\ q_attributes (query result)
         = Some (SelectionTree
                   [("id", VBool true); ("tenantId", VBool true);
                    ("customer",
                     VObj [("entityName", VStr "Customer");
                           ("attributes", VArr [VStr "name"; VStr "id"])])]).
Proof.
  split; [reflexivity|]. split.
  - destruct (list_default_attributes toHumanReadableName registry leaves
                (fun _ t => t) (fun _ _ => VNull) (fun g _ => g)
                customers_store CustomerSchema empty_query eq_refl)
      as (_ & _ & _ & _ & H).
    destruct (H _ eq_refl) as [Hplain _].
    exact (Hplain eq_refl).
  - destruct (list_default_attributes toHumanReadableName registry leaves
                infer_customer (fun _ _ => VNull) (fun g _ => g)
                orders_store OrderSchema empty_query eq_refl)
      as (_ & _ & _ & _ & H).
    destruct (H _ eq_refl) as (_ & Hrel & _).
    destruct (Hrel ltac:(discriminate) _ eq_refl) as (tree & Hout & _).
    eexists. split; [exact Hout|].
    assert (Hc : outcome (svc_list toHumanReadableName registry leaves
                            infer_customer (fun _ _ => VNull) (fun g _ => g)
                            orders_store OrderSchema empty_query)
                 = inr {| data := [ [("id", VNum 1); ("customer", Ann)];
                                    [("id", VNum 2); ("customer", Ann)];
                                    [("id", VNum 3); ("customer", Bob)] ];
                          rest := [];
                          query :=
                            with_attributes
                              (Some (SelectionTree
                                       [("id", VBool true);
                                        ("tenantId", VBool true);
                                        ("customer",
                                         VObj [("entityName", VStr "Customer");
                                               ("attributes",
                                                VArr [VStr "name";
                                                      VStr "id"])])]))
                              empty_query |})
      by reflexivity.
    rewrite Hc in Hout. injection Hout as Hr. rewrite Hr.
    split; reflexivity.
Defined.

(* ================================================================== *)
(** ** Further properties of the entity service *)
(* ================================================================== *)

(** *** Attribute name lists *)

(** X2.  Every attribute searched by default is also offered for filtering,
    in a schema where no attribute is flagged [isFilterable: false]. *)
Theorem searchable_attributes_are_filterable (schema : EntitySchema) :
  (forall n att, In (n, att) (attributes schema) ->
                 att_isFilterable att <> Some false) ->
  incl (getSearchableAttributeNames schema)
       (getFilterableAttributeNames schema).
Proof.
  intros Hflag n Hn.
  unfold getSearchableAttributeNames in Hn.
  apply in_map_iff in Hn. destruct Hn as [[k att] [Hk Hin]].
  simpl in Hk. subst k. apply filter_In in Hin. destruct Hin as [Hin Hf].
  cbn [snd] in Hf.
  apply andb_prop in Hf. destruct Hf as [Hf _].
  apply andb_prop in Hf. destruct Hf as [Hf Ht].
  apply andb_prop in Hf. destruct Hf as [Hh _].
  unfold getFilterableAttributeNames. apply in_map_iff.
  exists (n, att). split; [reflexivity|]. apply filter_In.
  split; [exact Hin|]. cbn [snd]. rewrite Hh, Ht. simpl.
  specialize (Hflag n att Hin).
  destruct (att_isFilterable att) as [[|]|]; simpl; congruence.
Qed.

Lemma searchable_attributes_are_filterable_witness :
  (forall n att, In (n, att) (attributes OrderSchema) ->
                 att_isFilterable att <> Some false)
  /\ incl (getSearchableAttributeNames OrderSchema)
          (getFilterableAttributeNames OrderSchema).
Proof.
  assert (H : forall n att, In (n, att) (attributes OrderSchema) ->
                            att_isFilterable att <> Some false).
  { intros n att Hin. simpl in Hin.
    repeat (destruct Hin as [Hin | Hin];
            [inversion Hin; subst; discriminate|]).
    contradiction. }
  split; [exact H|].
  exact (searchable_attributes_are_filterable OrderSchema H).
Defined.

(** One derived set of the IO schema, when the attribute names are
    pairwise distinct: the selected attributes in declaration order. *)
Lemma select_fold_ordered (h : string -> string)
  (selected : IOSchemaAttribute -> bool)
  (l : list (string * EntityAttribute)) (m : TIOSchemaAttributesMap) :
  NoDup (assoc_keys m ++ assoc_keys l) ->
  fold_left (select_step h selected) l m
  = m ++ map (fun e => (fst e,
                        entityAttributeToIOSchemaAttribute h (fst e) (snd e)))
           (filter (fun e =>
                      negb (flag_truthy (att_hidden (snd e)))
                      && selected (entityAttributeToIOSchemaAttribute h
                                     (fst e) (snd e))) l).
Proof.
  revert m. induction l as [|e l IH]; intros m Hnd; simpl.
  - now rewrite app_nil_r.
  - assert (Hnd' : NoDup (assoc_keys m ++ assoc_keys l)).
    { simpl in Hnd. now apply NoDup_remove_1 in Hnd. }
    assert (Hfresh : assoc_has (fst e) m = false).
    { apply not_true_is_false. intros Hin. apply assoc_has_In in Hin.
      simpl in Hnd. apply NoDup_remove_2 in Hnd. apply Hnd.
      apply in_or_app. now left. }
    unfold select_step at 2. cbv zeta.
    rewrite (proj1 (formatted_flags h (fst e) (snd e))).
    destruct (flag_truthy (att_hidden (snd e))); simpl.
    + now apply IH.
    + destruct (selected (entityAttributeToIOSchemaAttribute h (fst e) (snd e))).
      * rewrite assoc_set_absent by exact Hfresh. rewrite IH.
        -- now rewrite <- app_assoc.
        -- unfold assoc_keys. rewrite map_app. simpl.
           rewrite <- app_assoc. simpl. exact Hnd.
      * now apply IH.
Qed.

(** X1.  With attribute names pairwise distinct, the default serialization
    names and the listing names are the names of the attributes that
    are not hidden and are visible, respectively listable, in the order
    in which the schema declares them. *)
Theorem attribute_names_in_declaration_order (h : string -> string)
  (schema : EntitySchema) :
  NoDup (assoc_keys (attributes schema)) ->
  getDefaultSerializationAttributeNames h schema
  = map fst (filter (fun e =>
                       negb (flag_truthy (att_hidden (snd e)))
                       && flag_default_true (att_isVisible (snd e)))
               (attributes schema))
  /\ getListingAttributeNames h schema
     = map fst (filter (fun e =>
                          negb (flag_truthy (att_hidden (snd e)))
                          && flag_default_true (att_isListable (snd e)))
                  (attributes schema)).
Proof.
  intros Hnd.
  unfold getDefaultSerializationAttributeNames, getListingAttributeNames,
    getOpsDefaultIOSchema, makeOpsDefaultIOSchema.
  cbv zeta. cbn [get_output list_output].
  destruct (ops_fold_projections h (attributes schema)
              {| create_attributes := []; update_attributes := [];
                 detail_attributes := []; list_attributes := [] |})
    as (Hd & Hl & _ & _).
  rewrite Hd, Hl. cbn [detail_attributes list_attributes].
  rewrite !select_fold_ordered by exact Hnd.
  unfold assoc_keys. rewrite !app_nil_l, !map_map. cbn [fst].
  split; f_equal; apply filter_ext; intros e;
    destruct (formatted_flags h (fst e) (snd e)) as (_ & Hv & Hli & _);
    [rewrite Hv | rewrite Hli]; reflexivity.
Qed.

Lemma attribute_names_in_declaration_order_witness :
  NoDup (assoc_keys (attributes OrderSchema))
  /\ getDefaultSerializationAttributeNames humanize OrderSchema
     = ["id"; "tenantId"; "weight"; "customer"]
  /\ getListingAttributeNames humanize OrderSchema
     = ["id"; "tenantId"; "customer"].
Proof.
  assert (H : NoDup (assoc_keys (attributes OrderSchema))).
  { simpl. repeat constructor; simpl; intuition discriminate. }
  split; [exact H|].
  exact (attribute_names_in_declaration_order humanize OrderSchema H).
Defined.

(* ------------------------------------------------------------------ *)
(** *** Edge cases of the identifier extraction *)

Lemma foldM_unchanged {A B : Type} (f : A -> B -> M A) (l : list B) (a : A) :
  (forall x, In x l -> f a x = ret a) -> foldM f l a = ret a.
Proof.
  induction l as [|x l IH]; intros H; simpl; [reflexivity|].
  rewrite H by now left. rewrite bind_ret. apply IH.
  intros y Hy. apply H. now right.
Qed.

(** The names of the access patterns: the index names and [primary]. *)
Lemma access_pattern_names (h : string -> string) (schema : EntitySchema)
  (n : string) :
  assoc_has n (makeEntityAccessPatternsSchema h schema)
  = assoc_has n (indexes schema) || (n =? "primary").
Proof.
  rewrite makeEntityAccessPatternsSchema_cases. cbv zeta.
  match goal with
  | |- context [fold_left ?f (indexes schema) ?z] =>
      set (ap0 := fold_left f (indexes schema) z)
  end.
  assert (H0 : forall k, assoc_has k ap0 = assoc_has k (indexes schema)).
  { intros k. unfold ap0.
    now rewrite (index_fold_has (fun i => Some (indexAttributes h schema i))). }
  destruct (assoc_has "primary" ap0) eqn:Ep.
  - rewrite H0. destruct (String.eqb_spec n "primary") as [->|Hne].
    + rewrite <- H0, Ep. reflexivity.
    + now rewrite orb_false_r.
  - rewrite assoc_has_set, H0, (String.eqb_sym "primary" n).
    now rewrite orb_comm.
Qed.

(** X5.  On a schema without indexes the access pattern [primary] is
    [undefined]: for every input that passes the guard, and every
    context that selects [primary] (none, or the name [primary]), the
    extraction throws a [TypeError]. *)
Theorem extract_without_index_throws (h : string -> string)
  (schema : EntitySchema) (input : value)
  (context : ExtractEntityIdentifiersContext) :
  indexes schema = [] ->
  object_shaped input = true ->
  pattern_selected context "primary" = true ->
  extractEntityIdentifiers h schema input context
  = ([], inl (TypeError "accessPatternAttributes is not iterable")).
Proof.
  intros Hix Hobj Hsel. unfold extractEntityIdentifiers.
  unfold object_shaped in Hobj. apply andb_prop in Hobj.
  destruct Hobj as [Ht Ho]. rewrite Ht, Ho. cbn [negb orb].
  unfold identifierAttributes, makeEntityAccessPatternsSchema.
  rewrite Hix. cbn [fold_left assoc_has negb first_value assoc_set foldM fst snd].
  rewrite Hsel. reflexivity.
Qed.

Lemma extract_without_index_throws_witness :
  (indexes NoIndexSchema = []
   /\ object_shaped (VObj [("id", VStr "n1")]) = true
   /\ pattern_selected no_context "primary" = true)
  /\ extractEntityIdentifiers humanize NoIndexSchema
       (VObj [("id", VStr "n1")]) no_context
     = ([], inl (TypeError "accessPatternAttributes is not iterable")).
Proof.
  split; [repeat split|].
  exact (extract_without_index_throws humanize NoIndexSchema
           (VObj [("id", VStr "n1")]) no_context eq_refl eq_refl eq_refl).
Defined.

(** X6.  A context naming an access pattern that the schema does not have
    (no index of that name, and not [primary]) selects no identifier
    attribute: the extraction returns [{}] for an object and one [{}]
    per element for an array, without error or warning. *)
Theorem extract_unknown_pattern_is_empty (h : string -> string)
  (schema : EntitySchema) (input : value)
  (context : ExtractEntityIdentifiersContext) (p : string) :
  forAccessPattern context = Some p ->
  p <> "" -> p <> "primary" ->
  assoc_has p (indexes schema) = false ->
  object_shaped input = true ->
  extractEntityIdentifiers h schema input context
  = ([], inr match input with
             | VArr l => VArr (map (fun _ => VObj []) l)
             | _ => VObj []
             end).
Proof.
  intros Hp Hne Hprim Hix Hobj. unfold extractEntityIdentifiers.
  unfold object_shaped in Hobj. apply andb_prop in Hobj.
  destruct Hobj as [Ht Ho]. rewrite Ht, Ho. cbn [negb orb].
  assert (Hattrs : identifierAttributes h schema context = ret []).
  { unfold identifierAttributes. apply foldM_unchanged.
    intros [n v] Hin. cbn [fst snd].
    assert (Hsel : pattern_selected context n = false).
    { unfold pattern_selected. rewrite Hp.
      assert (Hn : nonempty p = true).
      { unfold nonempty. apply negb_true_iff. now apply String.eqb_neq. }
      rewrite Hn. apply String.eqb_neq. intros ->.
      assert (Hhas : assoc_has p (makeEntityAccessPatternsSchema h schema)
                     = true).
      { apply assoc_has_In. unfold assoc_keys.
        apply in_map_iff. now exists (p, v). }
      rewrite access_pattern_names, Hix in Hhas.
      apply String.eqb_neq in Hprim. rewrite Hprim in Hhas. discriminate. }
    now rewrite Hsel. }
  rewrite Hattrs, bind_ret.
  rewrite (@mapM_pure _ _ _ (fun _ => VObj [])) by reflexivity.
  rewrite bind_ret.
  destruct input; try discriminate; reflexivity.
Qed.

Lemma extract_unknown_pattern_is_empty_witness :
  (forAccessPattern {| forAccessPattern := Some "byEmail" |} = Some "byEmail"
   /\ "byEmail" <> "" /\ "byEmail" <> "primary"
   /\ assoc_has "byEmail" (indexes OrderSchema) = false
   /\ object_shaped (VArr [VObj [("id", VNum 1)]; VNull]) = true)
  /\ extractEntityIdentifiers humanize OrderSchema
       (VArr [VObj [("id", VNum 1)]; VNull])
       {| forAccessPattern := Some "byEmail" |}
     = ([], inr (VArr [VObj []; VObj []])).
Proof.
  split; [repeat split; discriminate|].
  apply (extract_unknown_pattern_is_empty humanize OrderSchema
           (VArr [VObj [("id", VNum 1)]; VNull])
           {| forAccessPattern := Some "byEmail" |} (p := "byEmail"));
    [reflexivity | discriminate | discriminate | reflexivity | reflexivity].
Defined.

(* ------------------------------------------------------------------ *)
(** *** What hydration leaves alone *)

Lemma Forall2_same {A : Type} (R : A -> A -> Prop) (l : list A) :
  (forall x, R x x) -> Forall2 R l l.
Proof. intros H. induction l; constructor; auto. Qed.

Lemma Forall2_compose {A : Type} (R1 R2 R3 : A -> A -> Prop)
  (l1 l2 l3 : list A) :
  (forall x y z, R1 x y -> R2 y z -> R3 x z) ->
  Forall2 R1 l1 l2 -> Forall2 R2 l2 l3 -> Forall2 R3 l1 l3.
Proof.
  intros H H12. revert l3. induction H12 as [|x y l1 l2 Hxy _ IH];
    intros l3 H23; inversion H23; subst; constructor; eauto.
Qed.

Lemma merge_related_other (name : string) (entities : option (list record))
  (r : record) (batch : list record) (k : string) :
  k <> name -> prop (merge_related name entities r batch) k = prop r k.
Proof.
  intros Hk. unfold merge_related, prop. cbv zeta.
  destruct (negb (isArray _) && _);
    rewrite assoc_get_set_other by congruence; reflexivity.
Qed.

(** One hydration writes the relation attribute only. *)
Lemma hydrateSingleRelation_other (reg : string -> option RelatedService)
  (schema : EntitySchema) (roots : list record) (name : string)
  (options : record) (hydrated : list record * record) :
  outcome (hydrateSingleRelation reg schema roots name options)
  = inr hydrated ->
  Forall2 (fun r r' => forall k, k <> name -> prop r' k = prop r k)
    roots (fst hydrated).
Proof.
  unfold hydrateSingleRelation.
  destruct (lookup_service reg (prop options "entityName")) as [svc|];
    [|discriminate].
  destruct (relation_metadata schema name) as [rel|].
  - cbv zeta. rewrite bind_outcome.
    destruct (outcome (uniqueRelationIdentifiersBatch_of _)) as [e|u];
      [discriminate|].
    destruct u as [|first others]; [discriminate|].
    rewrite bind_outcome. cbn [outcome emit snd]. rewrite bind_outcome.
    cbn [outcome lift snd].
    match goal with
    | |- context [rs_get ?s ?u ?sel] => destruct (rs_get s u sel) as [e|fetched]
    end; [discriminate|].
    cbn [outcome ret snd]. intros [= <-]. cbn [fst].
    rewrite map_map. cbn [fst snd].
    induction roots as [|r roots IH]; simpl; constructor; [|exact IH].
    intros k Hk. now apply merge_related_other.
  - simpl. intros [= <-]. simpl. now apply Forall2_same.
Qed.

(** X8.  Hydration returns the root records in their number and order, and
    changes no attribute of a root record other than the hydrated
    relation attributes. *)
Theorem hydrateRecords_keeps_other_attributes
  (reg : string -> option RelatedService) (schema : EntitySchema)
  (relations : list (string * record)) (roots : list record)
  (hydrated : list record * list (string * record)) :
  outcome (hydrateRecords reg schema relations roots) = inr hydrated ->
  List.length (fst hydrated) = List.length roots
  /\ Forall2 (fun r r' => forall k, ~ In k (map fst relations) ->
                                    prop r' k = prop r k)
       roots (fst hydrated).
Proof.
  intros H.
  assert (G : forall (rels : list (string * record))
                     (st r : list record * list (string * record)),
             outcome
               (foldM
                  (fun st relation =>
                     bind (hydrateSingleRelation reg schema (fst st)
                             (fst relation) (snd relation))
                       (fun r => ret (fst r, snd st ++ [(fst relation, snd r)])))
                  rels st) = inr r ->
             Forall2 (fun a b => forall k, ~ In k (map fst rels) ->
                                           prop b k = prop a k)
               (fst st) (fst r)).
  { induction rels as [|[n o] rels IH]; intros st r0; simpl.
    - intros [= <-]. now apply Forall2_same.
    - rewrite bind_outcome, bind_outcome.
      destruct (outcome (hydrateSingleRelation reg schema (fst st) n o))
        as [e|r1] eqn:E1; [discriminate|].
      cbn [outcome ret snd]. intros Hrest.
      apply hydrateSingleRelation_other in E1. apply IH in Hrest.
      cbn [fst] in Hrest.
      eapply Forall2_compose; [|exact E1|exact Hrest].
      intros x y z Hxy Hyz k Hk. simpl in Hk.
      rewrite Hyz by tauto. apply Hxy. intros ->. tauto. }
  apply hydrateRecords_completed in H.
  apply G in H. cbn [fst] in H. split; [|exact H].
  symmetry. eapply Forall2_length. exact H.
Qed.

Lemma hydrateRecords_keeps_other_attributes_witness :
  exists hydrated,
    outcome (hydrateRecords registry OrderSchema
               [("customer", customer_options)] roots_with_relation)
    = inr hydrated
    /\ List.length (fst hydrated) = 3%nat
    /\ Forall2 (fun r r' => forall k, ~ In k ["customer"] ->
                                      prop r' k = prop r k)
         roots_with_relation (fst hydrated).
Proof.
  eexists. split; [reflexivity|].
  exact (hydrateRecords_keeps_other_attributes registry OrderSchema
           [("customer", customer_options)] roots_with_relation eq_refl).
Defined.

(** X9.  When the related service rejects the batched fetch, the hydration
    rejects with the same error after that one fetch. *)
Theorem hydrate_fetch_rejection_propagates
  (reg : string -> option RelatedService) (schema : EntitySchema)
  (roots : list record) (relatedAttributeName : string) (options : record)
  (relatedEntityService : RelatedService) (relationMetadata : Relation)
  (e : exn) :
  lookup_service reg (prop options "entityName") = Some relatedEntityService ->
  relation_metadata schema relatedAttributeName = Some relationMetadata ->
  let batch :=
    hydration_batch relationMetadata relatedEntityService relatedAttributeName
      roots in
  let unique := unique_identifiers batch in
  let options' := options_with_identifier_keys options unique in
  batch <> [] ->
  (forall r, In r roots -> json_or_absent (prop r relatedAttributeName)) ->
  rs_get relatedEntityService unique (prop options' "attributes") = inl e ->
  hydrateSingleRelation reg schema roots relatedAttributeName options
  = ([GetCall (entity_name_text (prop options "entityName")) unique
        (prop options' "attributes")],
     inl e).
Proof.
  intros Hs Hr batch unique options' Hne Hroots Hget.
  assert (Hrt : Forall round_trips batch)
    by (apply json_roots_round_trip; exact Hroots).
  rewrite (hydrateSingleRelation_run reg schema roots relatedAttributeName
             options Hs Hr Hrt).
  fold batch unique options'.
  destruct unique as [|first others] eqn:Eu.
  - exfalso. destruct batch as [|i b] eqn:Eb; [congruence|].
    assert (Hin : In i (unique_identifiers (i :: b))).
    { apply unique_identifiers_In; [exact Hrt | now left]. }
    unfold unique in Eu. rewrite Eu in Hin. exact Hin.
  - rewrite Hget. reflexivity.
Qed.

Lemma hydrate_fetch_rejection_propagates_witness :
  (hydration_batch customer_relation UnavailableCustomerService "customer"
     roots_with_relation <> []
   /\ forall r, In r roots_with_relation ->
                json_or_absent (prop r "customer"))
  /\ hydrateSingleRelation unavailable_registry OrderSchema
       roots_with_relation "customer" customer_options
     = ([GetCall "Customer" [ [("id", VStr "c1")]; [("id", VStr "c2")] ]
           (VArr [VStr "name"; VStr "id"])],
        inl (Error "Customer table is unavailable")).
Proof.
  assert (Hne : hydration_batch customer_relation UnavailableCustomerService
                  "customer" roots_with_relation <> []) by discriminate.
  split; [split; [exact Hne | exact roots_with_relation_json]|].
  exact (hydrate_fetch_rejection_propagates unavailable_registry OrderSchema
           roots_with_relation "customer" customer_options
           (relatedEntityService := UnavailableCustomerService)
           (relationMetadata := customer_relation)
           eq_refl eq_refl Hne roots_with_relation_json eq_refl).
Defined.

(* ------------------------------------------------------------------ *)
(** *** The search terms of [list] and [query] *)

Lemma string_forallb_app (p : ascii -> bool) (s t : string) :
  string_forallb p (s ++ t) = string_forallb p s && string_forallb p t.
Proof.
  induction s as [|c s IH]; simpl; [reflexivity|].
  now rewrite IH, andb_assoc.
Qed.

Lemma split_runs_clean (s : string) (in_run : bool) (acc : string) :
  string_forallb (fun c => negb (is_delimiter c)) acc = true ->
  Forall (fun t => string_forallb (fun c => negb (is_delimiter c)) t = true)
    (split_runs in_run acc s).
Proof.
  revert in_run acc. induction s as [|c s IH]; intros in_run acc Hacc; simpl.
  - constructor; [exact Hacc | constructor].
  - destruct (is_delimiter c) eqn:Ec.
    + destruct in_run; [|constructor; [exact Hacc|]]; now apply IH.
    + apply IH. rewrite string_forallb_app, Hacc. simpl. now rewrite Ec.
Qed.

(** X15.  Every search term that [list] and [query] derive from a search text
    is non-empty and holds none of the delimiters [&], space, [,] and
    [+]. *)
Theorem search_terms_are_clean (search : string) :
  Forall (fun t => t <> ""
                   /\ string_forallb (fun c => negb (is_delimiter c)) t = true)
    (search_terms search).
Proof.
  unfold search_terms. apply Forall_forall. intros t Ht.
  apply filter_In in Ht. destruct Ht as [Hin Hne]. split.
  - unfold nonempty in Hne. apply negb_true_iff in Hne.
    now apply String.eqb_neq.
  - pose proof (@split_runs_clean (trim search) false "" eq_refl) as H.
    rewrite Forall_forall in H. now apply H.
Qed.

Lemma trim_left_forallb (p : ascii -> bool) (s : string) :
  string_forallb p s = true -> string_forallb p (trim_left s) = true.
Proof.
  induction s as [|c s IH]; simpl; [reflexivity|]. intros H.
  destruct (is_space c); [|exact H].
  apply andb_prop in H. now apply IH.
Qed.

Lemma trim_right_forallb (p : ascii -> bool) (s : string) :
  string_forallb p s = true -> string_forallb p (trim_right s) = true.
Proof.
  induction s as [|c s IH]; simpl; [reflexivity|]. intros H.
  apply andb_prop in H. destruct H as [Hc Hs].
  destruct (is_space c && (trim_right s =? "")); [reflexivity|].
  simpl. rewrite Hc. now apply IH.
Qed.

Lemma split_runs_blank (s : string) (in_run : bool) :
  string_forallb is_delimiter s = true ->
  filter nonempty (split_runs in_run "" s) = [].
Proof.
  revert in_run. induction s as [|c s IH]; intros in_run H; simpl.
  - reflexivity.
  - apply andb_prop in H. destruct H as [Hc Hs]. rewrite Hc.
    destruct in_run; simpl; now apply IH.
Qed.

(** X16.  A search text made only of delimiters ([&], space, [,], [+]) has no
    term: [list] and [query] replace it by the empty list of terms and
    leave the filters and the search attributes as the caller gave
    them. *)
Theorem delimiter_only_search_adds_no_filter
  (makeFilterGroupForSearchKeywords : list string -> StringOrList -> value)
  (addFilterGroupToEntityFilterCriteria : value -> option value -> value)
  (schema : EntitySchema) (q : EntityQuery) (s : string) :
  q_search q = Some (AsString s) ->
  s <> "" ->
  string_forallb is_delimiter s = true ->
  search_terms s = []
  /\ list_search makeFilterGroupForSearchKeywords
       addFilterGroupToEntityFilterCriteria schema q
     = with_search (Some (AsList [])) q
  /\ query_search makeFilterGroupForSearchKeywords
       addFilterGroupToEntityFilterCriteria schema q
     = with_search (Some (AsList [])) q.
Proof.
  intros Hq Hne Hs.
  assert (Hterms : search_terms s = []).
  { unfold search_terms, trim. apply split_runs_blank.
    now apply trim_right_forallb, trim_left_forallb. }
  assert (Hp : nonempty s = true).
  { unfold nonempty. apply negb_true_iff. now apply String.eqb_neq. }
  split; [exact Hterms|].
  unfold list_search, query_search. rewrite Hq. cbn [present split_search].
  rewrite Hp, Hterms. split; reflexivity.
Qed.

Lemma delimiter_only_search_adds_no_filter_witness :
  (q_search blank_query = Some (AsString "&, +")
   /\ "&, +" <> ""
   /\ string_forallb is_delimiter "&, +" = true)
  /\ q_filters (list_search (fun _ _ => VNull) (fun g _ => g) CustomerSchema
                  blank_query) = None
  /\ q_search (list_search (fun _ _ => VNull) (fun g _ => g) CustomerSchema
                 blank_query) = Some (AsList []).
Proof.
  split; [repeat split; discriminate|].
  destruct (delimiter_only_search_adds_no_filter (fun _ _ => VNull)
              (fun g _ => g) CustomerSchema blank_query (s := "&, +")
              eq_refl ltac:(discriminate) eq_refl) as (_ & Hl & _).
  rewrite Hl. split; reflexivity.
Defined.

(** X17.  [list] and [query] treat the search alike when the caller gives no
    search attributes or a non-empty array of them. *)
Theorem list_and_query_search_agree
  (makeFilterGroupForSearchKeywords : list string -> StringOrList -> value)
  (addFilterGroupToEntityFilterCriteria : value -> option value -> value)
  (schema : EntitySchema) (q : EntityQuery) :
  q_searchAttributes q = None
  \/ (exists a l, q_searchAttributes q = Some (AsList (a :: l))) ->
  list_search makeFilterGroupForSearchKeywords
    addFilterGroupToEntityFilterCriteria schema q
  = query_search makeFilterGroupForSearchKeywords
      addFilterGroupToEntityFilterCriteria schema q.
Proof.
  intros H. unfold list_search, query_search.
  destruct q as [a [s|] sa f p]; cbn [q_search]; [|reflexivity].
  destruct (present (Some s)); [|reflexivity].
  destruct (0 <? List.length (split_search s))%nat; [|reflexivity].
  cbn [q_searchAttributes] in H.
  destruct H as [-> | (x & l & ->)]; reflexivity.
Qed.

Lemma list_and_query_search_agree_witness :
  (q_searchAttributes
     (with_searchAttributes (Some (AsList ["name"])) red_query)
   = None
   \/ exists a l,
       q_searchAttributes
         (with_searchAttributes (Some (AsList ["name"])) red_query)
       = Some (AsList (a :: l)))
  /\ list_search (fun _ _ => VNull) (fun g _ => g) CustomerSchema
       (with_searchAttributes (Some (AsList ["name"])) red_query)
     = query_search (fun _ _ => VNull) (fun g _ => g) CustomerSchema
         (with_searchAttributes (Some (AsList ["name"])) red_query).
Proof.
  assert (H : q_searchAttributes
                (with_searchAttributes (Some (AsList ["name"])) red_query)
              = None
              \/ exists a l,
                  q_searchAttributes
                    (with_searchAttributes (Some (AsList ["name"])) red_query)
                  = Some (AsList (a :: l))).
  { right. exists "name", []. reflexivity. }
  split; [exact H|].
  exact (list_and_query_search_agree (fun _ _ => VNull) (fun g _ => g)
           CustomerSchema
           (with_searchAttributes (Some (AsList ["name"])) red_query) H).
Defined.

(* ------------------------------------------------------------------ *)
(** *** Failures and returned queries of [list] and [query] *)

(** X18.  When the persistence layer rejects, [list] and [query] reject with
    the same error, having asked it once and fetched no related
    entity. *)
Theorem list_and_query_rejection_propagates
  (h : string -> string) (reg : string -> option RelatedService)
  (parseEntityAttributePaths : list string -> record)
  (inferRelationshipsForEntitySelections : EntitySchema -> record -> record)
  (makeFilterGroupForSearchKeywords : list string -> StringOrList -> value)
  (addFilterGroupToEntityFilterCriteria : value -> option value -> value)
  (listEntity queryEntity : EntityQuery -> exn + EntityList)
  (selection_seen_by_caller : record -> record -> record)
  (schema : EntitySchema) (q : EntityQuery) (e : exn) :
  (forall q', listEntity q' = inl e) ->
  (forall q', queryEntity q' = inl e) ->
  (exists q',
      svc_list h reg parseEntityAttributePaths
        inferRelationshipsForEntitySelections makeFilterGroupForSearchKeywords
        addFilterGroupToEntityFilterCriteria listEntity schema q
      = ([ListEntityCall q'], inl e))
  /\ (exists q',
         svc_query h reg parseEntityAttributePaths
           inferRelationshipsForEntitySelections
           makeFilterGroupForSearchKeywords
           addFilterGroupToEntityFilterCriteria queryEntity
               selection_seen_by_caller schema q
         = ([QueryEntityCall q'], inl e)).
Proof.
  intros Hl Hq. split; eexists.
  - unfold svc_list. cbv zeta. rewrite Hl. reflexivity.
  - unfold svc_query. cbv zeta. rewrite Hq. reflexivity.
Qed.

Lemma list_and_query_rejection_propagates_witness :
  exists q',
    svc_list humanize registry leaves (fun _ t => t) (fun _ _ => VNull)
      (fun g _ => g) (fun _ => inl (Error "table not found")) CustomerSchema
      empty_query
    = ([ListEntityCall q'], inl (Error "table not found")).
Proof.
  exact (proj1 (list_and_query_rejection_propagates humanize registry leaves
                  (fun _ t => t) (fun _ _ => VNull) (fun g _ => g)
                  (fun _ => inl (Error "table not found"))
                  (fun _ => inl (Error "table not found"))
                  (fun t _ => t) CustomerSchema empty_query
                  (e := Error "table not found")
                  (fun _ => eq_refl) (fun _ => eq_refl))).
Defined.

Lemma query_search_keeps_attributes
  (makeFilterGroupForSearchKeywords : list string -> StringOrList -> value)
  (addFilterGroupToEntityFilterCriteria : value -> option value -> value)
  (schema : EntitySchema) (q : EntityQuery) :
  q_attributes (query_search makeFilterGroupForSearchKeywords
                  addFilterGroupToEntityFilterCriteria schema q)
  = q_attributes q.
Proof.
  unfold query_search. destruct q as [a [s|] sa f p]; simpl; [|reflexivity].
  destruct (match s with AsString t => nonempty t | AsList _ => true end);
    [|reflexivity].
  destruct (0 <? List.length (split_search s))%nat; [|reflexivity].
  destruct sa as [[t|l]|]; simpl; [destruct (nonempty t)|..]; reflexivity.
Qed.

(** X19.  Called without [attributes], [query] resolves the default selection
    for its own use only: the query it returns with the data, which is
    the query the persistence layer was asked with, still has no
    [attributes]. *)
Theorem query_returns_no_default_attributes
  (h : string -> string) (reg : string -> option RelatedService)
  (parseEntityAttributePaths : list string -> record)
  (inferRelationshipsForEntitySelections : EntitySchema -> record -> record)
  (makeFilterGroupForSearchKeywords : list string -> StringOrList -> value)
  (addFilterGroupToEntityFilterCriteria : value -> option value -> value)
  (queryEntity : EntityQuery -> exn + EntityList)
  (selection_seen_by_caller : record -> record -> record)
  (schema : EntitySchema) (q : EntityQuery) (result : ListResult) :
  q_attributes q = None ->
  outcome (svc_query h reg parseEntityAttributePaths
             inferRelationshipsForEntitySelections
             makeFilterGroupForSearchKeywords
             addFilterGroupToEntityFilterCriteria queryEntity
               selection_seen_by_caller schema q)
  = inr result ->
  q_attributes (query result) = None
  /\ exists rest,
      trace (svc_query h reg parseEntityAttributePaths
               inferRelationshipsForEntitySelections
               makeFilterGroupForSearchKeywords
               addFilterGroupToEntityFilterCriteria queryEntity
               selection_seen_by_caller schema q)
      = QueryEntityCall (query result) :: rest.
Proof.
  intros Hq. unfold svc_query. cbv zeta.
  rewrite bind_outcome. cbn [outcome emit snd].
  rewrite bind_outcome. cbn [outcome lift snd].
  rewrite bind_trace. cbn [trace emit fst outcome snd app].
  destruct (queryEntity _) as [e|entities]; [discriminate|].
  rewrite bind_outcome.
  match goal with
  | |- context [outcome (hydrate_selected ?r ?s ?t ?recs)] =>
      destruct (outcome (hydrate_selected r s t recs)) as [e|hr];
        [discriminate|]
  end.
  cbn [outcome ret snd]. rewrite query_search_keeps_attributes, Hq.
  intros [= <-]. cbn [query].
  split; [now rewrite query_search_keeps_attributes|].
  eexists. reflexivity.
Qed.

Lemma query_returns_no_default_attributes_witness :
  exists result,
    q_attributes empty_query = None
    /\ outcome (svc_query humanize registry leaves (fun _ t => t)
                  (fun _ _ => VNull) (fun g _ => g) no_records
                  (fun t _ => t) CustomerSchema empty_query)
       = inr result
    /\ q_attributes (query result) = None.
Proof.
  eexists. split; [reflexivity|]. split; [reflexivity|].
  exact (proj1 (query_returns_no_default_attributes humanize registry leaves
                  (fun _ t => t) (fun _ _ => VNull) (fun g _ => g)
                  no_records (fun t _ => t) CustomerSchema empty_query
                  eq_refl eq_refl)).
Defined.

(* ------------------------------------------------------------------ *)
(** *** [get] *)

Lemma top_key_of_silent (identifier : value) :
  trace (top_key_of identifier) = [].
Proof.
  unfold top_key_of. destruct (nullish identifier); [reflexivity|].
  destruct (member identifier "source"); try reflexivity.
  now destruct (nullish _).
Qed.

Lemma requiredSelectAttributes_silent (tree : record) :
  trace (requiredSelectAttributes tree) = [].
Proof.
  unfold requiredSelectAttributes. apply foldM_silent.
  intros acc entry _. cbv zeta.
  destruct (isObject (snd entry) && truthy (member (snd entry) "identifiers"));
    [|reflexivity].
  apply bind_silent; [|reflexivity].
  unfold identifier_top_keys. apply bind_silent; [|reflexivity].
  apply mapM_silent. intros x _. apply top_key_of_silent.
Qed.

Lemma requiredSelectAttributes_run (tree : record) (names : list string) :
  outcome (requiredSelectAttributes tree) = inr names ->
  requiredSelectAttributes tree = ret names.
Proof.
  intros H. pose proof (requiredSelectAttributes_silent tree) as Ht.
  destruct (requiredSelectAttributes tree) as [t o]. simpl in *.
  now subst.
Qed.






Lemma requiredSelectAttributes_no_relation (tree : record) :
  relationalAttributes tree = [] ->
  requiredSelectAttributes tree = ret (assoc_keys tree).
Proof.
  unfold requiredSelectAttributes.
  assert (G : forall acc : list string,
             relationalAttributes tree = [] ->
             foldM
               (fun acc entry =>
                  let attName := fst entry in
                  let options := snd entry in
                  let acc := acc ++ [attName] in
                  if isObject options && truthy (member options "identifiers")
                  then
                    bind (identifier_top_keys (member options "identifiers"))
                      (fun topKeys => ret (acc ++ topKeys))
                  else ret acc)
               tree acc
             = ret (acc ++ assoc_keys tree)).
  { induction tree as [|[a o] tree IH]; intros acc Hrel; simpl.
    - now rewrite app_nil_r.
    - unfold relationalAttributes in Hrel. simpl in Hrel.
      apply app_eq_nil in Hrel. destruct Hrel as [Ho Hrel].
      assert (Eo : isObject o = false)
        by (destruct o; try reflexivity; discriminate).
      rewrite Eo. cbn [andb]. rewrite bind_ret.
      rewrite (IH _ Hrel). now rewrite <- app_assoc. }
  intros Hrel. exact (G [] Hrel).
Qed.

(** X12.  With a selection that has no relation entry, [get] asks the
    persistence layer for exactly the selected attribute names, fetches
    no related entity, and returns the record as the persistence layer
    gave it, not cut to the selection; it returns no record when
    nothing is found, and rejects when the persistence layer does. *)
Theorem get_without_relations
  (h : string -> string) (reg : string -> option RelatedService)
  (parseEntityAttributePaths : list string -> record)
  (inferRelationshipsForEntitySelections : EntitySchema -> record -> record)
  (getEntity : value -> list string -> exn + option EntityResponse)
  (schema : EntitySchema) (identifiers : value)
  (selections : option EntitySelections) :
  let tree :=
    get_selection h parseEntityAttributePaths
      inferRelationshipsForEntitySelections schema selections in
  relationalAttributes tree = [] ->
  svc_get h reg parseEntityAttributePaths
    inferRelationshipsForEntitySelections getEntity schema identifiers
    selections
  = ([], match getEntity identifiers (Set_from (assoc_keys tree)) with
         | inl e => inl e
         | inr (Some {| er_data := Some entityData |}) =>
             inr (Some entityData)
         | inr _ => inr None
         end).
Proof.
  intros tree Hrel. unfold svc_get. cbv zeta. fold tree.
  rewrite (requiredSelectAttributes_no_relation tree Hrel), bind_ret.
  destruct (getEntity identifiers (Set_from (assoc_keys tree)))
    as [e|[[[d|]]|]]; try reflexivity.
  rewrite Hrel. reflexivity.
Qed.

Lemma get_without_relations_witness :
  relationalAttributes
    (get_selection humanize leaves (fun _ t => t) OrderSchema
       (Some (PathList ["id"])))
  = []
  /\ svc_get humanize registry leaves (fun _ t => t) one_order OrderSchema
       (VObj [("id", VNum 1)]) (Some (PathList ["id"]))
     = ([], inr (Some [("id", VNum 1);
                       ("customer", VObj [("customerId", VStr "c1")]);
                       ("internalNote", VStr "n")])).
Proof.
  split; [reflexivity|].
  exact (get_without_relations humanize registry leaves (fun _ t => t)
           one_order OrderSchema (VObj [("id", VNum 1)])
           (Some (PathList ["id"])) eq_refl).
Defined.

Lemma bind_lift {A B : Type} (r : exn + A) (f : A -> M B) :
  bind (lift r) f = match r with
                    | inl e => ([], inl e)
                    | inr a => f a
                    end.
Proof.
  destruct r as [e|a]; [reflexivity|]. unfold lift, bind.
  now destruct (f a).
Qed.

(** X13.  [get] returns no record exactly when the persistence layer finds
    nothing (no entity, or an entity without data), and then it
    hydrates nothing, whatever relations the selection names: for an
    entity that is found, [get] returns a record or rejects. *)
Theorem get_not_found
  (h : string -> string) (reg : string -> option RelatedService)
  (parseEntityAttributePaths : list string -> record)
  (inferRelationshipsForEntitySelections : EntitySchema -> record -> record)
  (getEntity : value -> list string -> exn + option EntityResponse)
  (schema : EntitySchema) (identifiers : value)
  (selections : option EntitySelections) (names : list string) :
  outcome (requiredSelectAttributes
             (get_selection h parseEntityAttributePaths
                inferRelationshipsForEntitySelections schema selections))
  = inr names ->
  let run :=
    svc_get h reg parseEntityAttributePaths
      inferRelationshipsForEntitySelections getEntity schema identifiers
      selections in
  let missing :=
    getEntity identifiers (Set_from names) = inr None
    \/ getEntity identifiers (Set_from names)
       = inr (Some {| er_data := None |}) in
  (outcome run = inr None <-> missing)
  /\ (missing -> run = ([], inr None)).
Proof.
  intros Hn run missing. unfold run, missing, svc_get. cbv zeta.
  rewrite (requiredSelectAttributes_run _ Hn), bind_ret, bind_lift.
  destruct (getEntity identifiers (Set_from names)) as [e|[[[d|]]|]] eqn:Eg.
  - split; [split; [discriminate | intros [H|H]; discriminate]|].
    intros [H|H]; discriminate.
  - split; [|intros [H|H]; discriminate].
    split; [|intros [H|H]; discriminate].
    destruct (0 <? List.length (relationalAttributes _))%nat.
    + rewrite bind_outcome.
      match goal with
      | |- context [outcome (hydrateRecords ?r ?s ?rel ?roots)] =>
          destruct (outcome (hydrateRecords r s rel roots));
            cbn [outcome ret snd]; intros H; discriminate H
      end.
    + cbn [outcome ret snd]. intros H. discriminate H.
  - split; [split; [now right | reflexivity] | reflexivity].
  - split; [split; [now left | reflexivity] | reflexivity].
Qed.

Lemma get_not_found_witness :
  outcome (requiredSelectAttributes
             (get_selection humanize leaves (fun _ t => t) OrderSchema
                (Some (SelectionTree order_selection))))
  = inr ["id"; "customer"; "customer"]
  /\ svc_get humanize registry leaves (fun _ t => t) no_order OrderSchema
       (VObj [("id", VNum 7)]) (Some (SelectionTree order_selection))
     = ([], inr None).
Proof.
  split; [reflexivity|].
  exact (proj2 (get_not_found humanize registry leaves (fun _ t => t)
                  no_order OrderSchema (VObj [("id", VNum 7)])
                  (Some (SelectionTree order_selection))
                  (names := ["id"; "customer"; "customer"]) eq_refl)
           (or_introl eq_refl)).
Defined.

Lemma hydrate_selected_segments
  (reg : string -> option RelatedService) (schema : EntitySchema)
  (tree : record) (records : list record) :
  exists segments,
    trace (hydrate_selected reg schema tree records) = List.concat segments
    /\ Forall2 fetches_its_entity (relationalAttributes tree) segments.
Proof.
  unfold hydrate_selected. cbv zeta.
  destruct (relationalAttributes tree) as [|rel rels] eqn:Er.
  - exists []. split; [reflexivity | constructor].
  - change (0 <? List.length (rel :: rels))%nat with true. cbv iota.
    destruct (hydrateRecords_segments reg schema (rel :: rels) records)
      as (segments & He & Hs).
    exists segments. split; [|exact Hs].
    rewrite bind_trace, He.
    destruct (outcome (hydrateRecords reg schema (rel :: rels) records));
      cbn [trace ret fst]; now rewrite app_nil_r.
Qed.

(** X14.  The related entities are fetched relation entry by relation
    entry: what a hydrate invocation, [get] and [list] log and fetch
    is, for each relation entry of the resolved selection in order, at
    most one fetch, of the entity that the entry names, however many
    records there are.  Every hydration is started: the fetch of a
    relation is issued even when the hydration of another relation
    throws. *)
Theorem get_and_list_fetch_once_per_relation
  (h : string -> string) (reg : string -> option RelatedService)
  (parseEntityAttributePaths : list string -> record)
  (inferRelationshipsForEntitySelections : EntitySchema -> record -> record)
  (makeFilterGroupForSearchKeywords : list string -> StringOrList -> value)
  (addFilterGroupToEntityFilterCriteria : value -> option value -> value)
  (getEntity : value -> list string -> exn + option EntityResponse)
  (listEntity : EntityQuery -> exn + EntityList)
  (schema : EntitySchema) :
  (forall relations roots,
      exists segments,
        trace (hydrateRecords reg schema relations roots)
        = List.concat segments
        /\ Forall2 fetches_its_entity relations segments)
  /\ (forall identifiers selections,
         exists segments,
           trace (svc_get h reg parseEntityAttributePaths
                    inferRelationshipsForEntitySelections getEntity schema
                    identifiers selections)
           = List.concat segments
           /\ (segments = []
               \/ Forall2 fetches_its_entity
                    (relationalAttributes
                       (get_selection h parseEntityAttributePaths
                          inferRelationshipsForEntitySelections schema
                          selections))
                    segments))
  /\ (forall q,
         exists asked tree segments,
           trace (svc_list h reg parseEntityAttributePaths
                    inferRelationshipsForEntitySelections
                    makeFilterGroupForSearchKeywords
                    addFilterGroupToEntityFilterCriteria listEntity schema q)
           = ListEntityCall asked :: List.concat segments
           /\ q_attributes asked = Some (SelectionTree tree)
           /\ (segments = []
               \/ Forall2 fetches_its_entity (relationalAttributes tree)
                    segments))
  /\ hydrateRecords registry OrderSchema
       [("ghost", ghost_options); ("customer", customer_options)]
       roots_with_relation
     = ([GetCall "Customer" [ [("id", VStr "c1")]; [("id", VStr "c2")] ]
           (VArr [VStr "name"; VStr "id"])],
        inl (Error "No service found in the 'defaultMetaContainer' for relationship: ghost(Ghost); please make sure service or factory has been registered in the 'defaultMetaContainer'")).
Proof.
  split; [|split; [|split]].
  - intros relations roots. apply hydrateRecords_segments.
  - intros identifiers selections. unfold svc_get. cbv zeta.
    rewrite bind_trace, requiredSelectAttributes_silent. cbn [app].
    destruct (outcome (requiredSelectAttributes _)) as [e|names];
      [exists []; split; [reflexivity | now left]|].
    rewrite bind_trace. cbn [trace lift fst app outcome snd].
    destruct (getEntity identifiers (Set_from names)) as [e|[[[d|]]|]];
      try (exists []; split; [reflexivity | now left]).
    destruct (relationalAttributes _) as [|rel rels] eqn:Er;
      [exists []; split; [reflexivity | now left]|].
    change (0 <? List.length (rel :: rels))%nat with true. cbv iota.
    destruct (hydrateRecords_segments reg schema (rel :: rels) [d])
      as (segments & He & Hs).
    exists segments. split; [|now right].
    rewrite bind_trace, He.
    destruct (outcome (hydrateRecords reg schema (rel :: rels) [d]));
      cbn [trace ret fst]; now rewrite app_nil_r.
  - intros q. unfold svc_list. cbv zeta.
    match goal with
    | |- context [ListEntityCall ?x] => set (q1 := x)
    end.
    match goal with
    | |- context [hydrate_selected reg schema ?t] => set (tree := t)
    end.
    assert (Hq1 : q_attributes q1 = Some (SelectionTree tree))
      by (unfold q1; now rewrite list_search_keeps_attributes).
    rewrite bind_trace. cbn [trace emit fst outcome snd app].
    rewrite bind_trace. cbn [trace lift fst app outcome snd].
    destruct (listEntity q1) as [e|entities].
    + exists q1, tree, []. split; [reflexivity|]. split; [exact Hq1|now left].
    + match goal with
      | |- context [hydrate_selected reg schema tree ?recs] =>
          destruct (hydrate_selected_segments reg schema tree recs)
            as (segments & He & Hs);
          exists q1, tree, segments;
          split; [|split; [exact Hq1 | now right]];
          rewrite bind_trace, He;
          destruct (outcome (hydrate_selected reg schema tree recs))
      end; cbn [trace ret fst]; now rewrite app_nil_r.
  - reflexivity.
Qed.

(* ================================================================== *)
(** ** Properties of the string utilities *)
(* ================================================================== *)

Lemma upper_char_not_space (c : ascii) :
  Ascii.eqb c " " = false -> Ascii.eqb (upper_char c) " " = false.
Proof. ascii_cases c; intros H; vm_compute in *; congruence. Qed.

Lemma upper_of_lower_char (c : ascii) : upper_char (lower_char c) = upper_char c.
Proof. ascii_cases c; reflexivity. Qed.

Lemma upper_char_capital (c : ascii) : is_upper c = true -> upper_char c = c.
Proof. ascii_cases c; intros H; vm_compute in *; congruence. Qed.

Lemma word_char_facts (c : ascii) :
  is_word c = true ->
  is_whitespace c = false
  /\ (is_upper c = true -> Ascii.eqb c "0" = false)
  /\ (is_upper c || is_lower c = true -> Ascii.eqb c "0" = false).
Proof. ascii_cases c; intros H; vm_compute in *; repeat split; congruence. Qed.

Lemma case_keeps_non_whitespace (c : ascii) :
  is_whitespace c = false ->
  is_whitespace (lower_char c) = false /\ is_whitespace (upper_char c) = false.
Proof. ascii_cases c; intros H; vm_compute in *; split; congruence. Qed.

(* ------------------------------------------------------------------ *)
(** *** [toHumanReadableName] *)

Lemma space_capitals_length (s : string) :
  String.length (space_capitals s)
  = (String.length s + count_capitals s)%nat.
Proof.
  induction s as [|c s IH]; simpl; [reflexivity|].
  destruct (is_upper c); simpl; rewrite IH; lia.
Qed.

Lemma space_capitals_without_spaces (s : string) :
  string_forallb (fun c => negb (Ascii.eqb c " ")) s = true ->
  string_filter (fun c => negb (Ascii.eqb c " ")) (space_capitals s) = s.
Proof.
  induction s as [|c s IH]; simpl; [reflexivity|]. intros H.
  apply andb_prop in H. destruct H as [Hc Hs].
  destruct (is_upper c); simpl; rewrite Hc, (IH Hs); reflexivity.
Qed.

(** X20.  [toHumanReadableName] capitalises the first character and puts one
    space before every capital that follows: the result is longer than
    the name by the number of those capitals, and taking the spaces out
    of it gives back the name, capitalised, when the name holds no
    space. *)
Theorem toHumanReadableName_spaces_capitals (input : string) :
  ascii_text input = true ->
  String.length (toHumanReadableName input)
  = (String.length input + count_capitals (slice1 input))%nat
  /\ (string_forallb (fun c => negb (Ascii.eqb c " ")) input = true ->
      string_filter (fun c => negb (Ascii.eqb c " "))
        (toHumanReadableName input)
      = (toUpperCase (charAt0 input) ++ slice1 input)%string).
Proof.
  intros _. unfold toHumanReadableName.
  destruct input as [|c s]; [split; reflexivity|].
  cbn [charAt0 slice1 toUpperCase string_map append String.length].
  split.
  - now rewrite space_capitals_length.
  - cbn [string_forallb string_filter]. intros H.
    apply andb_prop in H. destruct H as [Hc Hs].
    apply negb_true_iff in Hc. rewrite (upper_char_not_space _ Hc).
    cbn [negb]. now rewrite (space_capitals_without_spaces _ Hs).
Qed.

Lemma toHumanReadableName_spaces_capitals_witness :
  ascii_text "firstName" = true
  /\ toHumanReadableName "firstName" = "First Name"
  /\ String.length (toHumanReadableName "firstName") = 10%nat.
Proof.
  split; [reflexivity|]. split; [reflexivity|].
  exact (proj1 (toHumanReadableName_spaces_capitals "firstName" eq_refl)).
Defined.

(** X4.  The display name of an IO schema attribute is the name that
    the attribute declares, when it declares one that is not empty, and
    the humanised id otherwise; it is never empty when the attribute id
    is not. *)
Theorem io_name_is_never_empty (attId : string) (att : EntityAttribute) :
  ascii_text attId = true ->
  attId <> "" ->
  io_name (entityAttributeToIOSchemaAttribute toHumanReadableName attId att)
  <> ""
  /\ (forall name,
        att_name att = Some name -> name <> "" ->
        io_name (entityAttributeToIOSchemaAttribute toHumanReadableName
                   attId att)
        = name)
  /\ (att_name att = None \/ att_name att = Some "" ->
      io_name (entityAttributeToIOSchemaAttribute toHumanReadableName attId att)
      = toHumanReadableName attId).
Proof.
  intros _ Hne.
  assert (Hh : toHumanReadableName attId <> "").
  { destruct attId as [|c s]; [congruence|]. discriminate. }
  destruct att as [ty nm rq vl df hd idn vis ed li cr fi se rel ano pr it].
  cbn [entityAttributeToIOSchemaAttribute io_name att_name].
  split; [|split].
  - destruct nm as [n|]; [|exact Hh].
    destruct (nonempty n) eqn:En; [|exact Hh].
    unfold nonempty in En. apply negb_true_iff in En.
    now apply String.eqb_neq.
  - intros name [= ->] Hname. apply String.eqb_neq in Hname.
    unfold nonempty. now rewrite Hname.
  - intros [-> | ->]; reflexivity.
Qed.

Lemma io_name_is_never_empty_witness :
  (ascii_text "firstName" = true /\ "firstName" <> "")
  /\ io_name (entityAttributeToIOSchemaAttribute toHumanReadableName
                "firstName" (plain_attribute "string"))
     = "First Name"
  /\ io_name (entityAttributeToIOSchemaAttribute toHumanReadableName
                "firstName" (named_attribute "string" ""))
     = "First Name"
  /\ io_name (entityAttributeToIOSchemaAttribute toHumanReadableName
                "firstName" (named_attribute "string" "Given name"))
     = "Given name".
Proof.
  split; [split; [reflexivity | discriminate]|].
  split; [|split].
  - exact (proj2 (proj2 (io_name_is_never_empty (attId := "firstName")
                           (plain_attribute "string") eq_refl
                           ltac:(discriminate)))
             (or_introl eq_refl)).
  - exact (proj2 (proj2 (io_name_is_never_empty (attId := "firstName")
                           (named_attribute "string" "") eq_refl
                           ltac:(discriminate)))
             (or_intror eq_refl)).
  - exact (proj1 (proj2 (io_name_is_never_empty (attId := "firstName")
                           (named_attribute "string" "Given name") eq_refl
                           ltac:(discriminate)))
             "Given name" eq_refl ltac:(discriminate)).
Defined.

(* ------------------------------------------------------------------ *)
(** *** [camelCase] and [pascalCase] *)

(** Inside a word nothing changes. *)
Lemma camelCase_inside_word (s : string) (p : ascii) :
  is_word p = true ->
  string_forallb is_word s = true ->
  camelCase_from false (Some p) s = s.
Proof.
  revert p. induction s as [|c s IH]; intros p Hp Hs; [reflexivity|].
  cbn [string_forallb] in Hs. apply andb_prop in Hs. destruct Hs as [Hc Hs].
  cbn [camelCase_from]. cbv zeta. rewrite Hp. cbn [negb andb orb].
  destruct (word_char_facts c Hc) as (Hw & H0 & _). rewrite Hw.
  rewrite (IH c Hc Hs).
  destruct (is_upper c) eqn:Eu; cbn [orb]; [|reflexivity].
  rewrite (H0 eq_refl). now rewrite upper_char_capital.
Qed.

(** A word at the start of the text, and a word after a space. *)
Lemma camelCase_first_word (c : ascii) (s : string) :
  is_upper c || is_lower c = true ->
  string_forallb is_word (String c s) = true ->
  camelCase_from true None (String c s) = String (lower_char c) s
  /\ camelCase_from false (Some " "%char) (String c s)
     = String (upper_char c) s.
Proof.
  intros Hl Hs.
  cbn [string_forallb] in Hs. apply andb_prop in Hs. destruct Hs as [Hc Hs].
  destruct (word_char_facts c Hc) as (Hw & _ & H0). specialize (H0 Hl).
  cbn [camelCase_from]. cbv zeta. rewrite Hw, Hc, H0.
  rewrite (camelCase_inside_word s c Hc Hs).
  change (is_word " ") with false. cbn [negb andb orb].
  rewrite orb_true_r. split; reflexivity.
Qed.

(** X21.  On an identifier (word characters, the first a letter), [camelCase]
    lower-cases the first letter and [pascalCase] upper-cases it; the
    rest is unchanged. *)
Theorem camelCase_of_identifier (s : string) :
  is_identifier s = true ->
  camelCase s = (toLowerCase (charAt0 s) ++ slice1 s)%string
  /\ pascalCase s = (toUpperCase (charAt0 s) ++ slice1 s)%string.
Proof.
  destruct s as [|c s]; [discriminate|]. unfold is_identifier.
  intros H. apply andb_prop in H. destruct H as [Hl Hs].
  destruct (camelCase_first_word c s Hl Hs) as [H1 _].
  unfold pascalCase, camelCase. cbv zeta. rewrite H1.
  cbn [charAt0 slice1 toLowerCase toUpperCase string_map append].
  now rewrite upper_of_lower_char.
Qed.

Lemma camelCase_of_identifier_witness :
  is_identifier "OrderItem" = true
  /\ camelCase "OrderItem" = "orderItem"
  /\ pascalCase "orderItem" = "OrderItem".
Proof.
  split; [reflexivity|].
  split.
  - exact (proj1 (camelCase_of_identifier "OrderItem" eq_refl)).
  - reflexivity.
Defined.

Lemma camelCase_word_then_space (s w : string) (p : ascii) :
  is_word p = true ->
  string_forallb is_word s = true ->
  camelCase_from false (Some p) (s ++ String " " w)
  = (s ++ camelCase_from false (Some " "%char) w)%string.
Proof.
  revert p. induction s as [|c s IH]; intros p Hp Hs.
  - reflexivity.
  - cbn [string_forallb] in Hs. apply andb_prop in Hs.
    destruct Hs as [Hc Hs].
    cbn [append camelCase_from]. cbv zeta. rewrite Hp. cbn [negb andb orb].
    destruct (word_char_facts c Hc) as (Hw & H0 & _). rewrite Hw.
    rewrite (IH c Hc Hs).
    destruct (is_upper c) eqn:Eu; cbn [orb]; [|reflexivity].
    rewrite (H0 eq_refl). now rewrite upper_char_capital.
Qed.

(** X22.  Two identifiers separated by a space are joined, the second one
    capitalised. *)
Theorem camelCase_joins_words (w1 w2 : string) :
  is_identifier w1 = true ->
  is_identifier w2 = true ->
  camelCase (w1 ++ " " ++ w2) = (camelCase w1 ++ pascalCase w2)%string.
Proof.
  destruct w1 as [|c1 s1]; [discriminate|].
  destruct w2 as [|c2 s2]; [discriminate|].
  unfold is_identifier. intros H1 H2.
  apply andb_prop in H1. destruct H1 as [Hl1 Hs1].
  apply andb_prop in H2. destruct H2 as [Hl2 Hs2].
  destruct (camelCase_first_word c1 s1 Hl1 Hs1) as [Hw1 _].
  destruct (camelCase_first_word c2 s2 Hl2 Hs2) as [Hw2 Hw2'].
  unfold pascalCase, camelCase. cbv zeta. rewrite Hw1, Hw2.
  cbn [charAt0 slice1 toUpperCase string_map append].
  rewrite upper_of_lower_char.
  cbn [string_forallb] in Hs1. apply andb_prop in Hs1.
  destruct Hs1 as [Hc1 Hs1].
  destruct (word_char_facts c1 Hc1) as (Hw & _ & H0). specialize (H0 Hl1).
  cbn [camelCase_from]. cbv zeta. rewrite Hw, Hc1, H0. cbn [andb orb].
  change (s1 ++ " " ++ String c2 s2)%string
    with (s1 ++ String " " (String c2 s2))%string.
  rewrite (@camelCase_word_then_space s1 (String c2 s2) c1 Hc1 Hs1).
  now rewrite Hw2'.
Qed.

Lemma camelCase_joins_words_witness :
  (is_identifier "order" = true /\ is_identifier "item" = true)
  /\ camelCase "order item" = "orderItem".
Proof.
  split; [split; reflexivity|].
  exact (camelCase_joins_words "order" "item" eq_refl eq_refl).
Defined.

Lemma camelCase_from_facts (s : string) (first : bool) (prev : option ascii) :
  string_forallb (fun c => negb (is_whitespace c))
    (camelCase_from first prev s) = true
  /\ (String.length (camelCase_from first prev s) <= String.length s)%nat.
Proof.
  revert first prev. induction s as [|c s IH]; intros first prev.
  - split; [reflexivity | simpl; lia].
  - cbn [camelCase_from]. cbv zeta.
    destruct (IH false (Some c)) as [H1 H2].
    destruct (is_whitespace c) eqn:Ew.
    + split; [exact H1 | simpl; lia].
    + destruct (case_keeps_non_whitespace c Ew) as [Hlo Hup].
      destruct ((first && is_word c) || is_upper c || _).
      * destruct (Ascii.eqb c "0").
        -- split; [exact H1 | simpl; lia].
        -- split; [|simpl; lia].
           cbn [string_forallb]. rewrite H1.
           destruct first; [rewrite Hlo | rewrite Hup]; reflexivity.
      * split; [|simpl; lia].
        cbn [string_forallb]. now rewrite Ew, H1.
Qed.

(** X23.  [camelCase] and [pascalCase] leave no white space in their result,
    and never make the text longer. *)
Theorem camelCase_drops_white_space (input : string) :
  ascii_text input = true ->
  string_forallb (fun c => negb (is_whitespace c)) (camelCase input) = true
  /\ string_forallb (fun c => negb (is_whitespace c)) (pascalCase input)
     = true
  /\ (String.length (camelCase input) <= String.length input)%nat
  /\ (String.length (pascalCase input) <= String.length input)%nat.
Proof.
  intros _. unfold pascalCase, camelCase. cbv zeta.
  destruct (camelCase_from_facts input true None) as [H1 H2].
  split; [exact H1|]. split; [|split; [exact H2|]].
  - destruct (camelCase_from true None input) as [|c s]; [reflexivity|].
    cbn [charAt0 slice1 toUpperCase string_map append string_forallb] in *.
    apply andb_prop in H1. destruct H1 as [Hc Hs].
    apply negb_true_iff in Hc.
    destruct (case_keeps_non_whitespace c Hc) as [_ Hup].
    now rewrite Hup, Hs.
  - destruct (camelCase_from true None input) as [|c s]; [simpl; lia|].
    cbn [charAt0 slice1 toUpperCase string_map append String.length] in *.
    exact H2.
Qed.

Lemma camelCase_drops_white_space_witness :
  ascii_text "  order   line item " = true
  /\ camelCase "  order   line item " = "OrderLineItem"
  /\ string_forallb (fun c => negb (is_whitespace c))
       (camelCase "  order   line item ") = true.
Proof.
  split; [reflexivity|]. split; [reflexivity|].
  exact (proj1 (camelCase_drops_white_space "  order   line item " eq_refl)).
Defined.

(* ------------------------------------------------------------------ *)
(** *** [toSlug] *)

Lemma lower_char_not_upper (c : ascii) : is_upper (lower_char c) = false.
Proof. ascii_cases c; reflexivity. Qed.

Lemma slug_input_not_upper (c : ascii) :
  is_slug_input c = true -> is_upper c = false -> is_slug_char c = true.
Proof. ascii_cases c; intros H1 H2; vm_compute in *; congruence. Qed.

Lemma slug_char_facts (c : ascii) :
  is_slug_char c = true ->
  lower_char c = c
  /\ is_whitespace c = false
  /\ Ascii.eqb c "&" = false
  /\ is_slug_input c = true.
Proof.
  ascii_cases c; intros H; vm_compute in *; repeat split; congruence.
Qed.

Lemma string_forallb_impl (p q r : ascii -> bool) (s : string) :
  (forall c, p c = true -> q c = true -> r c = true) ->
  string_forallb p s = true -> string_forallb q s = true ->
  string_forallb r s = true.
Proof.
  intros H. induction s as [|c s IH]; simpl; [reflexivity|].
  intros Hp Hq. apply andb_prop in Hp. apply andb_prop in Hq.
  destruct Hp as [Hp Hps], Hq as [Hq Hqs].
  now rewrite (H c Hp Hq), IH.
Qed.

Lemma string_filter_forallb (p : ascii -> bool) (s : string) :
  string_forallb p (string_filter p s) = true.
Proof.
  induction s as [|c s IH]; simpl; [reflexivity|].
  destruct (p c) eqn:E; simpl; [now rewrite E|exact IH].
Qed.

Lemma string_filter_keeps (p q : ascii -> bool) (s : string) :
  string_forallb q s = true -> string_forallb q (string_filter p s) = true.
Proof.
  induction s as [|c s IH]; simpl; [reflexivity|]. intros H.
  apply andb_prop in H. destruct H as [Hc Hs].
  destruct (p c); simpl; [rewrite Hc|]; now apply IH.
Qed.

Lemma toLowerCase_no_capital (s : string) :
  string_forallb (fun c => negb (is_upper c)) (toLowerCase s) = true.
Proof.
  unfold toLowerCase. induction s as [|c s IH]; simpl; [reflexivity|].
  now rewrite lower_char_not_upper, IH.
Qed.

Lemma spaces_to_dashes_keeps (q : ascii -> bool) (s : string) (b : bool) :
  q "-"%char = true ->
  string_forallb q s = true ->
  string_forallb q (spaces_to_dashes b s) = true.
Proof.
  intros Hd. revert b. induction s as [|c s IH]; intros b; simpl;
    [reflexivity|].
  intros H. apply andb_prop in H. destruct H as [Hc Hs].
  destruct (is_whitespace c); [destruct b|]; simpl;
    rewrite ?Hd, ?Hc; now apply IH.
Qed.

Lemma ampersands_to_and_keeps (q : ascii -> bool) (s : string) :
  string_forallb q "-and-" = true ->
  string_forallb q s = true ->
  string_forallb q (ampersands_to_and s) = true.
Proof.
  intros Hd. induction s as [|c s IH]; [reflexivity|].
  cbn [string_forallb ampersands_to_and].
  intros H. apply andb_prop in H. destruct H as [Hc Hs].
  destruct (Ascii.eqb c "&").
  - rewrite string_forallb_app, Hd. now apply IH.
  - cbn [string_forallb]. rewrite Hc. now apply IH.
Qed.

Lemma collapse_dashes_keeps (q : ascii -> bool) (s : string) (b : bool) :
  string_forallb q s = true ->
  string_forallb q (collapse_dashes b s) = true.
Proof.
  revert b. induction s as [|c s IH]; intros b; simpl; [reflexivity|].
  intros H. apply andb_prop in H. destruct H as [Hc Hs].
  destruct (Ascii.eqb c "-") eqn:E; [destruct b|]; simpl;
    rewrite ?Hc; try now apply IH.
  apply Ascii.eqb_eq in E. subst c. rewrite Hc. now apply IH.
Qed.

Lemma trim_start_dashes_keeps (q : ascii -> bool) (s : string) :
  string_forallb q s = true ->
  string_forallb q (trim_start_dashes s) = true.
Proof.
  induction s as [|c s IH]; simpl; [reflexivity|]. intros H.
  destruct (Ascii.eqb c "-"); [|exact H].
  apply andb_prop in H. now apply IH.
Qed.

Lemma trim_end_dashes_keeps (q : ascii -> bool) (s : string) :
  string_forallb q s = true ->
  string_forallb q (trim_end_dashes s) = true.
Proof.
  induction s as [|c s IH]; simpl; [reflexivity|]. intros H.
  apply andb_prop in H. destruct H as [Hc Hs].
  destruct (Ascii.eqb c "-" && (trim_end_dashes s =? "")); [reflexivity|].
  simpl. rewrite Hc. now apply IH.
Qed.

Lemma no_double_dash_tail (c : ascii) (s : string) :
  no_double_dash (String c s) = true -> no_double_dash s = true.
Proof.
  cbn [no_double_dash]. destruct s as [|d s]; [reflexivity|].
  intros H. apply andb_prop in H. tauto.
Qed.

Lemma no_double_dash_cons (c : ascii) (s : string) :
  no_double_dash s = true ->
  Ascii.eqb c "-" && starts_with_dash s = false ->
  no_double_dash (String c s) = true.
Proof.
  intros Hs Hc. cbn [no_double_dash]. destruct s as [|d s]; [reflexivity|].
  cbn [starts_with_dash] in Hc. rewrite Hc. now rewrite Hs.
Qed.

Lemma collapse_dashes_single (s : string) (b : bool) :
  no_double_dash (collapse_dashes b s) = true
  /\ (b = true -> starts_with_dash (collapse_dashes b s) = false).
Proof.
  revert b. induction s as [|c s IH]; intros b; simpl.
  - split; reflexivity.
  - destruct (Ascii.eqb c "-") eqn:E.
    + destruct b.
      * apply IH.
      * split; [|discriminate].
        destruct (IH true) as [H1 H2].
        apply no_double_dash_cons; [exact H1|].
        rewrite (H2 eq_refl). apply andb_false_r.
    + destruct (IH false) as [H1 _]. split.
      * apply no_double_dash_cons; [exact H1 | now rewrite E].
      * intros _. simpl. exact E.
Qed.

Lemma trim_start_dashes_single (s : string) :
  no_double_dash s = true -> no_double_dash (trim_start_dashes s) = true.
Proof.
  induction s as [|c s IH]; [reflexivity|]. intros H.
  cbn [trim_start_dashes].
  destruct (Ascii.eqb c "-"); [|exact H].
  apply IH. now apply no_double_dash_tail in H.
Qed.

Lemma trim_start_dashes_start (s : string) :
  starts_with_dash (trim_start_dashes s) = false.
Proof.
  induction s as [|c s IH]; simpl; [reflexivity|].
  destruct (Ascii.eqb c "-") eqn:E; [exact IH | simpl; exact E].
Qed.

Lemma trim_end_dashes_start (s : string) :
  starts_with_dash (trim_end_dashes s) = true -> starts_with_dash s = true.
Proof.
  destruct s as [|c s]; simpl; [discriminate|].
  destruct (Ascii.eqb c "-" && (trim_end_dashes s =? "")); [discriminate|].
  simpl. auto.
Qed.

Lemma trim_end_dashes_single (s : string) :
  no_double_dash s = true -> no_double_dash (trim_end_dashes s) = true.
Proof.
  induction s as [|c s IH]; [reflexivity|]. intros H.
  cbn [trim_end_dashes]. cbv zeta.
  destruct (Ascii.eqb c "-" && (trim_end_dashes s =? "")); [reflexivity|].
  apply no_double_dash_cons.
  - apply IH. now apply no_double_dash_tail in H.
  - destruct (Ascii.eqb c "-") eqn:E; [|reflexivity]. cbn [andb].
    destruct (starts_with_dash (trim_end_dashes s)) eqn:Es; [|reflexivity].
    apply trim_end_dashes_start in Es.
    destruct s as [|d s]; [discriminate|].
    cbn [no_double_dash starts_with_dash] in H, Es.
    rewrite E, Es in H. discriminate.
Qed.

Lemma trim_end_dashes_end (s : string) :
  ends_with_dash (trim_end_dashes s) = false.
Proof.
  induction s as [|c s IH]; [reflexivity|].
  cbn [trim_end_dashes]. cbv zeta.
  destruct (trim_end_dashes s) as [|d t] eqn:Et.
  - cbn [String.eqb]. rewrite andb_true_r.
    destruct (Ascii.eqb c "-") eqn:E; [reflexivity | simpl; exact E].
  - change (String d t =? "") with false. rewrite andb_false_r.
    exact IH.
Qed.

(** Every step of [toSlug] leaves a slug as it is. *)
Lemma spaces_to_dashes_none (s : string) (b : bool) :
  string_forallb (fun c => negb (is_whitespace c)) s = true ->
  spaces_to_dashes b s = s.
Proof.
  revert b. induction s as [|c s IH]; intros b; simpl; [reflexivity|].
  intros H. apply andb_prop in H. destruct H as [Hc Hs].
  apply negb_true_iff in Hc. rewrite Hc. now rewrite IH.
Qed.

Lemma ampersands_to_and_none (s : string) :
  string_forallb (fun c => negb (Ascii.eqb c "&")) s = true ->
  ampersands_to_and s = s.
Proof.
  induction s as [|c s IH]; simpl; [reflexivity|].
  intros H. apply andb_prop in H. destruct H as [Hc Hs].
  apply negb_true_iff in Hc. rewrite Hc. now rewrite IH.
Qed.

Lemma string_filter_all (p : ascii -> bool) (s : string) :
  string_forallb p s = true -> string_filter p s = s.
Proof.
  induction s as [|c s IH]; simpl; [reflexivity|].
  intros H. apply andb_prop in H. destruct H as [Hc Hs].
  now rewrite Hc, IH.
Qed.

Lemma string_map_fixed (f : ascii -> ascii) (p : ascii -> bool) (s : string) :
  (forall c, p c = true -> f c = c) ->
  string_forallb p s = true -> string_map f s = s.
Proof.
  intros Hf. induction s as [|c s IH]; simpl; [reflexivity|].
  intros H. apply andb_prop in H. destruct H as [Hc Hs].
  now rewrite (Hf c Hc), IH.
Qed.

Lemma collapse_dashes_none (s : string) (b : bool) :
  no_double_dash s = true ->
  (b = true -> starts_with_dash s = false) ->
  collapse_dashes b s = s.
Proof.
  revert b. induction s as [|c s IH]; intros b Hs Hb; simpl; [reflexivity|].
  destruct (Ascii.eqb c "-") eqn:E.
  - apply Ascii.eqb_eq in E. subst c.
    destruct b; [specialize (Hb eq_refl); simpl in Hb; congruence|].
    rewrite IH; [reflexivity | now apply no_double_dash_tail in Hs |].
    intros _. destruct s as [|d s]; [reflexivity|].
    cbn [no_double_dash starts_with_dash] in *.
    destruct (Ascii.eqb d "-"); [simpl in Hs; discriminate | reflexivity].
  - rewrite IH; [reflexivity | now apply no_double_dash_tail in Hs |].
    discriminate.
Qed.

Lemma trim_start_dashes_none (s : string) :
  starts_with_dash s = false -> trim_start_dashes s = s.
Proof. destruct s as [|c s]; simpl; [reflexivity|]. now intros ->. Qed.

Lemma trim_end_dashes_none (s : string) :
  ends_with_dash s = false -> trim_end_dashes s = s.
Proof.
  induction s as [|c s IH]; [reflexivity|]. intros H.
  cbn [trim_end_dashes]. cbv zeta.
  destruct s as [|d s].
  - cbn [ends_with_dash] in H. cbn [trim_end_dashes]. now rewrite H.
  - rewrite IH by exact H. change (String d s =? "") with false.
    now rewrite andb_false_r.
Qed.

Lemma slug_is_fixed (t : string) : is_slug t = true -> toSlug t = t.
Proof.
  unfold is_slug. intros H.
  apply andb_prop in H. destruct H as [H He].
  apply andb_prop in H. destruct H as [H Hst].
  apply andb_prop in H. destruct H as [Hc Hd].
  apply negb_true_iff in He, Hst.
  unfold toSlug. destruct (String.eqb_spec t "") as [->|_]; [reflexivity|].
  unfold toLowerCase, remove_non_words.
  rewrite (@string_map_fixed lower_char is_slug_char t)
    by (exact Hc || (intros c Hsc; now apply slug_char_facts)).
  rewrite spaces_to_dashes_none.
  2:{ apply (@string_forallb_impl is_slug_char is_slug_char); try exact Hc.
      intros c Hsc _. apply negb_true_iff. now apply slug_char_facts. }
  rewrite ampersands_to_and_none.
  2:{ apply (@string_forallb_impl is_slug_char is_slug_char); try exact Hc.
      intros c Hsc _. apply negb_true_iff. now apply slug_char_facts. }
  rewrite string_filter_all.
  2:{ apply (@string_forallb_impl is_slug_char is_slug_char); try exact Hc.
      intros c Hsc _. now apply slug_char_facts. }
  rewrite collapse_dashes_none by (exact Hd || discriminate).
  rewrite trim_start_dashes_none by exact Hst.
  now apply trim_end_dashes_none.
Qed.

Lemma toSlug_shape (str : string) : is_slug (toSlug str) = true.
Proof.
  unfold toSlug. destruct (str =? ""); [reflexivity|].
  set (t := remove_non_words
              (ampersands_to_and (spaces_to_dashes false (toLowerCase str)))).
  assert (Hc : string_forallb is_slug_char t = true).
  { unfold t, remove_non_words.
    apply (@string_forallb_impl is_slug_input (fun c => negb (is_upper c))).
    - intros c H1 H2. apply negb_true_iff in H2.
      now apply slug_input_not_upper.
    - apply string_filter_forallb.
    - apply string_filter_keeps, ampersands_to_and_keeps; [reflexivity|].
      apply spaces_to_dashes_keeps; [reflexivity|].
      apply toLowerCase_no_capital. }
  destruct (collapse_dashes_single t false) as [Hd _].
  unfold is_slug.
  rewrite trim_end_dashes_keeps
    by now apply trim_start_dashes_keeps, collapse_dashes_keeps.
  rewrite trim_end_dashes_single by now apply trim_start_dashes_single.
  rewrite trim_end_dashes_end.
  destruct (starts_with_dash
              (trim_end_dashes (trim_start_dashes (collapse_dashes false t))))
    eqn:Es; [|reflexivity].
  apply trim_end_dashes_start in Es.
  now rewrite trim_start_dashes_start in Es.
Qed.

(** X24.  The result of [toSlug] is a slug: lower-case letters, digits,
    underscores and single dashes, with no dash at either end (possibly
    the empty text); and [toSlug] leaves a slug as it is, so applying it
    twice is applying it once. *)
Theorem toSlug_makes_slugs (str : string) :
  ascii_text str = true ->
  is_slug (toSlug str) = true
  /\ toSlug (toSlug str) = toSlug str
  /\ (is_slug str = true -> toSlug str = str).
Proof.
  intros _. split; [apply toSlug_shape|]. split.
  - apply slug_is_fixed, toSlug_shape.
  - apply slug_is_fixed.
Qed.

Lemma toSlug_makes_slugs_witness :
  ascii_text "Hello  World & Co." = true
  /\ toSlug "Hello  World & Co." = "hello-world-and-co"
  /\ is_slug (toSlug "Hello  World & Co.") = true.
Proof.
  split; [reflexivity|]. split; [reflexivity|].
  exact (proj1 (toSlug_makes_slugs "Hello  World & Co." eq_refl)).
Defined.

(* ================================================================== *)
(** ** Properties of the [Validation] decorator, the queue environment
       and the mail processor *)
(* ================================================================== *)

Lemma assoc_set_middle {V : Type} (k : string) (v w : V)
  (before after : list (string * V)) :
  ~ In k (assoc_keys before) ->
  assoc_set k w (before ++ (k, v) :: after) = before ++ (k, w) :: after.
Proof.
  induction before as [|[k' v'] before IH]; simpl; intros Hk.
  - now rewrite String.eqb_refl.
  - destruct (String.eqb_spec k' k) as [->|Hne]; [tauto|].
    rewrite IH by tauto. reflexivity.
Qed.

(** X26.  The decorator throws when no route of the target carries the
    decorated method (in particular when the target has no routes at
    all); otherwise it sets [validations] on the first route that
    carries it, and leaves every other route, and the order of the
    routes, as they were. *)
Theorem Validation_decorates_first_route (validations : value)
  (routes : Routes) (methodToDecorate : string) :
  NoDup (assoc_keys routes) ->
  ((forall e, In e routes -> route_named methodToDecorate (snd e) = false) ->
   exists message,
     Validation validations (Some routes) methodToDecorate
     = inl (Error message)
     /\ Validation validations None methodToDecorate = inl (Error message))
  /\ (forall before key route after,
         routes = before ++ (key, route) :: after ->
         (forall e, In e before ->
                    route_named methodToDecorate (snd e) = false) ->
         route_named methodToDecorate route = true ->
         Validation validations (Some routes) methodToDecorate
         = inr (before
                  ++ (key, assoc_set "validations" validations route)
                  :: after)).
Proof.
  intros Hnd. split.
  - intros Hnone. eexists. unfold Validation. cbv zeta.
    rewrite find_no_match by exact Hnone. split; reflexivity.
  - intros before key route after -> Hbefore Hroute.
    unfold Validation. cbv zeta.
    rewrite (@find_first_match _
               (fun e => route_named methodToDecorate (snd e))
               before after (key, route) Hbefore Hroute).
    f_equal. apply assoc_set_middle.
    unfold assoc_keys in Hnd. rewrite map_app in Hnd. simpl in Hnd.
    apply NoDup_remove_2 in Hnd. intros Hin. apply Hnd.
    apply in_or_app. now left.
Qed.

Lemma Validation_decorates_first_route_witness :
  NoDup (assoc_keys login_routes)
  /\ Validation (VStr "rules") (Some login_routes) "login"
     = inr [("GET /me", [("functionName", VStr "me")]);
            ("POST /login", [("functionName", VStr "login");
                             ("validations", VStr "rules")])].
Proof.
  assert (H : NoDup (assoc_keys login_routes)).
  { simpl. repeat constructor; simpl; intuition discriminate. }
  split; [exact H|].
  apply (proj2 (@Validation_decorates_first_route (VStr "rules")
                  login_routes "login" H)
           [("GET /me", [("functionName", VStr "me")])]
           "POST /login" [("functionName", VStr "login")] []);
    [reflexivity | | reflexivity].
  intros e [<- | []]. reflexivity.
Defined.

(* ------------------------------------------------------------------ *)
(** *** The environment of a queue function *)

Lemma find_append {A : Type} (p : A -> bool) (l1 l2 : list A) :
  find p (l1 ++ l2)
  = match find p l1 with
    | Some x => Some x
    | None => find p l2
    end.
Proof.
  induction l1 as [|x l1 IH]; simpl; [reflexivity|].
  now destruct (p x).
Qed.

Lemma environment_fold (fw24_get : string -> string -> value)
  (l : list ILambdaEnvConfig) (acc : record) (k : string) :
  assoc_get k
    (fold_left
       (fun (acc : record) envConfig =>
          let value :=
            fw24_get (env_name envConfig) (prefix_or_empty envConfig) in
          if truthy value then assoc_set (env_name envConfig) value acc
          else acc) l acc)
  = match find (fun c => (env_name c =? k)
                         && truthy (fw24_get (env_name c) (prefix_or_empty c)))
            (List.rev l) with
    | Some c => Some (fw24_get (env_name c) (prefix_or_empty c))
    | None => assoc_get k acc
    end.
Proof.
  revert acc. induction l as [|c l IH]; intros acc; [reflexivity|].
  cbn [fold_left List.rev]. rewrite IH. cbv zeta.
  rewrite find_append.
  destruct (find _ (List.rev l)) as [c'|]; [reflexivity|].
  cbn [find].
  destruct (truthy (fw24_get (env_name c) (prefix_or_empty c))) eqn:Et.
  - destruct (String.eqb_spec (env_name c) k) as [<-|Hne]; cbn [andb].
    + apply assoc_get_set_same.
    + now apply assoc_get_set_other.
  - now rewrite andb_false_r.
Qed.

(** X27.  The environment holds a variable exactly when one of the entries of
    that name resolves to a truthy value, and then with the value of
    the last such entry: no variable is ever set to an empty or missing
    value, and without [env] the environment is empty. *)
Theorem environment_holds_resolved_values
  (fw24_get : string -> string -> value)
  (env : list ILambdaEnvConfig) (k : string) :
  getEnvironmentVariables fw24_get None = []
  /\ assoc_get k (getEnvironmentVariables fw24_get (Some env))
     = match find (fun c => (env_name c =? k)
                            && truthy (fw24_get (env_name c)
                                         (prefix_or_empty c)))
               (List.rev env) with
       | Some c => Some (fw24_get (env_name c) (prefix_or_empty c))
       | None => None
       end
  /\ (forall v,
         assoc_get k (getEnvironmentVariables fw24_get (Some env)) = Some v ->
         truthy v = true).
Proof.
  split; [reflexivity|].
  unfold getEnvironmentVariables. rewrite environment_fold. split.
  - reflexivity.
  - intros v.
    destruct (find _ (List.rev env)) as [c|] eqn:Ef; [|discriminate].
    intros [= <-]. apply find_some in Ef. destruct Ef as [_ Ef].
    apply andb_prop in Ef. tauto.
Qed.

(* ------------------------------------------------------------------ *)
(** *** The mail processor *)

Lemma flat_map_at_most_one {A B : Type} (f : A -> list B) (l : list A) :
  (forall x, (List.length (f x) <= 1)%nat) ->
  (List.length (flat_map f l) <= List.length l)%nat.
Proof.
  intros H. induction l as [|x l IH]; [simpl; lia|].
  cbn [flat_map]. rewrite length_app. cbn [List.length].
  specialize (H x). lia.
Qed.

Section MailFacts.
Variable JSON_parse : string -> exn + value.
Variable JSON_stringify : value -> string.
Variable object_spread : value -> value -> value.
Variable ses_send : SESCommand -> exn + value.

Lemma handler_fold (Records : list SQSRecord) (run : HandlerRun) :
  fold_left
    (fun run record =>
       let p := process_record JSON_parse JSON_stringify object_spread
                  ses_send record in
       {| commands := commands run ++ sent p;
          batchItemFailures :=
            if failed p
            then batchItemFailures run ++ [messageId record]
            else batchItemFailures run |})
    Records run
  = {| commands :=
         commands run
         ++ flat_map (fun r => sent (process_record JSON_parse JSON_stringify
                                       object_spread ses_send r)) Records;
       batchItemFailures :=
         batchItemFailures run
         ++ map messageId
              (filter (fun r => failed (process_record JSON_parse
                                          JSON_stringify object_spread
                                          ses_send r)) Records) |}.
Proof.
  revert run. induction Records as [|r l IH]; intros run.
  - simpl. rewrite !app_nil_r. now destruct run.
  - cbn [fold_left flat_map filter]. rewrite IH. cbv zeta.
    cbn [commands batchItemFailures].
    destruct (failed (process_record JSON_parse JSON_stringify object_spread
                        ses_send r));
      cbn [map]; rewrite <- !app_assoc; reflexivity.
Qed.

Lemma process_record_sends (r : SQSRecord) :
  (List.length (sent (process_record JSON_parse JSON_stringify object_spread
                        ses_send r)) <= 1)%nat
  /\ (failed (process_record JSON_parse JSON_stringify object_spread
                ses_send r) = false ->
      exists c v,
        sent (process_record JSON_parse JSON_stringify object_spread
                ses_send r) = [c]
        /\ ses_send c = inr v).
Proof.
  unfold process_record.
  destruct (JSON_parse (body r)) as [e|parsed];
    [split; [simpl; lia | discriminate]|].
  destruct (nullish parsed); [split; [simpl; lia | discriminate]|].
  cbv zeta.
  destruct (truthy (member parsed "templateData")
            && truthy (member (member parsed "templateData")
                         "testRenderEmailTemplate")).
  - destruct (nullish (member parsed "emailMessage"));
      [split; [simpl; lia | discriminate]|].
    split; [simpl; lia|]. cbn [failed sent].
    match goal with
    | |- rejected (ses_send ?c) = false -> _ =>
        destruct (ses_send c) as [e|v] eqn:Es; [discriminate|];
        intros _; exists c, v; split; [reflexivity | exact Es]
    end.
  - destruct (nullish (member parsed "emailMessage"));
      [split; [simpl; lia | discriminate]|].
    destruct (mail_content _ _ _ _) as [content|];
      [|split; [simpl; lia | discriminate]].
    split; [simpl; lia|]. cbn [failed sent].
    match goal with
    | |- rejected (ses_send ?c) = false -> _ =>
        destruct (ses_send c) as [e|v] eqn:Es; [discriminate|];
        intros _; exists c, v; split; [reflexivity | exact Es]
    end.
Qed.

End MailFacts.

(** X28.  The handler reports in [batchItemFailures] exactly the records
    whose processing failed, in order; the records are processed
    independently; a record that is not reported caused exactly one
    command, which the SES client accepted, and no record causes more
    than one. *)
Theorem mail_handler_reports_every_failure
  (JSON_parse : string -> exn + value) (JSON_stringify : value -> string)
  (object_spread : value -> value -> value)
  (ses_send : SESCommand -> exn + value) (Records : list SQSRecord) :
  let process :=
    process_record JSON_parse JSON_stringify object_spread ses_send in
  let run := handler JSON_parse JSON_stringify object_spread ses_send Records in
  batchItemFailures run
  = map messageId (filter (fun r => failed (process r)) Records)
  /\ commands run = flat_map (fun r => sent (process r)) Records
  /\ (List.length (commands run) <= List.length Records)%nat
  /\ (forall r, In r Records ->
        (List.length (sent (process r)) <= 1)%nat
        /\ (failed (process r) = false ->
            exists c v, sent (process r) = [c] /\ ses_send c = inr v))
  /\ (forall r e, JSON_parse (body r) = inl e ->
        sent (process r) = [] /\ failed (process r) = true).
Proof.
  intros process run. unfold run, handler. rewrite handler_fold.
  cbn [commands batchItemFailures app]. fold process.
  split; [reflexivity|]. split; [reflexivity|]. split; [|split].
  - apply flat_map_at_most_one. intros r.
    apply process_record_sends.
  - intros r _. apply process_record_sends.
  - intros r e He. unfold process, process_record. rewrite He.
    split; reflexivity.
Qed.

(** X29.  Whatever the handler sends is decided by the message of the
    record: a test rendering is sent only for a record whose template
    data ask for it, and then nothing is mailed; a mail goes from and to
    the addresses of the message, with the template when the message
    names one (whatever body and subject it has), with body and subject
    only when it names none and has both, and with a reply address
    exactly when the message has one. *)
Theorem mail_commands_follow_the_message
  (JSON_parse : string -> exn + value) (JSON_stringify : value -> string)
  (object_spread : value -> value -> value)
  (ses_send : SESCommand -> exn + value) (r : SQSRecord) (c : SESCommand) :
  In c (sent (process_record JSON_parse JSON_stringify object_spread
                ses_send r)) ->
  exists parsed,
    JSON_parse (body r) = inr parsed
    /\ let emailMessage := member parsed "emailMessage" in
       let templateData := member parsed "templateData" in
       let test :=
         truthy templateData
         && truthy (member templateData "testRenderEmailTemplate") in
       match c with
       | TestRenderEmailTemplateCommand name data =>
           test = true
           /\ name = member emailMessage "TemplateName"
           /\ data = JSON_stringify (object_spread emailMessage templateData)
       | SendEmailCommand p =>
           test = false
           /\ FromEmailAddress p = member emailMessage "FromEmailAddress"
           /\ ToAddresses p = [member emailMessage "ToEmailAddress"]
           /\ ReplyToAddresses p
              = (if truthy (member emailMessage "ReplyToEmailAddress")
                 then Some [member emailMessage "ReplyToEmailAddress"]
                 else None)
           /\ match Content p with
              | ContentTemplate name data =>
                  truthy name = true
                  /\ name = member emailMessage "TemplateName"
                  /\ data = JSON_stringify
                              (object_spread emailMessage templateData)
              | ContentSimple text subject =>
                  truthy (member emailMessage "TemplateName") = false
                  /\ text = member emailMessage "Message"
                  /\ subject = member emailMessage "Subject"
                  /\ truthy text = true /\ truthy subject = true
              end
       end.
Proof.
  unfold process_record.
  destruct (JSON_parse (body r)) as [e|parsed]; [intros []|].
  destruct (nullish parsed); [intros []|]. cbv zeta.
  intros Hin. exists parsed. split; [reflexivity|].
  destruct (truthy (member parsed "templateData")
            && truthy (member (member parsed "templateData")
                         "testRenderEmailTemplate")).
  - destruct (nullish (member parsed "emailMessage")); [destruct Hin|].
    destruct Hin as [<- | []]. repeat split.
  - destruct (nullish (member parsed "emailMessage")); [destruct Hin|].
    unfold mail_content in Hin.
    destruct (truthy (member (member parsed "emailMessage") "TemplateName"))
      eqn:Et.
    + destruct Hin as [<- | []]. cbn [FromEmailAddress ToAddresses
        ReplyToAddresses Content]. repeat split. exact Et.
    + destruct (truthy (member (member parsed "emailMessage") "Message")
                && truthy (member (member parsed "emailMessage") "Subject"))
        eqn:Em; [|destruct Hin].
      destruct Hin as [<- | []]. cbn [FromEmailAddress ToAddresses
        ReplyToAddresses Content].
      apply andb_prop in Em. repeat split; tauto.
Qed.

Lemma mail_commands_follow_the_message_witness :
  In welcome_mail
    (sent (process_record example_parse (fun _ => "data") (fun a _ => a)
             example_send {| messageId := "m1"; body := "welcome" |}))
  /\ exists parsed,
      example_parse "welcome" = inr parsed
      /\ truthy (member (member parsed "emailMessage") "TemplateName") = true.
Proof.
  assert (Hin : In welcome_mail
                  (sent (process_record example_parse (fun _ => "data")
                           (fun a _ => a) example_send
                           {| messageId := "m1"; body := "welcome" |})))
    by (left; reflexivity).
  split; [exact Hin|].
  destruct (mail_commands_follow_the_message example_parse (fun _ => "data")
              (fun a _ => a) example_send
              {| messageId := "m1"; body := "welcome" |} welcome_mail Hin)
    as [parsed [Hp H]].
  exists parsed. split; [exact Hp|].
  cbv zeta in H. cbn [welcome_mail Content] in H.
  destruct H as (_ & _ & _ & _ & Ht & Hn & _). rewrite <- Hn. exact Ht.
Defined.

(* ================================================================== *)
(** ** Properties of the update-form template *)
(* ================================================================== *)

(** Induction on a property, with the predicate known of its nested
    properties and of the properties of its items. *)
Lemma FormProperty_nested_ind (P : FormProperty -> Prop) :
  (forall id name ty fieldType editable readOnly visible properties items,
      match properties with
      | Some l => Forall P l
      | None => True
      end ->
      match items with
      | Some (_, Some l) => Forall P l
      | _ => True
      end ->
      P (mkFormProperty id name ty fieldType editable readOnly visible
           properties items)) ->
  forall p, P p.
Proof.
  intros H. fix IH 1.
  intros [id name ty fieldType editable readOnly visible properties items].
  apply H.
  - destruct properties as [l|]; [|exact I].
    induction l as [|x l IHl]; constructor; [apply IH | exact IHl].
  - destruct items as [[t [l|]]|]; try exact I.
    induction l as [|x l IHl]; constructor; [apply IH | exact IHl].
Qed.

(** The inner loop of [formatProp] is [formatProps]. *)
Lemma formatProps_loop (props : list FormProperty) :
  (fix loop (props : list FormProperty) : list FormField :=
     match props with
     | [] => []
     | prop :: rest =>
         if form_editable prop then formatProp prop :: loop rest
         else loop rest
     end) props
  = formatProps props.
Proof.
  unfold formatProps. induction props as [|p props IH]; [reflexivity|].
  cbn [filter]. destruct (form_editable p); cbn [map]; now rewrite IH.
Qed.

Lemma editable_fields_loop (fields : list FormField) :
  (fix all (fields : list FormField) : bool :=
     match fields with
     | [] => true
     | x :: rest => editable_field x && all rest
     end) fields
  = forallb editable_field fields.
Proof.
  induction fields as [|f fields IH]; [reflexivity|].
  cbn [forallb]. now rewrite IH.
Qed.

Lemma formatProps_editable (props : list FormProperty) :
  Forall (fun p => form_editable p = true ->
                   editable_field (formatProp p) = true) props ->
  forallb editable_field (formatProps props) = true.
Proof.
  unfold formatProps. induction 1 as [|p props Hp _ IH]; [reflexivity|].
  cbn [filter]. destruct (form_editable p) eqn:E; [|exact IH].
  cbn [map forallb]. now rewrite (Hp eq_refl), IH.
Qed.

Lemma formatProp_editable (p : FormProperty) :
  form_editable p = true -> editable_field (formatProp p) = true.
Proof.
  induction p as [id name ty fieldType editable readOnly visible properties
                    items IHp IHi] using FormProperty_nested_ind.
  intros He. cbn [formatProp editable_field ff_source ff_properties
                    ff_items_properties fp_type fp_properties fp_items].
  rewrite He. cbn [andb].
  apply andb_true_intro. split.
  - destruct (is_type ty "map"); [|reflexivity].
    rewrite editable_fields_loop.
    destruct properties as [l|]; [|reflexivity].
    rewrite formatProps_loop. now apply formatProps_editable.
  - destruct (is_type ty "map"); [reflexivity|].
    destruct (is_type ty "list"); [|reflexivity].
    destruct items as [[t ps]|]; [|reflexivity].
    destruct (is_type t "map"); [|reflexivity].
    rewrite editable_fields_loop.
    destruct ps as [l|]; [|reflexivity].
    rewrite formatProps_loop. now apply formatProps_editable.
Qed.

(** X25.  The update form lists the properties that are editable and not
    read-only, in the order of the IO schema, each under its id and its
    name; and no other property enters the form at any depth of nested
    maps and lists of maps. *)
Theorem update_form_lists_editable_properties
  (entityName entityNamePlural : string)
  (properties : list (string * FormProperty)) :
  let fields :=
    propertiesConfig
      (formPageConfig
         (MakeUpdateEntityConfig entityName entityNamePlural properties)) in
  let editable := filter form_editable (map snd properties) in
  map ff_source fields = editable
  /\ map ff_column fields = map fp_id editable
  /\ map ff_label fields = map fp_name editable
  /\ forallb editable_field fields = true.
Proof.
  intros fields editable. unfold fields, MakeUpdateEntityConfig.
  cbv zeta. cbn [formPageConfig propertiesConfig app].
  unfold formatProps. fold editable. rewrite !app_nil_l, !map_map.
  split; [|split; [|split]].
  - induction editable as [|p l IH]; [reflexivity|].
    cbn [map]. rewrite IH. now destruct p.
  - apply map_ext. intros p. now destruct p.
  - apply map_ext. intros p. now destruct p.
  - unfold editable. fold (formatProps (map snd properties)).
    apply formatProps_editable. apply Forall_forall.
    intros p _. apply formatProp_editable.
Qed.

(* ================================================================== *)
(** ** Further edge cases of the entity service *)
(* ================================================================== *)

Lemma foldM_returns {A B : Type} (f : A -> B -> M A) (l : list B) (a : A) :
  (forall a x, In x l -> exists a', f a x = ret a') ->
  exists r, foldM f l a = ret r.
Proof.
  revert a. induction l as [|x l IH]; intros a H; simpl.
  - now exists a.
  - destruct (H a x (or_introl eq_refl)) as [a' Ha']. rewrite Ha', bind_ret.
    apply IH. intros a0 y Hy. apply H. now right.
Qed.

Lemma mapM_first_error {A B : Type} (f : A -> M B) (l : list A) (x : A)
  (e : exn) :
  In x l ->
  (forall y, In y l -> (exists b, f y = ret b) \/ f y = throw e) ->
  f x = throw e ->
  mapM f l = throw e.
Proof.
  intros Hin Hall Hx. induction l as [|a l IH]; [contradiction|].
  cbn [mapM]. destruct (Hall a (or_introl eq_refl)) as [[b Hb] | Ha].
  - rewrite Hb, bind_ret. destruct Hin as [-> | Hin].
    + rewrite Hx in Hb. discriminate.
    + rewrite IH; [reflexivity | exact Hin |].
      intros y Hy. apply Hall. now right.
  - rewrite Ha. reflexivity.
Qed.

Lemma extract_identifiers_of_total (primaryAttName : option string)
  (context : ExtractEntityIdentifiersContext) (names : list string)
  (input : value) :
  nullish input = false ->
  exists identifiers,
    extract_identifiers_of primaryAttName context
      (map (fun n => (n, false)) names) input
    = ret identifiers.
Proof.
  intros Hn. unfold extract_identifiers_of.
  match goal with
  | |- context [foldM ?f ?l ?a] =>
      destruct (@foldM_returns _ _ f l a) as [r Hr]
  end.
  - intros ids [n b] Hin. apply in_map_iff in Hin.
    destruct Hin as [n' [Heq _]]. inversion Heq; subst n' b. clear Heq.
    cbn [fst snd].
    destruct input; try discriminate; cbn [own_property];
      try (destruct (hasOwnProperty props n));
      try (destruct (match primaryAttName with
                     | Some p => n =? p
                     | None => false
                     end && _));
      eexists; reflexivity.
  - rewrite Hr, bind_ret. eexists. reflexivity.
Qed.

(** X7.  A batch that holds [null] or [undefined] makes the whole
    extraction throw a [TypeError], as soon as the schema has an index
    and the context selects at least one identifier attribute: the own
    members of the entry cannot be read. *)
Theorem extract_null_entry_throws (h : string -> string)
  (schema : EntitySchema) (context : ExtractEntityIdentifiersContext)
  (inputs : list value) :
  indexes schema <> [] ->
  resolved_identifier_names h schema context <> [] ->
  (exists x, In x inputs /\ nullish x = true) ->
  extractEntityIdentifiers h schema (VArr inputs) context
  = ([], inl (TypeError "Cannot read properties of null or undefined")).
Proof.
  intros Hix Hnames [x [Hin Hx]]. unfold extractEntityIdentifiers.
  cbn [truthy typeof_object negb orb].
  rewrite (@identifierAttributes_resolved h schema context Hix), bind_ret.
  destruct (resolved_identifier_names h schema context) as [|n names];
    [congruence|].
  rewrite (@mapM_first_error _ _ _ inputs x
             (TypeError "Cannot read properties of null or undefined"));
    [reflexivity | exact Hin | |].
  - intros y _. destruct (nullish y) eqn:Ey.
    + right. destruct y; try discriminate; reflexivity.
    + left. now apply (extract_identifiers_of_total _ _ (n :: names)).
  - destruct x; try discriminate; reflexivity.
Qed.

Lemma extract_null_entry_throws_witness :
  (indexes OrderSchema <> []
   /\ resolved_identifier_names humanize OrderSchema no_context <> []
   /\ exists x, In x [VObj [("id", VNum 1)]; VNull] /\ nullish x = true)
  /\ extractEntityIdentifiers humanize OrderSchema
       (VArr [VObj [("id", VNum 1)]; VNull]) no_context
     = ([], inl (TypeError "Cannot read properties of null or undefined")).
Proof.
  assert (H1 : indexes OrderSchema <> []) by discriminate.
  assert (H2 : resolved_identifier_names humanize OrderSchema no_context
               <> []) by discriminate.
  assert (H3 : exists x, In x [VObj [("id", VNum 1)]; VNull]
                         /\ nullish x = true).
  { exists VNull. split; [right; now left | reflexivity]. }
  split; [repeat split; assumption|].
  exact (@extract_null_entry_throws humanize OrderSchema no_context _ H1 H2 H3).
Defined.

(* ------------------------------------------------------------------ *)
(** *** The identifier keys folded into the selection of a relation *)

Lemma includes_app (items more : list value) (k : string) :
  includes (items ++ more) k = includes items k || includes more k.
Proof. unfold includes. apply existsb_app. Qed.

Lemma prop_set_same (k : string) (v : value) (o : record) :
  prop (assoc_set k v o) k = v.
Proof. unfold prop. now rewrite assoc_get_set_same. Qed.

Lemma prop_set_other (k k' : string) (v : value) (o : record) :
  k <> k' -> prop (assoc_set k v o) k' = prop o k'.
Proof. intros H. unfold prop. now rewrite assoc_get_set_other. Qed.

Lemma fold_identifier_key_selects (options : record) (key : string) :
  let options' := fold_identifier_key options key in
  (isArray (prop options "attributes") || isObject (prop options "attributes")
   = true ->
   selects (prop options' "attributes") key = true)
  /\ (forall k, selects (prop options "attributes") k = true ->
                selects (prop options' "attributes") k = true)
  /\ (forall m, m <> "attributes" -> prop options' m = prop options m)
  /\ isArray (prop options' "attributes")
     = isArray (prop options "attributes")
  /\ isObject (prop options' "attributes")
     = isObject (prop options "attributes")
  /\ (isArray (prop options "attributes")
      || isObject (prop options "attributes") = false ->
      options' = options).
Proof.
  cbv zeta. unfold fold_identifier_key.
  destruct (prop options "attributes") as [| | | | |items|selection] eqn:Ea;
    [rewrite Ea; cbn [isArray isObject orb selects]; repeat split; easy ..
    | | ].
  - destruct (includes items key) eqn:Ei; cbn [negb].
    + rewrite ?Ea. cbn [isArray isObject orb selects]. repeat split; easy.
    + rewrite !prop_set_same, ?Ea.
      cbn [selects isArray isObject orb]. repeat split; try easy.
      * intros _. rewrite includes_app. cbn [includes existsb strict_equals].
        rewrite String.eqb_refl. now rewrite orb_true_r.
      * intros k Hk. rewrite includes_app, Hk. reflexivity.
      * intros m Hm. apply prop_set_other. congruence.
  - destruct (hasOwnProperty selection key) eqn:Eh; cbn [negb].
    + rewrite ?Ea. cbn [isArray isObject orb selects]. repeat split; easy.
    + rewrite !prop_set_same, ?Ea.
      cbn [selects isArray isObject orb]. repeat split; try easy.
      * intros _. unfold hasOwnProperty.
        rewrite assoc_has_set, String.eqb_refl. reflexivity.
      * intros k Hk. unfold hasOwnProperty in *.
        rewrite assoc_has_set, Hk. apply orb_true_r.
      * intros m Hm. apply prop_set_other. congruence.
Qed.

(** X10.  Before the batched fetch, every identifier key is made part of the
    selection of the relation: when [options.attributes] is an array or
    a mapping, each key is selected afterwards, whatever was selected
    stays selected, and no other member of [options] changes; when it
    is neither, [options] is left as it was. *)
Theorem identifier_keys_join_the_selection (keys : list string)
  (options : record) :
  let options' := fold_left fold_identifier_key keys options in
  (isArray (prop options "attributes") || isObject (prop options "attributes")
   = true ->
   forall k, In k keys -> selects (prop options' "attributes") k = true)
  /\ (forall k, selects (prop options "attributes") k = true ->
                selects (prop options' "attributes") k = true)
  /\ (forall m, m <> "attributes" -> prop options' m = prop options m)
  /\ (isArray (prop options "attributes")
      || isObject (prop options "attributes") = false ->
      options' = options).
Proof.
  cbv zeta. revert options.
  induction keys as [|key keys IH]; intros options; cbn [fold_left].
  - repeat split; auto; try easy.
  - destruct (fold_identifier_key_selects options key)
      as (H1 & H2 & H3 & H4 & H5 & H6).
    destruct (IH (fold_identifier_key options key)) as (I1 & I2 & I3 & I4).
    rewrite H4, H5 in I1, I4.
    split; [|split; [|split]].
    + intros Hshape k [<- | Hk].
      * apply I2. now apply H1.
      * now apply I1.
    + intros k Hk. apply I2. now apply H2.
    + intros m Hm. rewrite I3 by exact Hm. now apply H3.
    + intros Hshape. rewrite I4 by exact Hshape. now apply H6.
Qed.

Lemma identifier_keys_join_the_selection_witness :
  isArray (prop customer_options "attributes")
  || isObject (prop customer_options "attributes") = true
  /\ fold_left fold_identifier_key ["id"; "name"] customer_options
     = [("entityName", VStr "Customer");
        ("attributes", VArr [VStr "name"; VStr "id"])]
  /\ selects (prop (fold_left fold_identifier_key ["id"; "name"]
                      customer_options) "attributes") "id" = true.
Proof.
  split; [reflexivity|]. split; [reflexivity|].
  apply (proj1 (identifier_keys_join_the_selection ["id"; "name"]
                  customer_options) eq_refl).
  now left.
Defined.

(* ================================================================== *)
(** ** The validations of an IO schema attribute *)
(* ================================================================== *)

(** Induction on an attribute, with the predicate known of its
    properties and of its items. *)
Lemma EntityAttribute_nested_ind (P : EntityAttribute -> Prop) :
  (forall att,
      Forall (fun kv => P (snd kv)) (att_properties att) ->
      match att_items att with Some it => P it | None => True end ->
      P att) ->
  forall att, P att.
Proof.
  intros H. fix IH 1.
  intros [ty nm rq vl df hd idn vis ed li cr fi se rel ano pr it].
  apply H; cbn [att_properties att_items].
  - induction pr as [|[k x] pr IHpr]; constructor; [apply IH | exact IHpr].
  - destruct it as [it|]; [apply IH | exact I].
Qed.

Lemma required_or_nothing_loop (l : list IOSchemaAttribute) :
  (fix all (l : list IOSchemaAttribute) : bool :=
     match l with
     | [] => true
     | x :: rest => required_or_nothing x && all rest
     end) l
  = forallb required_or_nothing l.
Proof.
  induction l as [|x l IH]; [reflexivity|]. cbn [forallb]. now rewrite IH.
Qed.

Lemma required_or_nothing_unfold (a : IOSchemaAttribute) :
  required_or_nothing a
  = match io_validations a with
    | [] => true
    | [v] => v =? "required"
    | _ => false
    end
    && match io_properties a with
       | Some l => forallb required_or_nothing l
       | None => true
       end
    && match io_items a with
       | Some (_, l) => forallb required_or_nothing l
       | None => true
       end.
Proof.
  destruct a as [id nm ty rel df vl hd idn vis ed li cr fi se ano pr it].
  cbn [required_or_nothing io_validations io_properties io_items].
  destruct pr as [l|], it as [[i l']|]; rewrite ?required_or_nothing_loop;
    reflexivity.
Qed.

Lemma formatted_nested (h : string -> string) (attId : string)
  (att : EntityAttribute) :
  io_validations (entityAttributeToIOSchemaAttribute h attId att)
  = match att_validations att with
    | Some _ => ["required"]
    | None => if flag_truthy (att_required att) then ["required"] else []
    end
  /\ io_properties (entityAttributeToIOSchemaAttribute h attId att)
     = (if is_type (att_type att) "map"
        then Some (map (fun kv =>
                          entityAttributeToIOSchemaAttribute h
                            (fst kv) (snd kv)) (att_properties att))
        else None)
  /\ io_items (entityAttributeToIOSchemaAttribute h attId att)
     = (if is_type (att_type att) "list" then
          match att_items att with
          | Some it =>
              if is_type (att_type it) "map" then
                Some (it,
                      map (fun kv =>
                             entityAttributeToIOSchemaAttribute h
                               (fst kv) (snd kv)) (att_properties it))
              else None
          | None => None
          end
        else None).
Proof.
  destruct att as [ty nm rq vl df hd idn vis ed li cr fi se rel ano pr it].
  repeat split.
Qed.

Lemma required_or_nothing_properties (h : string -> string)
  (props : list (string * EntityAttribute)) :
  Forall (fun kv => forall attId,
            required_or_nothing
              (entityAttributeToIOSchemaAttribute h attId (snd kv)) = true)
    props ->
  forallb required_or_nothing
    (map (fun kv => entityAttributeToIOSchemaAttribute h (fst kv) (snd kv))
       props) = true.
Proof.
  induction 1 as [|kv props Hkv _ IH]; [reflexivity|].
  cbn [map forallb]. now rewrite Hkv, IH.
Qed.

(** X3.  The validations of an IO schema attribute tell only whether
    the attribute is required: they are [["required"]] when the
    attribute declares validations (whatever they are, the empty list
    included) or is required, and [[]] otherwise, and so it is for its
    nested properties and the properties of its items, at every depth:
    the rules it declares are dropped.  The items of a list of maps are
    spread as declared, so the items object itself keeps the
    validations it declares. *)
Theorem io_validations_are_required_or_nothing (h : string -> string)
  (attId : string) (att : EntityAttribute) :
  required_or_nothing (entityAttributeToIOSchemaAttribute h attId att) = true
  /\ (io_validations (entityAttributeToIOSchemaAttribute h attId att)
      = ["required"]
      <-> att_validations att <> None \/ att_required att = Some true)
  /\ (io_validations (entityAttributeToIOSchemaAttribute h attId att) = []
      <-> att_validations att = None /\ att_required att <> Some true)
  /\ (forall items properties,
        io_items (entityAttributeToIOSchemaAttribute h attId att)
        = Some (items, properties) ->
        att_items att = Some items
        /\ properties
           = map (fun kv =>
                    entityAttributeToIOSchemaAttribute h (fst kv) (snd kv))
               (att_properties items))
  /\ (forall items,
        att_type att = Some "list" ->
        att_items att = Some items ->
        att_type items = Some "map" ->
        exists properties,
          io_items (entityAttributeToIOSchemaAttribute h attId att)
          = Some (items, properties)).
Proof.
  split; [|split; [|split; [|split]]].
  - revert attId.
    induction att as [att IHp IHi] using EntityAttribute_nested_ind.
    intros attId. rewrite required_or_nothing_unfold.
    destruct (formatted_nested h attId att) as (Hv & Hp & Hi).
    rewrite Hv, Hp, Hi.
    apply andb_true_intro. split; [apply andb_true_intro; split|].
    + destruct (att_validations att); [reflexivity|].
      now destruct (flag_truthy (att_required att)).
    + destruct (is_type (att_type att) "map"); [|reflexivity].
      now apply required_or_nothing_properties.
    + destruct (is_type (att_type att) "list"); [|reflexivity].
      destruct (att_items att) as [it|]; [|reflexivity].
      destruct (is_type (att_type it) "map") eqn:Et; [|reflexivity].
      specialize (IHi attId). rewrite required_or_nothing_unfold in IHi.
      destruct (formatted_nested h attId it) as (_ & Hpi & _).
      rewrite Hpi, Et in IHi.
      apply andb_prop in IHi. destruct IHi as [IHi _].
      apply andb_prop in IHi. tauto.
  - rewrite (proj1 (formatted_nested h attId att)).
    destruct (att_validations att) as [v|];
      [|destruct (att_required att) as [[|]|]]; cbn [flag_truthy];
      split; try discriminate; try tauto; try congruence;
      try (intros [H|H]; congruence);
      try (intros _; left; discriminate);
      try (intros _; right; reflexivity).
  - rewrite (proj1 (formatted_nested h attId att)).
    destruct (att_validations att) as [v|];
      [|destruct (att_required att) as [[|]|]]; cbn [flag_truthy];
      split; try discriminate; try tauto; try congruence;
      try (intros [H1 H2]; congruence);
      try (intros _; split; congruence).
  - intros items properties.
    rewrite (proj2 (proj2 (formatted_nested h attId att))).
    destruct (is_type (att_type att) "list"); [|discriminate].
    destruct (att_items att) as [it|]; [|discriminate].
    destruct (is_type (att_type it) "map"); [|discriminate].
    intros [= <- <-]. split; reflexivity.
  - intros items Ht Hi Hm.
    rewrite (proj2 (proj2 (formatted_nested h attId att))).
    rewrite Ht, Hi, Hm. cbn [is_type]. rewrite !String.eqb_refl.
    eexists. reflexivity.
Qed.
